(** * ClassiPort secure vault ([script.js]): a shallow embedding and its properties

    The script keeps a list of title/content entries in [localStorage], sealed
    with AES-GCM under a key derived from a master password with PBKDF2.  The
    functions of [script.js] are transcribed below, in the order of the
    script; the browser built-ins they call ([TextEncoder], [TextDecoder],
    [btoa], [atob], [JSON.stringify], [JSON.parse], [String.prototype.trim],
    [crypto.randomUUID], PBKDF2 and HMAC) are modelled after the standards
    that define them, and the two primitives whose internals play no role
    (SHA-256 and AES-GCM) are fields of the class [Host].

    Conventions.
    - A JavaScript string is the list of its UTF-16 code units ([list N]).
    - A [Uint8Array] / [ArrayBuffer] is a [list byte].
    - Every event handler runs to completion before the next one starts (the
      script awaits its promises in sequence; interleavings of two handlers are
      outside the model), so a handler is a function from [World] to [World].
    - [console.error] output is not part of the state.
    - An engine accepts only so many arguments in one call, and
      [String.fromCharCode(...buffer)] passes one for every byte: the limit
      is the field [max_arguments] of [Host], and beyond it the call throws
      a [RangeError].  The length of a string and the quota of
      [localStorage] are taken to suffice: an envelope that can be spread
      is far below both. *)

From Stdlib Require Import NArith ZArith Lia List Ascii String Bool.
From Stdlib.Strings Require Import Byte.
From stdpp Require Import gmap list.
Import ListNotations.

Local Open Scope N_scope.
Local Open Scope list_scope.

(** ** Bytes and JavaScript strings *)

Abbreviation jsstring := (list N).

(** The byte with value [n mod 256]. *)
Definition byte_of_N (n : N) : byte :=
  match Byte.of_N (n mod 256) with
  | Some b => b
  | None => Byte.x00
  end.

(** An ASCII literal as a JavaScript string. *)
Definition js (s : string) : jsstring :=
  List.map N_of_ascii (list_ascii_of_string s).

(** A code unit is a 16-bit value. *)
Definition is_code_unit (c : N) : Prop := c < 65536.
Definition wf_string (s : jsstring) : Prop := Forall is_code_unit s.

Definition is_high_surrogate (c : N) : bool := (0xD800 <=? c) && (c <=? 0xDBFF).
Definition is_low_surrogate (c : N) : bool := (0xDC00 <=? c) && (c <=? 0xDFFF).

(** [String.prototype.isWellFormed]: no lone surrogate. *)
Fixpoint isWellFormed (s : jsstring) : bool :=
  match s with
  | [] => true
  | c :: rest =>
      if is_high_surrogate c then
        match rest with
        | d :: rest' => is_low_surrogate d && isWellFormed rest'
        | [] => false
        end
      else negb (is_low_surrogate c) && isWellFormed rest
  end.

(** ** [TextEncoder] and [TextDecoder] (WHATWG Encoding, UTF-8) *)

(** Conversion to a scalar value string: a surrogate pair becomes its code
    point, a lone surrogate becomes U+FFFD. *)
Fixpoint code_points (s : jsstring) : list N :=
  match s with
  | [] => []
  | c :: rest =>
      if is_high_surrogate c then
        match rest with
        | d :: rest' =>
            if is_low_surrogate d
            then (0x10000 + (c - 0xD800) * 0x400 + (d - 0xDC00)) :: code_points rest'
            else 0xFFFD :: code_points rest
        | [] => [0xFFFD]
        end
      else if is_low_surrogate c then 0xFFFD :: code_points rest
      else c :: code_points rest
  end.

(** The UTF-8 encoder's bytes for one scalar value ([x / 64] is [x >> 6],
    [x mod 64] is [x & 0x3F]). *)
Definition utf8_encode_cp (cp : N) : list byte :=
  if cp <? 0x80 then [byte_of_N cp]
  else if cp <? 0x800 then
    [byte_of_N (0xC0 + cp / 64); byte_of_N (0x80 + cp mod 64)]
  else if cp <? 0x10000 then
    [byte_of_N (0xE0 + cp / 4096); byte_of_N (0x80 + (cp / 64) mod 64);
     byte_of_N (0x80 + cp mod 64)]
  else
    [byte_of_N (0xF0 + cp / 262144); byte_of_N (0x80 + (cp / 4096) mod 64);
     byte_of_N (0x80 + (cp / 64) mod 64); byte_of_N (0x80 + cp mod 64)].

(** The UTF-8 decoder's state: code point under construction, bytes seen,
    bytes needed, and the bounds the next continuation byte must meet. *)
Record utf8_state : Type := Utf8State {
  u_cp : N; u_seen : N; u_needed : N; u_lower : N; u_upper : N
}.

Definition utf8_init : utf8_state := Utf8State 0 0 0 0x80 0xBF.

(** A byte read while no sequence is open: either a code point is emitted
    ([inr]) or a sequence is opened ([inl]). *)
Definition utf8_lead (b : N) : utf8_state + N :=
  if b <=? 0x7F then inr b
  else if (0xC2 <=? b) && (b <=? 0xDF) then
    inl (Utf8State (b mod 32) 0 1 0x80 0xBF)
  else if (0xE0 <=? b) && (b <=? 0xEF) then
    inl (Utf8State (b mod 16) 0 2
           (if b =? 0xE0 then 0xA0 else 0x80) (if b =? 0xED then 0x9F else 0xBF))
  else if (0xF0 <=? b) && (b <=? 0xF4) then
    inl (Utf8State (b mod 8) 0 3
           (if b =? 0xF0 then 0x90 else 0x80) (if b =? 0xF4 then 0x8F else 0xBF))
  else inr 0xFFFD.

(** The decoder (error mode "replacement").  A byte that breaks an open
    sequence yields U+FFFD and is read again with no sequence open. *)
Fixpoint utf8_decode_from (st : utf8_state) (bs : list byte) : list N :=
  match bs with
  | [] => if u_needed st =? 0 then [] else [0xFFFD]
  | x :: rest =>
      let b := Byte.to_N x in
      if u_needed st =? 0 then
        match utf8_lead b with
        | inl st' => utf8_decode_from st' rest
        | inr c => c :: utf8_decode_from utf8_init rest
        end
      else if (u_lower st <=? b) && (b <=? u_upper st) then
        let c := u_cp st * 64 + b mod 64 in
        if u_seen st + 1 =? u_needed st
        then c :: utf8_decode_from utf8_init rest
        else utf8_decode_from (Utf8State c (u_seen st + 1) (u_needed st) 0x80 0xBF) rest
      else
        0xFFFD ::
          match utf8_lead b with
          | inl st' => utf8_decode_from st' rest
          | inr c => c :: utf8_decode_from utf8_init rest
          end
  end.

(** A leading U+FEFF is dropped ([ignoreBOM] is false by default). *)
Definition strip_bom (cps : list N) : list N :=
  match cps with
  | 0xFEFF :: rest => rest
  | _ => cps
  end.

(** A code point as UTF-16 code units. *)
Definition utf16_units (cp : N) : jsstring :=
  if cp <? 0x10000 then [cp]
  else [0xD800 + (cp - 0x10000) / 0x400; 0xDC00 + (cp - 0x10000) mod 0x400].

(** [encodeUTF8(str)]: [new TextEncoder().encode(str)]. *)
Definition encodeUTF8 (str : jsstring) : list byte :=
  flat_map utf8_encode_cp (code_points str).

(** [decodeUTF8(buffer)]: [new TextDecoder().decode(buffer)]. *)
Definition decodeUTF8 (buffer : list byte) : jsstring :=
  flat_map utf16_units (strip_bom (utf8_decode_from utf8_init buffer)).

(** Scalar values: code points that are not surrogates. *)
Definition is_scalar (cp : N) : Prop :=
  cp < 0x110000 /\ ~ (0xD800 <= cp <= 0xDFFF).

(** The string does not begin with U+FEFF (which [TextDecoder] would drop). *)
Definition no_bom (s : jsstring) : Prop :=
  match s with
  | c :: _ => c <> 0xFEFF
  | [] => True
  end.

Example encodeUTF8_euro : encodeUTF8 [0x20AC] = [Byte.xe2; Byte.x82; Byte.xac].
Proof. reflexivity. Qed.

(** ** Exceptions *)

(** The exceptions the script can meet. *)
Inductive exn : Type :=
| TypeError              (* a member of [null], a call of a non-function, a key that is no [CryptoKey] *)
| SyntaxError            (* [JSON.parse] *)
| InvalidCharacterError  (* [btoa], [atob] *)
| OperationError         (* [crypto.subtle.decrypt]: the tag does not verify *)
| RangeError.            (* a call with more arguments than the engine accepts *)

Inductive result (A : Type) : Type :=
| Ok (a : A)
| Throw (e : exn).
Arguments Ok {A} a.
Arguments Throw {A} e.

(** [result] is a monad: [x ← r; k] runs [k] on the value of [r] and passes an
    exception on. *)
Global Instance result_ret : MRet result := fun A a => Ok a.
Global Instance result_bind : MBind result := fun A B k r =>
  match r with
  | Ok a => k a
  | Throw e => Throw e
  end.

(** ** [btoa], [atob] (WHATWG Infra: forgiving-base64) and [String.fromCharCode] *)

(** The base64 alphabet: the character of a 6-bit value. *)
Definition b64_char (i : N) : N :=
  if i <? 26 then 65 + i            (* A-Z *)
  else if i <? 52 then 97 + (i - 26) (* a-z *)
  else if i <? 62 then 48 + (i - 52) (* 0-9 *)
  else if i =? 62 then 43            (* + *)
  else 47.                           (* / *)

(** The 6-bit value of a character of the alphabet. *)
Definition b64_index (c : N) : option N :=
  if (65 <=? c) && (c <=? 90) then Some (c - 65)
  else if (97 <=? c) && (c <=? 122) then Some (c - 71)
  else if (48 <=? c) && (c <=? 57) then Some (c + 4)
  else if c =? 43 then Some 62
  else if c =? 47 then Some 63
  else None.

(** The 6-bit groups of a byte sequence, the last one filled with zero bits. *)
Fixpoint sextets (bs : list byte) : list N :=
  match bs with
  | [] => []
  | [x] =>
      let a := Byte.to_N x in
      [a / 4; (a mod 4) * 16]
  | [x; y] =>
      let a := Byte.to_N x in
      let b := Byte.to_N y in
      [a / 4; (a mod 4) * 16 + b / 16; (b mod 16) * 4]
  | x :: y :: z :: rest =>
      let a := Byte.to_N x in
      let b := Byte.to_N y in
      let c := Byte.to_N z in
      [a / 4; (a mod 4) * 16 + b / 16; (b mod 16) * 4 + c / 64; c mod 64]
        ++ sextets rest
  end.

(** Base64 with padding (RFC 4648, section 4). *)
Definition base64_encode (bs : list byte) : jsstring :=
  let q := List.map b64_char (sextets bs) in
  q ++ match (length q mod 4)%nat with
       | 2%nat => [61; 61]
       | 3%nat => [61]
       | _ => []
       end.

(** [String.fromCharCode(...buffer)] for a byte buffer. *)
Definition fromCharCode (buffer : list byte) : jsstring :=
  List.map Byte.to_N buffer.

(** [btoa(data)]: throws when a code unit is above U+00FF. *)
Definition btoa (data : jsstring) : result jsstring :=
  if forallb (fun c => c <=? 0xFF) data
  then Ok (base64_encode (List.map byte_of_N data))
  else Throw InvalidCharacterError.

Definition is_ascii_whitespace (c : N) : bool :=
  (c =? 9) || (c =? 10) || (c =? 12) || (c =? 13) || (c =? 32).

(** One or two trailing [=] are removed. *)
Definition strip_padding (data : jsstring) : jsstring :=
  match rev data with
  | x :: r =>
      if x =? 61 then
        match r with
        | y :: r' => if y =? 61 then rev r' else rev r
        | [] => rev r
        end
      else data
  | [] => data
  end.

(** The bytes of a sequence of 6-bit values; 12 or 18 left-over bits lose
    their last 4 or 2. *)
Fixpoint decode_sextets (l : list N) : list byte :=
  match l with
  | s1 :: s2 :: s3 :: s4 :: rest =>
      [byte_of_N (s1 * 4 + s2 / 16); byte_of_N ((s2 mod 16) * 16 + s3 / 4);
       byte_of_N ((s3 mod 4) * 64 + s4)] ++ decode_sextets rest
  | [s1; s2; s3] =>
      [byte_of_N (s1 * 4 + s2 / 16); byte_of_N ((s2 mod 16) * 16 + s3 / 4)]
  | [s1; s2] => [byte_of_N (s1 * 4 + s2 / 16)]
  | _ => []
  end.

(** Forgiving-base64 decode; [None] is failure. *)
Definition forgiving_base64_decode (data : jsstring) : option (list byte) :=
  let data := List.filter (fun c => negb (is_ascii_whitespace c)) data in
  let data := if (length data mod 4 =? 0)%nat then strip_padding data else data in
  if (length data mod 4 =? 1)%nat then None
  else option_map decode_sextets (mapM b64_index data).

(** [atob(data)]: the decoded bytes as a string of code units below 256. *)
Definition atob (data : jsstring) : result jsstring :=
  match forgiving_base64_decode data with
  | Some bytes => Ok (fromCharCode bytes)
  | None => Throw InvalidCharacterError
  end.

(** [Uint8Array.from(s, c => c.charCodeAt(0))] for a string [s] of code units
    below 256 (what [atob] returns): one element per code unit. *)
Definition bytes_of_binary_string (s : jsstring) : list byte :=
  List.map byte_of_N s.

Example btoa_Man : btoa (js "Man") = Ok (js "TWFu").
Proof. reflexivity. Qed.
Example btoa_Ma : btoa (js "Ma") = Ok (js "TWE=").
Proof. reflexivity. Qed.
Example atob_TQ : atob (js " TQ== ") = Ok (js "M").
Proof. reflexivity. Qed.
Example atob_short : atob (js "TWFuT") = Throw InvalidCharacterError.
Proof. reflexivity. Qed.
Example atob_unpadded : atob (js "TWE") = Ok (js "Ma").
Proof. reflexivity. Qed.

(** ** The host: Number formatting and Web Crypto primitives

    What the browser provides and the script only calls.  A JSON number is
    kept as the literal that denotes it; what the script can observe of the
    double behind it is given by two functions of the literal.  AES-GCM comes
    with the one property the script relies on: decryption under the key and
    nonce of the encryption returns the plaintext. *)
Class Host : Type := {
  (** the text [JSON.stringify] writes for the Number a literal denotes *)
  number_to_json : jsstring -> jsstring;
  (** whether the Number a literal denotes is [=== 0] *)
  number_is_zero : jsstring -> bool;
  (** a [CryptoKey] for AES-GCM; not extractable, so opaque *)
  CryptoKey : Type;
  (** SHA-256: digest of a byte sequence *)
  sha256 : list byte -> list byte;
  (** the AES-GCM key made of 256 derived bits *)
  aes_import_key : list byte -> CryptoKey;
  (** [crypto.subtle.encrypt({name: "AES-GCM", iv}, key, data)]:
      ciphertext followed by the 128-bit tag *)
  aes_gcm_encrypt : CryptoKey -> list byte -> list byte -> list byte;
  (** [crypto.subtle.decrypt({name: "AES-GCM", iv}, key, data)]:
      [None] is the [OperationError] of a tag that does not verify *)
  aes_gcm_decrypt : CryptoKey -> list byte -> list byte -> option (list byte);
  aes_gcm_decrypt_encrypt : forall key iv data,
    aes_gcm_decrypt key iv (aes_gcm_encrypt key iv data) = Some data;
  (** the number of arguments the engine accepts in one call: a call with
      more, as [String.fromCharCode(...buffer)] makes of a long buffer, throws
      a [RangeError].  The number differs between engines; all that is
      assumed is that the 16 bytes of a salt can be passed. *)
  max_arguments : N;
  max_arguments_salt : 16 <= max_arguments
}.

(** ** [JSON.stringify] and [JSON.parse] (ECMA-262, section 25.5) *)

(** The values [JSON.parse] can return. An object is the list of its own
    properties in property order. *)
#[warnings="-register-all"]
Inductive json : Type :=
| JNull
| JBool (b : bool)
| JNumber (literal : jsstring)
| JString (s : jsstring)
| JArray (elements : list json)
| JObject (properties : list (jsstring * json)).

(** Lower-case hexadecimal digit. *)
Definition hex_digit (n : N) : N := if n <? 10 then 48 + n else 87 + n.

(** [UnicodeEscape]: backslash, [u] and four hexadecimal digits. *)
Definition unicode_escape (c : N) : jsstring :=
  [92; 117; hex_digit (c / 4096); hex_digit ((c / 256) mod 16);
   hex_digit ((c / 16) mod 16); hex_digit (c mod 16)].

(** The text of a code unit that is not a surrogate inside a JSON string. *)
Definition quote_unit (c : N) : jsstring :=
  if c =? 8 then [92; 98]          (* backslash, b *)
  else if c =? 9 then [92; 116]    (* backslash, t *)
  else if c =? 10 then [92; 110]   (* backslash, n *)
  else if c =? 12 then [92; 102]   (* backslash, f *)
  else if c =? 13 then [92; 114]   (* backslash, r *)
  else if c =? 34 then [92; 34]    (* backslash, quote *)
  else if c =? 92 then [92; 92]    (* backslash, backslash *)
  else if c <? 0x20 then unicode_escape c
  else [c].

(** The characters of a string inside the quotes: a surrogate pair is kept, a
    lone surrogate is escaped. *)
Fixpoint quote_chars (s : jsstring) : jsstring :=
  match s with
  | [] => []
  | c :: rest =>
      if is_high_surrogate c then
        match rest with
        | d :: rest' =>
            if is_low_surrogate d then c :: d :: quote_chars rest'
            else unicode_escape c ++ quote_chars rest
        | [] => unicode_escape c
        end
      else if is_low_surrogate c then unicode_escape c ++ quote_chars rest
      else quote_unit c ++ quote_chars rest
  end.

(** [QuoteJSONString]. *)
Definition QuoteJSONString (s : jsstring) : jsstring :=
  [34] ++ quote_chars s ++ [34].

Fixpoint join_with (sep : jsstring) (parts : list jsstring) : jsstring :=
  match parts with
  | [] => []
  | [p] => p
  | p :: ps => p ++ sep ++ join_with sep ps
  end.

Section JSON.
Context `{Host}.

(** [JSON.stringify(value)] for a value made of JSON data (no [toJSON], no
    replacer, no indentation). *)
Fixpoint JSON_stringify (v : json) : jsstring :=
  match v with
  | JNull => js "null"
  | JBool true => js "true"
  | JBool false => js "false"
  | JNumber literal => number_to_json literal
  | JString s => QuoteJSONString s
  | JArray elements =>
      js "[" ++ join_with (js ",") (List.map JSON_stringify elements) ++ js "]"
  | JObject properties =>
      js "{" ++
      join_with (js ",")
        (List.map (fun '(k, v) => QuoteJSONString k ++ js ":" ++ JSON_stringify v)
           properties)
      ++ js "}"
  end.

End JSON.

(** *** Parsing *)

Definition is_json_whitespace (c : N) : bool :=
  (c =? 9) || (c =? 10) || (c =? 13) || (c =? 32).

Fixpoint skip_ws (s : jsstring) : jsstring :=
  match s with
  | c :: rest => if is_json_whitespace c then skip_ws rest else s
  | [] => []
  end.

Definition is_digit (c : N) : bool := (48 <=? c) && (c <=? 57).

(** The value of a hexadecimal digit of either case. *)
Definition hex_value (c : N) : option N :=
  if is_digit c then Some (c - 48)
  else if (97 <=? c) && (c <=? 102) then Some (c - 87)
  else if (65 <=? c) && (c <=? 70) then Some (c - 55)
  else None.

(** The character a one-letter escape stands for. *)
Definition simple_escape (e : N) : option N :=
  if e =? 34 then Some 34          (* quote *)
  else if e =? 92 then Some 92     (* backslash *)
  else if e =? 47 then Some 47     (* slash *)
  else if e =? 98 then Some 8      (* b: backspace *)
  else if e =? 102 then Some 12    (* f: form feed *)
  else if e =? 110 then Some 10    (* n: line feed *)
  else if e =? 114 then Some 13    (* r: carriage return *)
  else if e =? 116 then Some 9     (* t: tab *)
  else None.

Definition cons_fst {A B} (a : A) (r : option (list A * B)) : option (list A * B) :=
  match r with
  | Some (l, b) => Some (a :: l, b)
  | None => None
  end.

(** A string after its opening quote: the string's value and the text after the
    closing quote. *)
Fixpoint parse_string_chars (s : jsstring) : option (jsstring * jsstring) :=
  match s with
  | [] => None
  | c :: rest =>
      if c =? 34 then Some ([], rest)
      else if c =? 92 then
        match rest with
        | e :: rest' =>
            if e =? 117 then
              match rest' with
              | h1 :: h2 :: h3 :: h4 :: rest'' =>
                  match hex_value h1, hex_value h2, hex_value h3, hex_value h4 with
                  | Some a, Some b, Some c, Some d =>
                      cons_fst (a * 4096 + b * 256 + c * 16 + d)
                        (parse_string_chars rest'')
                  | _, _, _, _ => None
                  end
              | _ => None
              end
            else
              match simple_escape e with
              | Some x => cons_fst x (parse_string_chars rest')
              | None => None
              end
        | [] => None
        end
      else if c <? 0x20 then None
      else cons_fst c (parse_string_chars rest)
  end.

(** The longest prefix of digits and what follows it. *)
Fixpoint span_digits (s : jsstring) : jsstring * jsstring :=
  match s with
  | c :: rest =>
      if is_digit c then let '(ds, r) := span_digits rest in (c :: ds, r)
      else ([], s)
  | [] => ([], [])
  end.

(** A number: [-]? ([0] | [1-9] digits) ([.] digits+)? ([eE] [+-]? digits+)?;
    the literal and the text after it. *)
Definition parse_number (s : jsstring) : option (jsstring * jsstring) :=
  let '(sign, s1) :=
    match s with
    | 45 :: r => ([45], r)
    | _ => ([], s)
    end in
  let '(int, s2) := span_digits s1 in
  match int with
  | [] => None
  | d :: ds =>
      if (d =? 48) && negb (length ds =? 0)%nat then
        (* a leading zero stands alone: the literal ends after it *)
        None
      else
        let frac :=
          match s2 with
          | 46 :: r =>
              let '(fs, r') := span_digits r in
              match fs with
              | [] => None
              | _ => Some (46 :: fs, r')
              end
          | _ => Some ([], s2)
          end in
        match frac with
        | None => None
        | Some (fs, s3) =>
            let exp :=
              match s3 with
              | e :: r =>
                  if (e =? 101) || (e =? 69) then
                    let '(sg, r1) :=
                      match r with
                      | x :: r' => if (x =? 43) || (x =? 45) then ([x], r') else ([], r)
                      | [] => ([], r)
                      end in
                    let '(es, r2) := span_digits r1 in
                    match es with
                    | [] => None
                    | _ => Some (e :: sg ++ es, r2)
                    end
                  else Some ([], s3)
              | [] => Some ([], s3)
              end in
            match exp with
            | None => None
            | Some (ex, s4) => Some (sign ++ int ++ fs ++ ex, s4)
            end
        end
  end.

(** [CreateDataProperty] as [JSON.parse] uses it, on the list of own properties
    in property order: array-index keys in ascending order first, then the
    other keys in order of creation; a key that exists keeps its place. *)
Definition digits_value (ds : jsstring) : N :=
  fold_left (fun acc d => acc * 10 + (d - 48)) ds 0.

(** The array index a key denotes: a canonical decimal below 2^32 - 1. *)
Definition array_index (k : jsstring) : option N :=
  match k with
  | [] => None
  | d :: ds =>
      if forallb is_digit k && (negb (d =? 48) || (length ds =? 0)%nat)
         && (digits_value k <? 4294967295)
      then Some (digits_value k)
      else None
  end.

Fixpoint insert_index (i : N) (k : jsstring) (v : json)
    (props : list (jsstring * json)) : list (jsstring * json) :=
  match props with
  | [] => [(k, v)]
  | (k', v') :: rest =>
      match array_index k' with
      | Some j => if j <? i then (k', v') :: insert_index i k v rest
                  else (k, v) :: props
      | None => (k, v) :: props
      end
  end.

Definition CreateDataProperty (props : list (jsstring * json)) (k : jsstring) (v : json)
    : list (jsstring * json) :=
  if existsb (fun kv => bool_decide (fst kv = k)) props then
    List.map (fun kv => if bool_decide (fst kv = k) then (k, v) else kv) props
  else
    match array_index k with
    | Some i => insert_index i k v props
    | None => props ++ [(k, v)]
    end.

(** The object with the members of an object literal, in the order read. *)
Definition object_of_members (members : list (jsstring * json)) : json :=
  JObject (fold_left (fun props kv => CreateDataProperty props (fst kv) (snd kv))
             members []).

(** [s] without the prefix [p]. *)
Fixpoint strip_prefix (p s : jsstring) : option jsstring :=
  match p, s with
  | [], _ => Some s
  | a :: p', b :: s' => if a =? b then strip_prefix p' s' else None
  | _ :: _, [] => None
  end.

(** A JSON value at the head of a text (after white space) and the text after
    it.  [fuel] bounds the depth of the recursion; [JSON_parse] gives enough. *)
Fixpoint parse_value (fuel : nat) (s : jsstring) {struct fuel}
    : option (json * jsstring) :=
  match fuel with
  | O => None
  | S fuel =>
      match skip_ws s with
      | [] => None
      | c :: rest =>
          if c =? 34 then
            match parse_string_chars rest with
            | Some (str, r) => Some (JString str, r)
            | None => None
            end
          else if c =? 91 then
            match skip_ws rest with
            | c' :: r =>
                if c' =? 93 then Some (JArray [], r)
                else
                  match parse_elements fuel rest with
                  | Some (vs, r') => Some (JArray vs, r')
                  | None => None
                  end
            | [] => None
            end
          else if c =? 123 then
            match skip_ws rest with
            | c' :: r =>
                if c' =? 125 then Some (JObject [], r)
                else
                  match parse_members fuel rest with
                  | Some (ms, r') => Some (object_of_members ms, r')
                  | None => None
                  end
            | [] => None
            end
          else
            match strip_prefix (js "true") (c :: rest) with
            | Some r => Some (JBool true, r)
            | None =>
            match strip_prefix (js "false") (c :: rest) with
            | Some r => Some (JBool false, r)
            | None =>
            match strip_prefix (js "null") (c :: rest) with
            | Some r => Some (JNull, r)
            | None =>
            match parse_number (c :: rest) with
            | Some (literal, r) => Some (JNumber literal, r)
            | None => None
            end end end end
      end
  end

(** The elements of an array after its opening bracket, up to the closing one. *)
with parse_elements (fuel : nat) (s : jsstring) {struct fuel}
    : option (list json * jsstring) :=
  match fuel with
  | O => None
  | S fuel =>
      match parse_value fuel s with
      | Some (v, r) =>
          match skip_ws r with
          | c :: r' =>
              if c =? 44 then
                match parse_elements fuel r' with
                | Some (vs, r'') => Some (v :: vs, r'')
                | None => None
                end
              else if c =? 93 then Some ([v], r')
              else None
          | [] => None
          end
      | None => None
      end
  end

(** The members of an object after its opening brace, up to the closing one. *)
with parse_members (fuel : nat) (s : jsstring) {struct fuel}
    : option (list (jsstring * json) * jsstring) :=
  match fuel with
  | O => None
  | S fuel =>
      match skip_ws s with
      | q :: r0 =>
          if q =? 34 then
            match parse_string_chars r0 with
            | Some (k, r1) =>
                match skip_ws r1 with
                | c1 :: r2 =>
                    if c1 =? 58 then
                      match parse_value fuel r2 with
                      | Some (v, r3) =>
                          match skip_ws r3 with
                          | c :: r4 =>
                              if c =? 44 then
                                match parse_members fuel r4 with
                                | Some (ms, r5) => Some ((k, v) :: ms, r5)
                                | None => None
                                end
                              else if c =? 125 then Some ([(k, v)], r4)
                              else None
                          | [] => None
                          end
                      | None => None
                      end
                    else None
                | [] => None
                end
            | None => None
            end
          else None
      | [] => None
      end
  end.

(** [JSON.parse(text)]: a [SyntaxError] unless the text is one JSON value
    between optional white space. *)
Definition JSON_parse (text : jsstring) : result json :=
  match parse_value (S (length text)) text with
  | Some (v, r) =>
      match skip_ws r with
      | [] => Ok v
      | _ :: _ => Throw SyntaxError
      end
  | None => Throw SyntaxError
  end.

Example JSON_parse_nested :
  JSON_parse (js "[[1.5e3, true], {}, null]")
  = Ok (JArray [JArray [JNumber (js "1.5e3"); JBool true]; JObject []; JNull]).
Proof. vm_compute. reflexivity. Qed.

Example JSON_parse_leading_zero : JSON_parse (js "[01]") = Throw SyntaxError.
Proof. vm_compute. reflexivity. Qed.

Example JSON_parse_trailing : JSON_parse (js "[] x") = Throw SyntaxError.
Proof. vm_compute. reflexivity. Qed.

Example JSON_parse_control : JSON_parse [34; 10; 34] = Throw SyntaxError.
Proof. vm_compute. reflexivity. Qed.

(** ** Entries *)

(** An entry of the vault: [{ id, title, content }]. *)
Record Entry : Type := mkEntry {
  id : jsstring;
  title : jsstring;
  content : jsstring
}.

(** The object [{ id: ..., title: ..., content: ... }]. *)
Definition entry_value (e : Entry) : json :=
  JObject [(js "id", JString (id e)); (js "title", JString (title e));
           (js "content", JString (content e))].

(** The array of the entries [es]. *)
Definition entries_value (es : list Entry) : json :=
  JArray (List.map entry_value es).

(** All three fields are strings of 16-bit code units. *)
Definition wf_entry (e : Entry) : Prop :=
  wf_string (id e) /\ wf_string (title e) /\ wf_string (content e).

(** ** [String.prototype.trim] *)

(** White space and line terminators of ECMAScript. *)
Definition is_js_whitespace (c : N) : bool :=
  (c =? 0x9) || (c =? 0xA) || (c =? 0xB) || (c =? 0xC) || (c =? 0xD)
  || (c =? 0x20) || (c =? 0xA0) || (c =? 0x1680)
  || ((0x2000 <=? c) && (c <=? 0x200A))
  || (c =? 0x2028) || (c =? 0x2029) || (c =? 0x202F) || (c =? 0x205F)
  || (c =? 0x3000) || (c =? 0xFEFF).

Fixpoint trim_start (s : jsstring) : jsstring :=
  match s with
  | c :: rest => if is_js_whitespace c then trim_start rest else s
  | [] => []
  end.

Definition trim_end (s : jsstring) : jsstring := rev (trim_start (rev s)).

Definition trim (s : jsstring) : jsstring := trim_end (trim_start s).

Example trim_note : trim (js "  Note ") = js "Note".
Proof. reflexivity. Qed.
Example trim_blank : trim (js "   ") = [].
Proof. reflexivity. Qed.

(** ** [crypto.randomUUID] (RFC 4122, version 4) *)

Definition hex_byte (b : byte) : jsstring :=
  [hex_digit (Byte.to_N b / 16); hex_digit (Byte.to_N b mod 16)].

(** The UUID made of 16 random bytes: version and variant bits are set, the
    bytes are written in hexadecimal in groups of 4, 2, 2, 2 and 6. *)
Definition uuid_v4 (random : list byte) : jsstring :=
  let bytes :=
    imap (fun i b =>
            if (i =? 6)%nat then byte_of_N (0x40 + Byte.to_N b mod 16)
            else if (i =? 8)%nat then byte_of_N (0x80 + Byte.to_N b mod 64)
            else b) random in
  let hex (l : list byte) := flat_map hex_byte l in
  hex (take 4 bytes) ++ js "-" ++ hex (take 2 (drop 4 bytes)) ++ js "-"
  ++ hex (take 2 (drop 6 bytes)) ++ js "-" ++ hex (take 2 (drop 8 bytes)) ++ js "-"
  ++ hex (drop 10 bytes).

Example uuid_v4_zero :
  uuid_v4 (repeat Byte.x00 16) = js "00000000-0000-4000-8000-000000000000".
Proof. reflexivity. Qed.

(** ** PBKDF2 with HMAC-SHA-256 (RFC 8018, RFC 2104) *)

Section Key_derivation.
Context `{Host}.

Definition xor_byte (a b : byte) : byte :=
  byte_of_N (N.lxor (Byte.to_N a) (Byte.to_N b)).

Definition xor_bytes (a b : list byte) : list byte := zip_with xor_byte a b.

(** The HMAC key as one block of 64 bytes: a longer key is hashed first, and
    the key is filled up with zero bytes. *)
Definition hmac_key_block (key : list byte) : list byte :=
  let k := if (64 <? length key)%nat then sha256 key else key in
  k ++ repeat Byte.x00 (64 - length k).

Definition hmac_sha256 (key message : list byte) : list byte :=
  let k0 := hmac_key_block key in
  sha256 (List.map (xor_byte Byte.x5c) k0
          ++ sha256 (List.map (xor_byte Byte.x36) k0 ++ message)).

(** A 32-bit integer, most significant byte first. *)
Definition int32_be (i : N) : list byte :=
  [byte_of_N (i / 16777216); byte_of_N (i / 65536); byte_of_N (i / 256); byte_of_N i].

(** Block [i] of the derived key: [U_1 xor ... xor U_c]. *)
Definition pbkdf2_block (password salt : list byte) (iterations : N) (i : N)
    : list byte :=
  let u1 := hmac_sha256 password (salt ++ int32_be i) in
  snd (N.iter (iterations - 1)
         (fun '(u, t) => let u' := hmac_sha256 password u in (u', xor_bytes t u'))
         (u1, u1)).

(** The first [dkLen] bytes of the blocks 1, 2, ... *)
Definition pbkdf2_hmac_sha256 (password salt : list byte) (iterations : N)
    (dkLen : nat) : list byte :=
  take dkLen
    (flat_map (fun i => pbkdf2_block password salt iterations (N.of_nat i))
       (seq 1 ((dkLen + 31) / 32))).

(** [deriveKey(password, salt)]: the password's UTF-8 bytes are the PBKDF2
    key material; 250000 iterations of HMAC-SHA-256 give a 256-bit AES-GCM key. *)
Definition deriveKey (password : jsstring) (salt : list byte) : CryptoKey :=
  let keyMaterial := encodeUTF8 password in
  aes_import_key (pbkdf2_hmac_sha256 keyMaterial salt 250000 32).

End Key_derivation.

(** ** The state of the page *)

(** [localStorage]: the stored items, and, for the proofs only, the history of
    the [setItem] calls in order. *)
Record Storage : Type := mkStorage {
  items : gmap jsstring jsstring;
  writes : list (jsstring * jsstring)
}.

Definition getItem (k : jsstring) (s : Storage) : option jsstring := items s !! k.

Definition setItem (k v : jsstring) (s : Storage) : Storage :=
  mkStorage (<[k := v]> (items s)) (writes s ++ [(k, v)]).

(** One [<article>] of the list: the values given to [dataset.id] and to the
    [textContent] of the title and the content ([None] is [undefined]); its
    delete button calls [deleteEntry] with the first. *)
Record Article : Type := mkArticle {
  article_id : option json;
  article_title : option json;
  article_content : option json
}.

(** The content of [#entries-list]. *)
Inductive EntriesList : Type :=
| Notice (text : jsstring)
| Articles (articles : list Article).

Inductive View : Type := LoginView | VaultView.

(** The parts of the document the script reads and writes.  Of the two
    sections exactly one carries the class [visible]: [view] says which. *)
Record Dom : Type := mkDom {
  master_password : jsstring;   (* #master-password .value *)
  entry_title : jsstring;       (* #entry-title .value *)
  entry_content : jsstring;     (* #entry-content .value *)
  login_error : jsstring;       (* #login-error .textContent *)
  entry_error : jsstring;       (* #entry-error .textContent *)
  entries_list : EntriesList;   (* #entries-list *)
  view : View
}.

Section Vault.
Context `{Host}.

(** The object [vault]. *)
Record Vault : Type := mkVault {
  entries : json;
  cryptoKey : option CryptoKey;
  salt : option (list byte)
}.

(** [entropy] is the stream [crypto.getRandomValues] draws from. *)
Record World : Type := mkWorld {
  vault : Vault;
  localStorage : Storage;
  document : Dom;
  entropy : nat -> byte
}.

Definition set_vault (f : Vault -> Vault) (w : World) : World :=
  mkWorld (f (vault w)) (localStorage w) (document w) (entropy w).
Definition set_localStorage (f : Storage -> Storage) (w : World) : World :=
  mkWorld (vault w) (f (localStorage w)) (document w) (entropy w).
Definition set_document (f : Dom -> Dom) (w : World) : World :=
  mkWorld (vault w) (localStorage w) (f (document w)) (entropy w).

Definition set_entries (v : json) (x : Vault) : Vault :=
  mkVault v (cryptoKey x) (salt x).
Definition set_cryptoKey (k : option CryptoKey) (x : Vault) : Vault :=
  mkVault (entries x) k (salt x).
Definition set_salt (s : option (list byte)) (x : Vault) : Vault :=
  mkVault (entries x) (cryptoKey x) s.

(** *** Computations: state and exceptions

    A computation runs in a world and ends in a world, with a value or with an
    exception thrown (or a promise rejected). *)
Definition M (A : Type) : Type := World -> result A * World.

Global Instance M_ret : MRet M := fun A a w => (Ok a, w).
Global Instance M_bind : MBind M := fun A B k m w =>
  match m w with
  | (Ok a, w') => k a w'
  | (Throw e, w') => (Throw e, w')
  end.

Definition throw {A} (e : exn) : M A := fun w => (Throw e, w).
Definition lift {A} (r : result A) : M A := fun w => (r, w).
Definition get : M World := fun w => (Ok w, w).
Definition modify (f : World -> World) : M unit := fun w => (Ok tt, f w).

(** [try { m } catch (err) { handler }]. *)
Definition try_catch {A} (m : M A) (handler : exn -> M A) : M A := fun w =>
  match m w with
  | (Ok a, w') => (Ok a, w')
  | (Throw e, w') => handler e w'
  end.

(** A promise nobody awaits, run to its end: a rejection is not observed. *)
Definition detach (m : M unit) : M unit := fun w => (Ok tt, snd (m w)).

(** An event handler run to its end: an exception that escapes is only
    reported to the console. *)
Definition run (m : M unit) (w : World) : World := snd (m w).

(** *** The script *)

Definition STORAGE_KEY : jsstring := js "secureVault:data".
Definition SALT_KEY : jsstring := js "secureVault:salt".
Definition IV_LENGTH : nat := 12.

(** [getRandomBytes(length)]. *)
Definition getRandomBytes (length : nat) : M (list byte) := fun w =>
  (Ok (List.map (entropy w) (seq 0 length)),
   mkWorld (vault w) (localStorage w) (document w)
     (fun i => entropy w (length + i)%nat)).

(** [crypto.randomUUID()]. *)
Definition randomUUID : M jsstring :=
  random ← getRandomBytes 16; mret (uuid_v4 random).

(** [crypto.subtle.encrypt] and [crypto.subtle.decrypt] for AES-GCM: a key that
    is [null] is a [TypeError]. *)
Definition subtle_encrypt (iv : list byte) (key : option CryptoKey) (data : list byte)
    : result (list byte) :=
  match key with
  | Some k => Ok (aes_gcm_encrypt k iv data)
  | None => Throw TypeError
  end.

Definition subtle_decrypt (iv : list byte) (key : option CryptoKey) (data : list byte)
    : result (list byte) :=
  match key with
  | Some k =>
      match aes_gcm_decrypt k iv data with
      | Some plaintext => Ok plaintext
      | None => Throw OperationError
      end
  | None => Throw TypeError
  end.

(** Whether the bytes can be spread into the arguments of one call. *)
Definition spreads (bytes : list byte) : bool :=
  N.of_nat (length bytes) <=? max_arguments.

(** [String.fromCharCode(...bytes)]: one argument for every byte. *)
Definition fromCharCode_spread (bytes : list byte) : result jsstring :=
  if spreads bytes then Ok (fromCharCode bytes) else Throw RangeError.

(** [encrypt(key, data)]. *)
Definition encrypt (key : option CryptoKey) (data : jsstring) : M jsstring :=
  iv ← getRandomBytes IV_LENGTH;
  let encodedData := encodeUTF8 data in
  encrypted ← lift (subtle_encrypt iv key encodedData);
  let buffer := iv ++ encrypted in
  binary ← lift (fromCharCode_spread buffer);
  lift (btoa binary).

(** [decrypt(key, data)]. *)
Definition decrypt (key : option CryptoKey) (data : jsstring) : result jsstring :=
  binary ← atob data;
  let buffer := bytes_of_binary_string binary in
  let iv := take IV_LENGTH buffer in
  let ciphertext := drop IV_LENGTH buffer in
  decrypted ← subtle_decrypt iv key ciphertext;
  mret (decodeUTF8 decrypted).

(** [saveVault(encryptedData)]. *)
Definition saveVault (encryptedData : jsstring) : M unit :=
  modify (set_localStorage (setItem STORAGE_KEY encryptedData)).

(** [loadVault()]. *)
Definition loadVault : M (option jsstring) :=
  w ← get; mret (getItem STORAGE_KEY (localStorage w)).

(** [saveSalt(salt)]. *)
Definition saveSalt (salt : list byte) : M unit :=
  binary ← lift (fromCharCode_spread salt);
  b64 ← lift (btoa binary);
  modify (set_localStorage (setItem SALT_KEY b64)).

(** [!x] for a value that is a string or [null]. *)
Definition falsy (x : option jsstring) : bool :=
  match x with
  | None | Some [] => true
  | Some (_ :: _) => false
  end.

(** [loadSalt()]. *)
Definition loadSalt : M (option (list byte)) :=
  w ← get;
  let b64 := getItem SALT_KEY (localStorage w) in
  if falsy b64 then mret None
  else
    binary ← lift (atob (default [] b64));
    mret (Some (bytes_of_binary_string binary)).

(** A member [id], [title] or [content] of a value: a [TypeError] on [null],
    [undefined] ([None]) unless the value is an object that has it (none of
    the prototypes has a property of these names). *)
Definition get_field (v : json) (k : jsstring) : result (option json) :=
  match v with
  | JNull => Throw TypeError
  | JObject properties =>
      Ok (snd <$> List.find (fun kv => bool_decide (fst kv = k)) properties)
  | _ => Ok None
  end.

(** [vault.entries.length === 0]. *)
Definition length_is_zero (v : json) : result bool :=
  match v with
  | JNull => Throw TypeError
  | JArray elements => Ok (length elements =? 0)%nat
  | JString s => Ok (length s =? 0)%nat
  | JObject properties =>
      Ok match List.find (fun kv => bool_decide (fst kv = js "length")) properties with
         | Some (_, JNumber literal) => number_is_zero literal
         | _ => false
         end
  | _ => Ok false
  end.

(** The elements of an array; a method of arrays ([forEach], [filter], [push])
    is [undefined] on any other value, and calling it a [TypeError]. *)
Definition array_elements (v : json) : result (list json) :=
  match v with
  | JArray elements => Ok elements
  | _ => Throw TypeError
  end.

Fixpoint forEach (callback : json -> M unit) (elements : list json) : M unit :=
  match elements with
  | [] => mret tt
  | e :: rest => _ ← callback e; forEach callback rest
  end.

Definition append_article (a : Article) : M unit :=
  modify (set_document (fun d =>
    mkDom (master_password d) (entry_title d) (entry_content d) (login_error d)
      (entry_error d)
      match entries_list d with
      | Articles l => Articles (l ++ [a])
      | Notice _ => Articles [a]
      end
      (view d))).

Definition set_entries_list (l : EntriesList) : M unit :=
  modify (set_document (fun d =>
    mkDom (master_password d) (entry_title d) (entry_content d) (login_error d)
      (entry_error d) l (view d))).

(** [renderEntries()]. *)
Definition renderEntries : M unit :=
  _ ← set_entries_list (Articles []);
  w ← get;
  empty ← lift (length_is_zero (entries (vault w)));
  if (empty : bool) then set_entries_list (Notice (js "Your vault is empty."))
  else
    elements ← lift (array_elements (entries (vault w)));
    forEach (fun e =>
      id ← lift (get_field e (js "id"));
      title ← lift (get_field e (js "title"));
      content ← lift (get_field e (js "content"));
      append_article (mkArticle id title content)) elements.

(** [showLoginError(message)], [hideLoginError()], [showEntryError(message)],
    [hideEntryError()]. *)
Definition showLoginError (message : jsstring) : M unit :=
  modify (set_document (fun d =>
    mkDom (master_password d) (entry_title d) (entry_content d) message
      (entry_error d) (entries_list d) (view d))).

Definition hideLoginError : M unit := showLoginError [].

Definition showEntryError (message : jsstring) : M unit :=
  modify (set_document (fun d =>
    mkDom (master_password d) (entry_title d) (entry_content d) (login_error d)
      message (entries_list d) (view d))).

Definition hideEntryError : M unit := showEntryError [].

(** [clearEntryForm()]. *)
Definition clearEntryForm : M unit :=
  _ ← modify (set_document (fun d =>
    mkDom (master_password d) [] [] (login_error d) (entry_error d)
      (entries_list d) (view d)));
  hideEntryError.

Definition set_master_password (value : jsstring) : M unit :=
  modify (set_document (fun d =>
    mkDom value (entry_title d) (entry_content d) (login_error d) (entry_error d)
      (entries_list d) (view d))).

Definition set_view (v : View) : M unit :=
  modify (set_document (fun d =>
    mkDom (master_password d) (entry_title d) (entry_content d) (login_error d)
      (entry_error d) (entries_list d) v)).

(** [showVaultSection()], [showLoginSection()]. *)
Definition showVaultSection : M unit := set_view VaultView.
Definition showLoginSection : M unit := set_view LoginView.

(** [saveVaultData()]. *)
Definition saveVaultData : M unit :=
  w ← get;
  let plaintext := JSON_stringify (entries (vault w)) in
  encryptedData ← encrypt (cryptoKey (vault w)) plaintext;
  saveVault encryptedData.

(** [loadVaultData()]. *)
Definition loadVaultData : M bool :=
  encryptedData ← loadVault;
  if falsy encryptedData then
    _ ← modify (set_vault (set_entries (JArray [])));
    mret true
  else
    try_catch
      (w ← get;
       decrypted ← lift (decrypt (cryptoKey (vault w)) (default [] encryptedData));
       parsed ← lift (JSON_parse decrypted);
       _ ← modify (set_vault (set_entries parsed));
       mret true)
      (fun err => mret false).

(** [vault.entries.push(newEntry)]. *)
Definition entries_push (newEntry : json) : M unit :=
  w ← get;
  elements ← lift (array_elements (entries (vault w)));
  modify (set_vault (set_entries (JArray (elements ++ [newEntry])))).

(** [addEntry(title, content)]. *)
Definition addEntry (title content : jsstring) : M unit :=
  if falsy (Some title) || falsy (Some content) then
    showEntryError (js "Title and content cannot be empty.")
  else
    id ← randomUUID;
    let newEntry := entry_value (mkEntry id (trim title) (trim content)) in
    _ ← entries_push newEntry;
    detach (_ ← saveVaultData; _ ← renderEntries; clearEntryForm).

(** [e.id !== id] for a string [id]. *)
Definition id_differs (id : jsstring) (e : json) : result bool :=
  field ← get_field e (js "id");
  mret match field with
       | Some (JString s) => negb (bool_decide (s = id))
       | _ => true
       end.

Fixpoint filter_result (keep : json -> result bool) (elements : list json)
    : result (list json) :=
  match elements with
  | [] => Ok []
  | e :: rest =>
      k ← keep e;
      kept ← filter_result keep rest;
      mret (if (k : bool) then e :: kept else kept)
  end.

(** [deleteEntry(id)]. *)
Definition deleteEntry (id : jsstring) : M unit :=
  w ← get;
  elements ← lift (array_elements (entries (vault w)));
  kept ← lift (filter_result (id_differs id) elements);
  _ ← modify (set_vault (set_entries (JArray kept)));
  detach (_ ← saveVaultData; renderEntries).

(** [handleUnlock()]. *)
Definition handleUnlock : M unit :=
  _ ← hideLoginError;
  w ← get;
  let password := master_password (document w) in
  if falsy (Some password) then
    showLoginError (js "Please enter your master password.")
  else
    try_catch
      (loaded ← loadSalt;
       salt ← match loaded with
              | Some salt => mret salt
              | None =>
                  salt ← getRandomBytes 16;
                  _ ← saveSalt salt;
                  mret salt
              end;
       _ ← modify (set_vault (set_salt (Some salt)));
       _ ← modify (set_vault (set_cryptoKey (Some (deriveKey password salt))));
       success ← loadVaultData;
       if negb success then
         _ ← showLoginError (js "Invalid password or corrupted vault.");
         modify (set_vault (set_cryptoKey None))
       else
         _ ← set_master_password [];
         _ ← showVaultSection;
         renderEntries)
      (fun err => showLoginError (js "An error occurred during unlock.")).

(** [handleLogout()]. *)
Definition handleLogout : M unit :=
  _ ← modify (set_vault (set_cryptoKey None));
  _ ← modify (set_vault (set_entries (JArray [])));
  _ ← hideEntryError;
  _ ← hideLoginError;
  _ ← set_master_password [];
  showLoginSection.

(** [handleAddEntry()]. *)
Definition handleAddEntry : M unit :=
  _ ← hideEntryError;
  w ← get;
  let title := trim (entry_title (document w)) in
  let content := trim (entry_content (document w)) in
  if falsy (Some title) || falsy (Some content) then
    showEntryError (js "Both title and content are required.")
  else addEntry title content.

End Vault.

(** *** What can happen to the page

    [init()] binds the buttons and keys to the handlers; the user edits the
    three inputs.  [addEntry] and [deleteEntry] are global functions and can
    also be called with any strings. *)
Inductive Action : Type :=
| InputPassword (value : jsstring)
| InputTitle (value : jsstring)
| InputContent (value : jsstring)
| Unlock                          (* click on #unlock-btn, Enter in #master-password *)
| Logout                          (* click on #logout-btn *)
| SubmitEntry                     (* click on #add-entry-btn, Ctrl+Enter in #entry-content *)
| CallAddEntry (title content : jsstring)
| CallDeleteEntry (id : jsstring). (* the delete button of an article, or a call *)

Section Actions.
Context `{Host}.

Definition perform (a : Action) : M unit :=
  match a with
  | InputPassword value => set_master_password value
  | InputTitle value =>
      modify (set_document (fun d =>
        mkDom (master_password d) value (entry_content d) (login_error d)
          (entry_error d) (entries_list d) (view d)))
  | InputContent value =>
      modify (set_document (fun d =>
        mkDom (master_password d) (entry_title d) value (login_error d)
          (entry_error d) (entries_list d) (view d)))
  | Unlock => handleUnlock
  | Logout => handleLogout
  | SubmitEntry => handleAddEntry
  | CallAddEntry title content => addEntry title content
  | CallDeleteEntry id => deleteEntry id
  end.

Definition step (w : World) (a : Action) : World := run (perform a) w.

Definition run_actions (actions : list Action) (w : World) : World :=
  fold_left step actions w.

(** The salt that is stored, if one is: [loadSalt] takes an empty string for
    no salt. *)
Definition stored_salt (w : World) : option jsstring :=
  match getItem SALT_KEY (localStorage w) with
  | Some (c :: s) => Some (c :: s)
  | _ => None
  end.

(** How many times [setItem] was called with the key of the salt. *)
Definition salt_writes (w : World) : nat :=
  length (List.filter (fun kv => bool_decide (fst kv = SALT_KEY))
            (writes (localStorage w))).

End Actions.

(** ** A host to compute with

    A host in which a digest is the first 32 bytes of the padded message and
    the tag of a ciphertext is the key itself.  It shows that the interface
    [Host] can be met, and serves where a statement is evaluated on a concrete
    page. *)
Global Instance byte_eq_decision : EqDecision byte := Byte.byte_eq_dec.

Definition toy_decrypt (key iv data : list byte) : option (list byte) :=
  let n := (length data - length key)%nat in
  if bool_decide ((length key <= length data)%nat /\ drop n data = key)
  then Some (take n data)
  else None.

Lemma toy_decrypt_encrypt key iv data :
  toy_decrypt key iv (data ++ key) = Some data.
Proof.
  unfold toy_decrypt. rewrite length_app.
  replace (length data + length key - length key)%nat with (length data) by lia.
  rewrite drop_app_length, take_app_length.
  rewrite bool_decide_eq_true_2; [reflexivity|]. split; [lia|reflexivity].
Qed.

Lemma toy_max_arguments : 16 <= 4096.
Proof. lia. Qed.

Definition toy_host : Host := {|
  number_to_json := fun literal => literal;
  number_is_zero := fun literal => bool_decide (literal = [48]);
  CryptoKey := list byte;
  sha256 := fun message => take 32 (message ++ repeat Byte.x00 32);
  aes_import_key := fun bytes => bytes;
  aes_gcm_encrypt := fun key iv data => data ++ key;
  aes_gcm_decrypt := toy_decrypt;
  aes_gcm_decrypt_encrypt := toy_decrypt_encrypt;
  max_arguments := 4096;
  max_arguments_salt := toy_max_arguments
|}.

Section Toy_pages.
Local Existing Instance toy_host.

(** A page of the toy host: locked, nothing stored, every random byte zero. *)
Definition blank_page : World :=
  mkWorld (mkVault (JArray []) None None) (mkStorage ∅ [])
    (mkDom [] [] [] [] [] (Articles []) LoginView) (fun _ => Byte.x00).

(** The same page with the vault open under the key [[x01]] and one entry in it. *)
Definition note : Entry := mkEntry (js "1") (js "Note") (js "secret").

Definition open_page : World :=
  mkWorld (mkVault (entries_value [note]) (Some ([Byte.x01] : CryptoKey)) None)
    (mkStorage ∅ [])
    (mkDom [] [] [] [] [] (Articles []) VaultView) (fun _ => Byte.x00).

(** The locked page with a password typed and an envelope in store that is no
    base64 text. *)
Definition broken_page : World :=
  mkWorld (mkVault (JArray []) None None) (mkStorage {[STORAGE_KEY := js "!"]} [])
    (mkDom (js "x") [] [] [] [] (Articles []) LoginView) (fun _ => Byte.x00).

(** The locked page with a salt in store and the entry [note] sealed under the
    key of the password [a]; the password typed is [a] followed by U+0000. *)
Definition sealed_page : World :=
  mkWorld (mkVault (JArray []) None None)
    (mkStorage
       (<[SALT_KEY := base64_encode [Byte.x01]]>
          {[STORAGE_KEY :=
              base64_encode
                (repeat Byte.x00 12
                 ++ aes_gcm_encrypt (deriveKey [97] [Byte.x01]) (repeat Byte.x00 12)
                      (encodeUTF8 (JSON_stringify (entries_value [note]))))]})
       [])
    (mkDom [97; 0] [] [] [] [] (Articles []) LoginView) (fun _ => Byte.x00).

(** The open page with the text of an empty object sealed in store. *)
Definition object_page : World :=
  mkWorld (mkVault (JArray []) (Some ([Byte.x01] : CryptoKey)) None)
    (mkStorage
       {[STORAGE_KEY :=
           base64_encode
             (repeat Byte.x00 12
              ++ aes_gcm_encrypt [Byte.x01] (repeat Byte.x00 12)
                   [Byte.x7b; Byte.x7d])]}
       [])
    (mkDom [] [] [] [] [] (Articles []) VaultView) (fun _ => Byte.x00).

(** An entry too long for the toy host to seal, and the open page with it
    behind [note]: the page [addEntry] leaves when the save has failed. *)
Definition big : Entry := mkEntry (js "2") (js "big") (List.repeat 120 5000).

Definition big_page : World :=
  mkWorld (mkVault (entries_value [note; big]) (Some ([Byte.x01] : CryptoKey)) None)
    (mkStorage ∅ [])
    (mkDom [] [] [] [] [] (Articles []) VaultView) (fun _ => Byte.x00).

(** The locked page of a first visit, with the password [a] typed. *)
Definition fresh_page : World :=
  mkWorld (mkVault (JArray []) None None) (mkStorage ∅ [])
    (mkDom [97] [] [] [] [] (Articles []) LoginView) (fun _ => Byte.x00).

(** An open session of the password [a]: the salt in store and in the vault,
    the key derived from the two, and one entry. *)
Definition session_page : World :=
  mkWorld
    (mkVault (entries_value [note]) (Some (deriveKey [97] [Byte.x01]))
       (Some [Byte.x01]))
    (mkStorage {[SALT_KEY := base64_encode [Byte.x01]]} [])
    (mkDom [] [] [] [] [] (Articles []) VaultView) (fun _ => Byte.x00).

End Toy_pages.
(** * Properties

    ** UTF-8: decoding an encoded string *)

Lemma to_N_byte_of_N n : n < 256 -> Byte.to_N (byte_of_N n) = n.
Proof.
  intros H. unfold byte_of_N. rewrite N.mod_small by lia.
  destruct (Byte.of_N n) as [b|] eqn:E.
  - apply Byte.to_of_N in E. exact E.
  - apply Byte.of_N_None_iff in E. lia.
Qed.

Lemma byte_of_N_to_N b : byte_of_N (Byte.to_N b) = b.
Proof.
  unfold byte_of_N. pose proof (Byte.to_N_bounded b).
  rewrite N.mod_small by lia. rewrite Byte.of_to_N. reflexivity.
Qed.

Ltac dlia := zify; Z.to_euclidean_division_equations; lia.


Ltac byte_norm :=
  repeat (rewrite to_N_byte_of_N by dlia).

Ltac decide_tests :=
  repeat match goal with
  | |- context [?a <=? ?b] =>
      first [ replace (a <=? b) with true by (symmetry; apply N.leb_le; dlia)
            | replace (a <=? b) with false by (symmetry; apply N.leb_gt; dlia) ]
  | |- context [?a <? ?b] =>
      first [ replace (a <? b) with true by (symmetry; apply N.ltb_lt; dlia)
            | replace (a <? b) with false by (symmetry; apply N.ltb_ge; dlia) ]
  | |- context [?a =? ?b] =>
      first [ replace (a =? b) with true by (symmetry; apply N.eqb_eq; dlia)
            | replace (a =? b) with false by (symmetry; apply N.eqb_neq; dlia) ]
  end.


Ltac split_eqb :=
  repeat match goal with
  | |- context [?a =? ?b] => destruct (N.eqb_spec a b)
  end.

Lemma utf8_lead_1 b : b <= 0x7F -> utf8_lead b = inr b.
Proof. intros. unfold utf8_lead. decide_tests. reflexivity. Qed.

Lemma utf8_lead_2 b :
  0xC2 <= b <= 0xDF -> utf8_lead b = inl (Utf8State (b mod 32) 0 1 0x80 0xBF).
Proof. intros. unfold utf8_lead. decide_tests. reflexivity. Qed.

Lemma utf8_lead_3 b :
  0xE0 <= b <= 0xEF ->
  utf8_lead b = inl (Utf8State (b mod 16) 0 2 (if b =? 0xE0 then 0xA0 else 0x80)
                       (if b =? 0xED then 0x9F else 0xBF)).
Proof.
  intros. unfold utf8_lead.
  replace (b <=? 0x7F) with false by (symmetry; apply N.leb_gt; lia).
  replace (b <=? 0xDF) with false by (symmetry; apply N.leb_gt; lia).
  replace (0xE0 <=? b) with true by (symmetry; apply N.leb_le; lia).
  replace (b <=? 0xEF) with true by (symmetry; apply N.leb_le; lia).
  rewrite andb_false_r. reflexivity.
Qed.

Lemma utf8_lead_4 b :
  0xF0 <= b <= 0xF4 ->
  utf8_lead b = inl (Utf8State (b mod 8) 0 3 (if b =? 0xF0 then 0x90 else 0x80)
                       (if b =? 0xF4 then 0x8F else 0xBF)).
Proof.
  intros. unfold utf8_lead.
  replace (b <=? 0x7F) with false by (symmetry; apply N.leb_gt; lia).
  replace (b <=? 0xDF) with false by (symmetry; apply N.leb_gt; lia).
  replace (b <=? 0xEF) with false by (symmetry; apply N.leb_gt; lia).
  replace (0xF0 <=? b) with true by (symmetry; apply N.leb_le; lia).
  replace (b <=? 0xF4) with true by (symmetry; apply N.leb_le; lia).
  rewrite !andb_false_r. reflexivity.
Qed.

Lemma utf8_decode_init x rest :
  utf8_decode_from utf8_init (x :: rest)
  = match utf8_lead (Byte.to_N x) with
    | inl st' => utf8_decode_from st' rest
    | inr c => c :: utf8_decode_from utf8_init rest
    end.
Proof. reflexivity. Qed.

Lemma utf8_decode_last c s lo hi x rest :
  lo <= Byte.to_N x <= hi ->
  utf8_decode_from (Utf8State c s (s + 1) lo hi) (x :: rest)
  = (c * 64 + Byte.to_N x mod 64) :: utf8_decode_from utf8_init rest.
Proof.
  intros H. cbn [utf8_decode_from u_needed u_lower u_upper u_seen u_cp].
  replace (s + 1 =? 0) with false by (symmetry; apply N.eqb_neq; lia).
  replace (lo <=? Byte.to_N x) with true by (symmetry; apply N.leb_le; lia).
  replace (Byte.to_N x <=? hi) with true by (symmetry; apply N.leb_le; lia).
  rewrite N.eqb_refl. reflexivity.
Qed.

Lemma utf8_decode_more c s n lo hi x rest :
  n <> 0 -> s + 1 <> n -> lo <= Byte.to_N x <= hi ->
  utf8_decode_from (Utf8State c s n lo hi) (x :: rest)
  = utf8_decode_from (Utf8State (c * 64 + Byte.to_N x mod 64) (s + 1) n 0x80 0xBF) rest.
Proof.
  intros Hn Hs H. cbn [utf8_decode_from u_needed u_lower u_upper u_seen u_cp].
  replace (n =? 0) with false by (symmetry; apply N.eqb_neq; lia).
  replace (lo <=? Byte.to_N x) with true by (symmetry; apply N.leb_le; lia).
  replace (Byte.to_N x <=? hi) with true by (symmetry; apply N.leb_le; lia).
  replace (s + 1 =? n) with false by (symmetry; apply N.eqb_neq; lia).
  reflexivity.
Qed.

Lemma utf8_decode_cp cp rest :
  is_scalar cp ->
  utf8_decode_from utf8_init (utf8_encode_cp cp ++ rest)
  = cp :: utf8_decode_from utf8_init rest.
Proof.
  intros [Hlt Hns]. unfold utf8_encode_cp.
  destruct (N.ltb_spec cp 0x80) as [H1|H1];
    [|destruct (N.ltb_spec cp 0x800) as [H2|H2];
      [|destruct (N.ltb_spec cp 0x10000) as [H3|H3]]];
    cbn [app]; rewrite utf8_decode_init; byte_norm.
  - rewrite utf8_lead_1 by lia. reflexivity.
  - rewrite utf8_lead_2 by dlia.
    rewrite (utf8_decode_last _ 0) by (byte_norm; dlia).
    byte_norm. f_equal. dlia.
  - rewrite utf8_lead_3 by dlia.
    rewrite (utf8_decode_more _ 0) by (try lia; byte_norm; split_eqb; dlia).
    rewrite (utf8_decode_last _ 1) by (byte_norm; dlia).
    byte_norm. f_equal. dlia.
  - rewrite utf8_lead_4 by dlia.
    rewrite (utf8_decode_more _ 0) by (try lia; byte_norm; split_eqb; dlia).
    rewrite (utf8_decode_more _ 1) by (try lia; byte_norm; dlia).
    rewrite (utf8_decode_last _ 2) by (byte_norm; dlia).
    byte_norm. f_equal. dlia.
Qed.

Lemma utf8_decode_encode cps :
  Forall is_scalar cps ->
  utf8_decode_from utf8_init (flat_map utf8_encode_cp cps) = cps.
Proof.
  induction 1 as [|cp cps Hcp _ IH]; [reflexivity|].
  cbn [flat_map]. rewrite utf8_decode_cp by assumption. now rewrite IH.
Qed.

Lemma high_surrogate_range c :
  is_high_surrogate c = true -> 0xD800 <= c <= 0xDBFF.
Proof. unfold is_high_surrogate. rewrite andb_true_iff, !N.leb_le. tauto. Qed.

Lemma low_surrogate_range c :
  is_low_surrogate c = true -> 0xDC00 <= c <= 0xDFFF.
Proof. unfold is_low_surrogate. rewrite andb_true_iff, !N.leb_le. tauto. Qed.

Lemma not_surrogate_range c :
  is_high_surrogate c = false -> is_low_surrogate c = false ->
  ~ (0xD800 <= c <= 0xDFFF).
Proof.
  unfold is_high_surrogate, is_low_surrogate.
  rewrite !andb_false_iff, !N.leb_gt. lia.
Qed.

(** Induction on strings two code units at a time, as [code_points] recurses. *)
Lemma jsstring_pair_ind (P : list N -> Prop) :
  P [] -> (forall c, P [c]) ->
  (forall c d s, P s -> P (d :: s) -> P (c :: d :: s)) ->
  forall s, P s.
Proof.
  intros H0 H1 H2 s. assert (P s /\ forall c, P (c :: s)) as [? _]; [|assumption].
  induction s as [|d s [IHa IHb]]; split; auto.
Qed.

Lemma code_points_pair c d s :
  code_points (c :: d :: s)
  = if is_high_surrogate c then
      if is_low_surrogate d
      then (0x10000 + (c - 0xD800) * 0x400 + (d - 0xDC00)) :: code_points s
      else 0xFFFD :: code_points (d :: s)
    else if is_low_surrogate c then 0xFFFD :: code_points (d :: s)
    else c :: code_points (d :: s).
Proof. reflexivity. Qed.

Lemma code_points_scalar s :
  wf_string s -> Forall is_scalar (code_points s).
Proof.
  induction s as [|c|c d s IH1 IH2] using jsstring_pair_ind; intros Hwf.
  - constructor.
  - apply Forall_cons_1 in Hwf as [Hc _]. unfold is_code_unit in Hc.
    cbn [code_points].
    destruct (is_high_surrogate c) eqn:Eh; [repeat constructor; lia|].
    destruct (is_low_surrogate c) eqn:El; [repeat constructor; lia|].
    repeat constructor; [lia|]. now apply not_surrogate_range.
  - apply Forall_cons_1 in Hwf as [Hc Hwf]. pose proof Hwf as Hwf'.
    apply Forall_cons_1 in Hwf' as [Hd Hs].
    unfold is_code_unit in Hc, Hd. rewrite code_points_pair.
    destruct (is_high_surrogate c) eqn:Eh.
    + apply high_surrogate_range in Eh.
      destruct (is_low_surrogate d) eqn:El.
      * apply low_surrogate_range in El. constructor; [|auto]. split; lia.
      * constructor; [split; lia|auto].
    + destruct (is_low_surrogate c) eqn:El.
      * constructor; [split; lia|auto].
      * constructor; [|auto]. split; [lia|]. now apply not_surrogate_range.
Qed.

Lemma utf16_code_points s :
  wf_string s -> isWellFormed s = true -> flat_map utf16_units (code_points s) = s.
Proof.
  induction s as [|c|c d s IH1 IH2] using jsstring_pair_ind; intros Hwf Hok.
  - reflexivity.
  - cbn [isWellFormed] in Hok. cbn [code_points].
    destruct (is_high_surrogate c) eqn:Eh; [discriminate|].
    destruct (is_low_surrogate c) eqn:El; [discriminate|].
    apply Forall_cons_1 in Hwf as [Hc _]. unfold is_code_unit in Hc.
    cbn [flat_map app]. unfold utf16_units.
    replace (c <? 0x10000) with true by (symmetry; apply N.ltb_lt; lia). reflexivity.
  - apply Forall_cons_1 in Hwf as [Hc Hwf]. pose proof Hwf as Hwf'.
    apply Forall_cons_1 in Hwf' as [Hd Hs].
    unfold is_code_unit in Hc, Hd. rewrite code_points_pair.
    change (isWellFormed (c :: d :: s)) with
      (if is_high_surrogate c then is_low_surrogate d && isWellFormed s
       else negb (is_low_surrogate c) && isWellFormed (d :: s)) in Hok.
    destruct (is_high_surrogate c) eqn:Eh.
    + apply andb_true_iff in Hok as [Hld Hok]. rewrite Hld.
      apply high_surrogate_range in Eh. apply low_surrogate_range in Hld.
      cbn [flat_map]. rewrite IH1 by assumption.
      unfold utf16_units.
      replace (_ <? 0x10000) with false by (symmetry; apply N.ltb_ge; lia).
      cbn [app]. f_equal; [|f_equal]; dlia.
    + apply andb_true_iff in Hok as [Hlc Hok]. apply negb_true_iff in Hlc.
      rewrite Hlc. cbn [flat_map]. rewrite IH2 by assumption.
      unfold utf16_units.
      replace (c <? 0x10000) with true by (symmetry; apply N.ltb_lt; lia). reflexivity.
Qed.

Lemma strip_bom_other x l : x <> 0xFEFF -> strip_bom (x :: l) = x :: l.
Proof.
  intros Hx. unfold strip_bom.
  destruct x as [|p]; [reflexivity|].
  do 16 (try (destruct p as [p|p|]; try reflexivity)). congruence.
Qed.

Lemma strip_bom_code_points s :
  no_bom s -> strip_bom (code_points s) = code_points s.
Proof.
  destruct s as [|c s]; [reflexivity|]. cbn [no_bom]. intros Hc.
  cbn [code_points]. destruct (is_high_surrogate c) eqn:Eh.
  - apply high_surrogate_range in Eh. destruct s as [|d s]; [reflexivity|].
    destruct (is_low_surrogate d); apply strip_bom_other; lia.
  - destruct (is_low_surrogate c); apply strip_bom_other; [lia|assumption].
Qed.

Theorem decodeUTF8_encodeUTF8 s :
  wf_string s -> isWellFormed s = true -> no_bom s ->
  decodeUTF8 (encodeUTF8 s) = s.
Proof.
  intros Hwf Hok Hbom. unfold decodeUTF8, encodeUTF8.
  rewrite utf8_decode_encode by (apply code_points_scalar; assumption).
  rewrite strip_bom_code_points by assumption.
  apply utf16_code_points; assumption.
Qed.

(** ** Base64: [atob] undoes [btoa] *)

Lemma b64_index_char i : i < 64 -> b64_index (b64_char i) = Some i.
Proof.
  intros Hi. unfold b64_char.
  destruct (N.ltb_spec i 26); [|destruct (N.ltb_spec i 52);
    [|destruct (N.ltb_spec i 62); [|destruct (N.eqb_spec i 62)]]];
    unfold b64_index; decide_tests; cbn [andb]; f_equal; lia.
Qed.

Lemma b64_char_not_special i :
  i < 64 -> b64_char i <> 61 /\ is_ascii_whitespace (b64_char i) = false.
Proof.
  intros Hi. unfold b64_char, is_ascii_whitespace.
  destruct (N.ltb_spec i 26); [|destruct (N.ltb_spec i 52);
    [|destruct (N.ltb_spec i 62); [|destruct (N.eqb_spec i 62)]]];
    (split; [lia|decide_tests; reflexivity]).
Qed.

(** Induction on byte sequences three at a time, as [sextets] recurses. *)
Lemma list_triple_ind {A} (P : list A -> Prop) :
  P [] -> (forall a, P [a]) -> (forall a b, P [a; b]) ->
  (forall a b c l, P l -> P (a :: b :: c :: l)) ->
  forall l, P l.
Proof.
  intros H0 H1 H2 H3 l.
  assert (P l /\ (forall a, P (a :: l)) /\ (forall a b, P (a :: b :: l))) as [? _];
    [|assumption].
  induction l as [|c l (IHa & IHb & IHc)]; repeat split; auto.
Qed.

Lemma sextets_bounded bs : Forall (fun i => i < 64) (sextets bs).
Proof.
  induction bs as [|a|a b|a b c l IH] using list_triple_ind; cbn [sextets app].
  - constructor.
  - pose proof (Byte.to_N_bounded a). repeat constructor; dlia.
  - pose proof (Byte.to_N_bounded a). pose proof (Byte.to_N_bounded b).
    repeat constructor; dlia.
  - pose proof (Byte.to_N_bounded a). pose proof (Byte.to_N_bounded b).
    pose proof (Byte.to_N_bounded c).
    repeat (constructor; [dlia|]). exact IH.
Qed.

Lemma sextets_length bs : (length (sextets bs) mod 4 <> 1)%nat.
Proof.
  induction bs as [|a|a b|a b c l IH] using list_triple_ind; cbn [sextets app length].
  - discriminate.
  - discriminate.
  - discriminate.
  - change (S (S (S (S (length (sextets l)))))) with (4 + length (sextets l))%nat.
    rewrite Nat.add_comm.
    replace (length (sextets l) + 4)%nat with (length (sextets l) + 1 * 4)%nat by lia.
    rewrite Nat.Div0.mod_add. exact IH.
Qed.

Lemma decode_sextets_sextets bs : decode_sextets (sextets bs) = bs.
Proof.
  induction bs as [|a|a b|a b c l IH] using list_triple_ind; cbn [sextets app decode_sextets].
  - reflexivity.
  - pose proof (Byte.to_N_bounded a). f_equal.
    rewrite <- (byte_of_N_to_N a) at 3. f_equal. dlia.
  - pose proof (Byte.to_N_bounded a). pose proof (Byte.to_N_bounded b).
    f_equal; [|f_equal].
    + rewrite <- (byte_of_N_to_N a) at 3. f_equal. dlia.
    + rewrite <- (byte_of_N_to_N b) at 3. f_equal. dlia.
  - pose proof (Byte.to_N_bounded a). pose proof (Byte.to_N_bounded b).
    pose proof (Byte.to_N_bounded c). rewrite IH.
    f_equal; [|f_equal; [|f_equal]].
    + rewrite <- (byte_of_N_to_N a) at 3. f_equal. dlia.
    + rewrite <- (byte_of_N_to_N b) at 3. f_equal. dlia.
    + rewrite <- (byte_of_N_to_N c) at 3. f_equal. dlia.
Qed.

Lemma filter_whitespace_b64 sx :
  Forall (fun i => i < 64) sx ->
  List.filter (fun c => negb (is_ascii_whitespace c)) (List.map b64_char sx)
  = List.map b64_char sx.
Proof.
  induction 1 as [|i sx Hi _ IH]; [reflexivity|].
  cbn [List.map List.filter].
  destruct (b64_char_not_special i Hi) as [_ ->]. cbn [negb]. now rewrite IH.
Qed.

Lemma strip_padding_none sx :
  Forall (fun i => i < 64) sx ->
  strip_padding (List.map b64_char sx) = List.map b64_char sx.
Proof.
  intros Hsx. unfold strip_padding.
  destruct (rev (List.map b64_char sx)) as [|x r] eqn:E; [reflexivity|].
  assert (In x (List.map b64_char sx)) as Hin
    by (apply in_rev; rewrite E; left; reflexivity).
  apply in_map_iff in Hin as (i & <- & Hin).
  rewrite Forall_forall in Hsx.
  destruct (b64_char_not_special i) as [Hne _].
  { apply Hsx. apply list_elem_of_In. exact Hin. }
  apply N.eqb_neq in Hne. now rewrite Hne.
Qed.

Lemma strip_padding_one sx :
  sx <> [] -> Forall (fun i => i < 64) sx ->
  strip_padding (List.map b64_char sx ++ [61]) = List.map b64_char sx.
Proof.
  intros Hne Hsx. unfold strip_padding. rewrite rev_app_distr. cbn [rev app].
  rewrite N.eqb_refl.
  destruct (rev (List.map b64_char sx)) as [|y r'] eqn:E.
  - apply (f_equal (@rev N)) in E. rewrite rev_involutive in E. cbn in E.
    destruct sx; [congruence|discriminate].
  - assert (In y (List.map b64_char sx)) as Hin
      by (apply in_rev; rewrite E; left; reflexivity).
    apply in_map_iff in Hin as (i & <- & Hin).
    rewrite Forall_forall in Hsx.
    destruct (b64_char_not_special i) as [Hy _].
    { apply Hsx. apply list_elem_of_In. exact Hin. }
    apply N.eqb_neq in Hy. rewrite Hy.
    rewrite <- E. apply rev_involutive.
Qed.

Lemma strip_padding_two sx :
  strip_padding (List.map b64_char sx ++ [61; 61]) = List.map b64_char sx.
Proof.
  unfold strip_padding. rewrite rev_app_distr. cbn [rev app].
  rewrite !N.eqb_refl. apply rev_involutive.
Qed.

Lemma mapM_b64_index sx :
  Forall (fun i => i < 64) sx -> mapM b64_index (List.map b64_char sx) = Some sx.
Proof.
  intros Hsx. apply mapM_fmap_Forall_Some.
  eapply Forall_impl; [exact Hsx|]. intros i Hi. now apply b64_index_char.
Qed.

Theorem base64_decode_encode bs :
  forgiving_base64_decode (base64_encode bs) = Some bs.
Proof.
  pose proof (sextets_bounded bs) as Hsx. pose proof (sextets_length bs) as Hlen.
  unfold forgiving_base64_decode, base64_encode.
  assert (length (List.map b64_char (sextets bs)) = length (sextets bs)) as Hq
    by apply length_map.
  pose proof (strip_padding_none _ Hsx) as Hs0.
  pose proof (strip_padding_two (sextets bs)) as Hs2.
  pose proof (fun H => strip_padding_one (sextets bs) H Hsx) as Hs1.
  pose proof (mapM_b64_index _ Hsx) as Hm.
  assert (forall pad, Forall (fun c => c = 61) pad ->
            List.filter (fun c => negb (is_ascii_whitespace c))
              (List.map b64_char (sextets bs) ++ pad)
            = List.map b64_char (sextets bs) ++ pad) as Hf.
  { intros pad Hpad. rewrite List.filter_app.
    rewrite filter_whitespace_b64 by assumption. f_equal.
    induction Hpad as [|c pad -> _ IH]; [reflexivity|]. cbn. now rewrite IH. }
  revert Hq Hs0 Hs1 Hs2 Hm Hf.
  generalize (List.map b64_char (sextets bs)). intros q Hq Hs0 Hs1 Hs2 Hm Hf.
  assert ((length q mod 4 =? 1)%nat = false) as Hq1
    by (apply Nat.eqb_neq; rewrite Hq; exact Hlen).
  pose proof (Nat.mod_upper_bound (length q) 4 ltac:(discriminate)) as Hb.
  assert (forall k, (length q mod 4 + k = 4)%nat ->
            (length q + k) mod 4 = 0)%nat as Hpadlen.
  { intros k Hk. rewrite (Nat.div_mod_eq (length q) 4).
    replace (4 * (length q / 4) + length q mod 4 + k)%nat
      with (0 + (length q / 4 + 1) * 4)%nat by lia.
    now rewrite Nat.Div0.mod_add. }
  destruct (length q mod 4)%nat as [|[|[|[|n]]]] eqn:Em; try lia.
  - rewrite app_nil_r. pose proof (Hf [] ltac:(constructor)) as Hf0.
    rewrite app_nil_r in Hf0. rewrite Hf0, Em. cbn [Nat.eqb].
    rewrite Hs0, Em. cbn [Nat.eqb]. rewrite Hm. cbn [option_map].
    now rewrite decode_sextets_sextets.
  - discriminate.
  - rewrite Hf by (repeat constructor).
    rewrite length_app. cbn [length]. rewrite Hpadlen by reflexivity.
    cbn [Nat.eqb]. rewrite Hs2, Em. cbn [Nat.eqb]. rewrite Hm. cbn [option_map].
    now rewrite decode_sextets_sextets.
  - rewrite Hf by (repeat constructor).
    rewrite length_app. cbn [length]. rewrite Hpadlen by reflexivity.
    cbn [Nat.eqb].
    rewrite Hs1
      by (intros E0; rewrite E0 in Hq; cbn in Hq; rewrite Hq in Em; discriminate).
    rewrite Em. cbn [Nat.eqb]. rewrite Hm. cbn [option_map].
    now rewrite decode_sextets_sextets.
Qed.

Lemma map_byte_of_N_to_N bs : List.map byte_of_N (List.map Byte.to_N bs) = bs.
Proof.
  induction bs as [|b bs IH]; [reflexivity|].
  cbn [List.map]. now rewrite byte_of_N_to_N, IH.
Qed.

Lemma btoa_fromCharCode bs : btoa (fromCharCode bs) = Ok (base64_encode bs).
Proof.
  unfold btoa, fromCharCode.
  replace (forallb _ _) with true.
  - now rewrite map_byte_of_N_to_N.
  - symmetry. apply forallb_forall. intros c Hc.
    apply in_map_iff in Hc as (b & <- & _).
    pose proof (Byte.to_N_bounded b). apply N.leb_le. lia.
Qed.

(** Decoding the base64 text written by [encrypt] and [saveSalt] gives the
    bytes back. *)
Theorem bytes_of_atob_btoa bs :
  (s ← btoa (fromCharCode bs); t ← atob s; mret (bytes_of_binary_string t)) = Ok bs.
Proof.
  rewrite btoa_fromCharCode. cbn [mbind result_bind]. unfold atob.
  rewrite base64_decode_encode. cbn [mbind result_bind mret result_ret].
  unfold bytes_of_binary_string, fromCharCode. now rewrite map_byte_of_N_to_N.
Qed.

(** ** JSON: parsing the text of a string *)

Lemma hex_value_digit n : n < 16 -> hex_value (hex_digit n) = Some n.
Proof.
  intros Hn. unfold hex_digit, hex_value, is_digit.
  destruct (N.ltb_spec n 10); decide_tests; cbn [andb]; f_equal; lia.
Qed.

Lemma parse_string_plain c rest :
  c <> 34 -> c <> 92 -> 0x20 <= c ->
  parse_string_chars (c :: rest) = cons_fst c (parse_string_chars rest).
Proof.
  intros H1 H2 H3. cbn [parse_string_chars].
  apply N.eqb_neq in H1, H2. rewrite H1, H2.
  replace (c <? 0x20) with false by (symmetry; apply N.ltb_ge; lia). reflexivity.
Qed.

Lemma parse_string_escape c rest :
  c < 65536 ->
  parse_string_chars (unicode_escape c ++ rest)
  = cons_fst c (parse_string_chars rest).
Proof.
  intros Hc. unfold unicode_escape. cbn [app parse_string_chars].
  change (92 =? 34) with false. change (92 =? 92) with true.
  change (117 =? 117) with true. cbv iota.
  rewrite !hex_value_digit by dlia.
  f_equal. dlia.
Qed.

Lemma parse_string_unit c rest :
  c < 65536 ->
  parse_string_chars (quote_unit c ++ rest)
  = cons_fst c (parse_string_chars rest).
Proof.
  intros Hc. unfold quote_unit.
  destruct (N.eqb_spec c 8) as [->|]; [reflexivity|].
  destruct (N.eqb_spec c 9) as [->|]; [reflexivity|].
  destruct (N.eqb_spec c 10) as [->|]; [reflexivity|].
  destruct (N.eqb_spec c 12) as [->|]; [reflexivity|].
  destruct (N.eqb_spec c 13) as [->|]; [reflexivity|].
  destruct (N.eqb_spec c 34) as [->|]; [reflexivity|].
  destruct (N.eqb_spec c 92) as [->|]; [reflexivity|].
  destruct (N.ltb_spec c 0x20).
  - now apply parse_string_escape.
  - now apply parse_string_plain.
Qed.

Lemma quote_chars_pair c d s :
  quote_chars (c :: d :: s)
  = if is_high_surrogate c then
      if is_low_surrogate d then c :: d :: quote_chars s
      else unicode_escape c ++ quote_chars (d :: s)
    else if is_low_surrogate c then unicode_escape c ++ quote_chars (d :: s)
    else quote_unit c ++ quote_chars (d :: s).
Proof. reflexivity. Qed.

Lemma parse_quote_chars s tail :
  wf_string s ->
  parse_string_chars (quote_chars s ++ 34 :: tail) = Some (s, tail).
Proof.
  induction s as [|c|c d s IH1 IH2] using jsstring_pair_ind; intros Hwf.
  - reflexivity.
  - apply Forall_cons_1 in Hwf as [Hc _]. unfold is_code_unit in Hc.
    cbn [quote_chars].
    destruct (is_high_surrogate c);
      [|destruct (is_low_surrogate c)]; rewrite ?app_nil_r;
      [rewrite parse_string_escape by assumption
      |rewrite parse_string_escape by assumption
      |rewrite parse_string_unit by assumption]; reflexivity.
  - apply Forall_cons_1 in Hwf as [Hc Hwf]. pose proof Hwf as Hwf'.
    apply Forall_cons_1 in Hwf' as [Hd Hs].
    unfold is_code_unit in Hc, Hd. rewrite quote_chars_pair.
    destruct (is_high_surrogate c) eqn:Eh.
    + apply high_surrogate_range in Eh.
      destruct (is_low_surrogate d) eqn:El.
      * apply low_surrogate_range in El. cbn [app].
        rewrite !parse_string_plain by lia. rewrite IH1 by assumption. reflexivity.
      * rewrite <- app_assoc, parse_string_escape by assumption.
        rewrite IH2 by assumption. reflexivity.
    + destruct (is_low_surrogate c).
      * rewrite <- app_assoc, parse_string_escape by assumption.
        rewrite IH2 by assumption. reflexivity.
      * rewrite <- app_assoc, parse_string_unit by assumption.
        rewrite IH2 by assumption. reflexivity.
Qed.

(** The text [JSON.stringify] writes never holds a lone surrogate. *)
Lemma isWellFormed_app s t :
  isWellFormed s = true -> isWellFormed t = true -> isWellFormed (s ++ t) = true.
Proof.
  induction s as [|c|c d s IH1 IH2] using jsstring_pair_ind; intros Hs Ht.
  - exact Ht.
  - cbn [isWellFormed] in Hs. destruct (is_high_surrogate c) eqn:Eh; [discriminate|].
    cbn [app isWellFormed]. rewrite Eh.
    apply andb_true_iff in Hs as [-> _]. exact Ht.
  - change (isWellFormed (c :: d :: s)) with
      (if is_high_surrogate c then is_low_surrogate d && isWellFormed s
       else negb (is_low_surrogate c) && isWellFormed (d :: s)) in Hs.
    change (isWellFormed ((c :: d :: s) ++ t)) with
      (if is_high_surrogate c then is_low_surrogate d && isWellFormed (s ++ t)
       else negb (is_low_surrogate c) && isWellFormed ((d :: s) ++ t)).
    destruct (is_high_surrogate c).
    + apply andb_true_iff in Hs as [-> Hs]. now apply IH1.
    + apply andb_true_iff in Hs as [-> Hs]. now apply IH2.
Qed.

(** ** JSON: parsing the text of an array of entries *)

Section JSON_round_trip.
Context `{Host}.
Lemma stringify_entry e :
  JSON_stringify (entry_value e)
  = [123; 34; 105; 100; 34; 58; 34] ++ quote_chars (id e)
    ++ [34; 44; 34; 116; 105; 116; 108; 101; 34; 58; 34] ++ quote_chars (title e)
    ++ [34; 44; 34; 99; 111; 110; 116; 101; 110; 116; 34; 58; 34]
    ++ quote_chars (content e) ++ [34; 125].
Proof.
  destruct e as [i t c]. unfold entry_value.
  cbn [JSON_stringify List.map join_with QuoteJSONString id title content].
  unfold QuoteJSONString. rewrite <- !app_assoc. reflexivity.
Qed.

Lemma parse_entry f e tail :
  wf_entry e -> (5 <= f)%nat ->
  parse_value f (JSON_stringify (entry_value e) ++ tail) = Some (entry_value e, tail).
Proof.
  intros (Hid & Htitle & Hcontent) Hf.
  do 5 (destruct f as [|f]; [lia|]). clear Hf.
  rewrite stringify_entry. rewrite <- !app_assoc. cbn [app].
  cbn. rewrite parse_quote_chars by assumption.
  cbn. rewrite parse_quote_chars by assumption.
  cbn. rewrite parse_quote_chars by assumption.
  destruct e; reflexivity.
Qed.

Lemma stringify_entry_length e : (4 <= length (JSON_stringify (entry_value e)))%nat.
Proof. rewrite stringify_entry. cbn [app length]. lia. Qed.

Lemma JSON_stringify_entry_first e :
  exists t, JSON_stringify (entry_value e) = 123 :: t.
Proof. rewrite stringify_entry. cbn [app]. eauto. Qed.

(** The elements of a non-empty array of entries, up to the closing bracket. *)
Lemma parse_entries_elements es : forall f tail,
  es <> [] -> Forall wf_entry es -> (length es + 5 <= f)%nat ->
  parse_elements f
    (join_with (js ",") (List.map JSON_stringify (List.map entry_value es))
       ++ 93 :: tail)
  = Some (List.map entry_value es, tail).
Proof.
  induction es as [|e es IH]; intros f tail Hne Hwf Hf; [congruence|].
  apply Forall_cons_1 in Hwf as [He Hes].
  destruct f as [|f]; [cbn in Hf; lia|]. cbn [length] in Hf.
  destruct es as [|e' es].
  - cbn [List.map join_with parse_elements].
    rewrite parse_entry by (assumption || lia). reflexivity.
  - change (join_with (js ",")
              (List.map JSON_stringify (List.map entry_value (e :: e' :: es))))
      with (JSON_stringify (entry_value e) ++ js "," ++
            join_with (js ",")
              (List.map JSON_stringify (List.map entry_value (e' :: es)))).
    rewrite <- !app_assoc. cbn [parse_elements].
    rewrite parse_entry by (assumption || (cbn [length] in Hf; lia)).
    change (js "," ++ ?x) with (44 :: x).
    cbn [app skip_ws is_json_whitespace]. cbn -[parse_elements join_with JSON_stringify].
    rewrite IH by (congruence || assumption || (cbn [length] in *; lia)).
    reflexivity.
Qed.

Lemma join_entries_length es :
  (4 * length es
   <= length (join_with (js ",") (List.map JSON_stringify (List.map entry_value es))))%nat.
Proof.
  induction es as [|e es IH]; [cbn; lia|].
  pose proof (stringify_entry_length e) as He.
  destruct es as [|e' es].
  - cbn [List.map join_with length]. lia.
  - change (join_with (js ",")
              (List.map JSON_stringify (List.map entry_value (e :: e' :: es))))
      with (JSON_stringify (entry_value e) ++ js "," ++
            join_with (js ",")
              (List.map JSON_stringify (List.map entry_value (e' :: es)))).
    rewrite !length_app. cbn [length] in *. lia.
Qed.

(** [JSON.parse] returns the array of entries that [JSON.stringify] wrote. *)
Theorem JSON_parse_stringify_entries es :
  Forall wf_entry es ->
  JSON_parse (JSON_stringify (entries_value es)) = Ok (entries_value es).
Proof.
  intros Hwf. destruct es as [|e es]; [reflexivity|].
  unfold entries_value. cbn [JSON_stringify].
  set (body := join_with (js ",")
                 (List.map JSON_stringify (List.map entry_value (e :: es)))).
  assert (exists t, body = 123 :: t) as [t Ht].
  { unfold body. destruct (JSON_stringify_entry_first e) as [t Ht].
    destruct es; cbn [List.map join_with]; rewrite Ht; cbn [app]; eauto. }
  pose proof (join_entries_length (e :: es)) as Hlen. fold body in Hlen.
  unfold JSON_parse. change (js "[" ++ body ++ js "]") with (91 :: body ++ [93]).
  cbn [length parse_value skip_ws].
  change (is_json_whitespace 91) with false. cbv iota.
  change (91 =? 34) with false. change (91 =? 91) with true. cbv iota.
  rewrite Ht at 1. cbn [app skip_ws].
  change (is_json_whitespace 123) with false. cbv iota.
  change (123 =? 93) with false. cbv iota.
  unfold body. rewrite parse_entries_elements;
    [reflexivity|congruence|assumption|].
  fold body. rewrite length_app. cbn [length] in *. lia.
Qed.

End JSON_round_trip.

(** ** JSON: the fuel [JSON_parse] gives is enough

    A value that is parsed with some fuel is parsed with any fuel that is at
    least the number of characters it takes, so [JSON_parse], which gives more
    fuel than the text has characters, rejects no text for lack of fuel. *)

Lemma skip_ws_length s : (length (skip_ws s) <= length s)%nat.
Proof.
  induction s as [|c s IH]; [reflexivity|].
  cbn [skip_ws]. destruct (is_json_whitespace c); cbn [length]; lia.
Qed.

Lemma cons_fst_Some {A B} (a : A) (r : option (list A * B)) l b :
  cons_fst a r = Some (l, b) -> exists l', r = Some (l', b).
Proof. destruct r as [[l' b']|]; [|discriminate]. intros [= _ <-]. eauto. Qed.

Lemma parse_string_chars_length n : forall s str r,
  (length s <= n)%nat ->
  parse_string_chars s = Some (str, r) -> (length r < length s)%nat.
Proof.
  induction n as [|n IH]; intros s str r Hn Hp.
  - destruct s; [discriminate|cbn in Hn; lia].
  - destruct s as [|c rest]; [discriminate|]. cbn [length] in *.
    cbn [parse_string_chars] in Hp.
    destruct (c =? 34); [injection Hp as _ <-; lia|].
    destruct (c =? 92).
    + destruct rest as [|e rest']; [discriminate|]. cbn [length] in *.
      destruct (e =? 117).
      * destruct rest' as [|h1 [|h2 [|h3 [|h4 rest'']]]]; try discriminate.
        cbn [length] in *.
        destruct (hex_value h1), (hex_value h2), (hex_value h3), (hex_value h4);
          try discriminate.
        apply cons_fst_Some in Hp as (l' & Hp).
        apply IH in Hp; lia.
      * destruct (simple_escape e); [|discriminate].
        apply cons_fst_Some in Hp as (l' & Hp). apply IH in Hp; lia.
    + destruct (c <? 32); [discriminate|].
      apply cons_fst_Some in Hp as (l' & Hp). apply IH in Hp; lia.
Qed.

Lemma strip_prefix_length p : forall s r,
  strip_prefix p s = Some r -> length s = (length p + length r)%nat.
Proof.
  induction p as [|a p IH]; intros s r Hs; [now injection Hs as ->|].
  destruct s as [|b s]; [discriminate|]. cbn [strip_prefix] in Hs.
  destruct (a =? b); [|discriminate]. apply IH in Hs. cbn [length]. lia.
Qed.

Lemma span_digits_length s :
  length s = (length (fst (span_digits s)) + length (snd (span_digits s)))%nat.
Proof.
  induction s as [|c s IH]; [reflexivity|]. cbn [span_digits].
  destruct (is_digit c); [|reflexivity].
  destruct (span_digits s) as [ds r]. cbn [fst snd length] in *. lia.
Qed.

Lemma parse_number_length s literal r :
  parse_number s = Some (literal, r) -> (length r < length s)%nat.
Proof.
  unfold parse_number. intros Hp.
  set (signed := match s with 45 :: r0 => ([45], r0) | _ => ([], s) end) in Hp.
  assert (length (snd signed) <= length s)%nat as Hsign.
  { unfold signed. destruct s as [|c s0]; [reflexivity|].
    destruct (N.eq_dec c 45) as [->|Hc]; [cbn; lia|].
    replace (match c :: s0 with 45 :: r0 => ([45], r0) | _ => ([], c :: s0) end)
      with (@nil N, c :: s0); [reflexivity|].
    destruct c as [|p]; [reflexivity|].
    do 6 (destruct p as [p|p|]; try reflexivity). congruence. }
  destruct signed as [sign s1]. cbn [snd] in Hsign.
  pose proof (span_digits_length s1) as H1.
  destruct (span_digits s1) as [int s2]. cbn [fst snd] in H1.
  destruct int as [|d ds]; [discriminate|]. cbn [length] in H1.
  destruct ((d =? 48) && negb (length ds =? 0)%nat); [discriminate|].
  assert (forall fs s3,
            match s2 with
            | 46 :: r0 =>
                let '(fs, r') := span_digits r0 in
                match fs with
                | [] => None
                | _ :: _ => Some (46 :: fs, r')
                end
            | _ => Some ([], s2)
            end = Some (fs, s3) -> (length s3 <= length s2)%nat) as Hfrac.
  { intros fs s3 Hf. destruct s2 as [|c s2']; [now injection Hf as _ <-|].
    destruct (N.eq_dec c 46) as [->|Hc].
    - pose proof (span_digits_length s2') as H2.
      destruct (span_digits s2') as [fs' r']. cbn [fst snd] in H2.
      destruct fs'; [discriminate|]. injection Hf as _ <-. cbn [length]. lia.
    - replace (match c :: s2' with
               | 46 :: r0 =>
                   let '(fs, r') := span_digits r0 in
                   match fs with
                   | [] => None
                   | _ :: _ => Some (46 :: fs, r')
                   end
               | _ => Some ([], c :: s2')
               end) with (Some (@nil N, c :: s2')) in Hf; [now injection Hf as _ <-|].
      destruct c as [|p]; [reflexivity|].
      do 6 (destruct p as [p|p|]; try reflexivity). congruence. }
  match type of Hp with
  | match ?fraction with _ => _ end = _ =>
      destruct fraction as [[fs s3]|] eqn:Ef; [|discriminate]
  end.
  specialize (Hfrac fs s3 eq_refl).
  assert (forall ex s4,
            match s3 with
            | e :: r0 =>
                if (e =? 101) || (e =? 69) then
                  let '(sg, r1) :=
                    match r0 with
                    | x :: r' => if (x =? 43) || (x =? 45) then ([x], r') else ([], r0)
                    | [] => ([], r0)
                    end in
                  let '(es, r2) := span_digits r1 in
                  match es with
                  | [] => None
                  | _ :: _ => Some (e :: sg ++ es, r2)
                  end
                else Some ([], s3)
            | [] => Some ([], s3)
            end = Some (ex, s4) -> (length s4 <= length s3)%nat) as Hexp.
  { intros ex s4 He. destruct s3 as [|e r0]; [now injection He as _ <-|].
    destruct ((e =? 101) || (e =? 69)); [|now injection He as _ <-].
    assert (exists sg r1,
              match r0 with
              | x :: r' => if (x =? 43) || (x =? 45) then ([x], r') else ([], r0)
              | [] => ([], r0)
              end = (sg, r1) /\ (length r1 <= length r0)%nat) as (sg & r1 & Hsg & Hr1).
    { destruct r0 as [|x r']; [eauto|].
      destruct ((x =? 43) || (x =? 45)); eexists _, _; split; try reflexivity;
        cbn [length]; lia. }
    rewrite Hsg in He.
    pose proof (span_digits_length r1) as H3.
    destruct (span_digits r1) as [es r2]. cbn [fst snd] in H3.
    destruct es; [discriminate|]. injection He as _ <-. cbn [length] in *. lia. }
  match type of Hp with
  | match ?expo with _ => _ end = _ =>
      destruct expo as [[ex s4]|] eqn:Ee; [|discriminate]
  end.
  specialize (Hexp ex s4 eq_refl). injection Hp as _ <-. lia.
Qed.

(** The three parsers, one step unfolded. *)
Lemma parse_value_S fuel s :
  parse_value (S fuel) s =
      match skip_ws s with
      | [] => None
      | c :: rest =>
          if c =? 34 then
            match parse_string_chars rest with
            | Some (str, r) => Some (JString str, r)
            | None => None
            end
          else if c =? 91 then
            match skip_ws rest with
            | c' :: r =>
                if c' =? 93 then Some (JArray [], r)
                else
                  match parse_elements fuel rest with
                  | Some (vs, r') => Some (JArray vs, r')
                  | None => None
                  end
            | [] => None
            end
          else if c =? 123 then
            match skip_ws rest with
            | c' :: r =>
                if c' =? 125 then Some (JObject [], r)
                else
                  match parse_members fuel rest with
                  | Some (ms, r') => Some (object_of_members ms, r')
                  | None => None
                  end
            | [] => None
            end
          else
            match strip_prefix (js "true") (c :: rest) with
            | Some r => Some (JBool true, r)
            | None =>
            match strip_prefix (js "false") (c :: rest) with
            | Some r => Some (JBool false, r)
            | None =>
            match strip_prefix (js "null") (c :: rest) with
            | Some r => Some (JNull, r)
            | None =>
            match parse_number (c :: rest) with
            | Some (literal, r) => Some (JNumber literal, r)
            | None => None
            end end end end
      end.
Proof. reflexivity. Qed.

Lemma parse_elements_S fuel s :
  parse_elements (S fuel) s =
      match parse_value fuel s with
      | Some (v, r) =>
          match skip_ws r with
          | c :: r' =>
              if c =? 44 then
                match parse_elements fuel r' with
                | Some (vs, r'') => Some (v :: vs, r'')
                | None => None
                end
              else if c =? 93 then Some ([v], r')
              else None
          | [] => None
          end
      | None => None
      end.
Proof. reflexivity. Qed.

Lemma parse_members_S fuel s :
  parse_members (S fuel) s =
      match skip_ws s with
      | q :: r0 =>
          if q =? 34 then
            match parse_string_chars r0 with
            | Some (k, r1) =>
                match skip_ws r1 with
                | c1 :: r2 =>
                    if c1 =? 58 then
                      match parse_value fuel r2 with
                      | Some (v, r3) =>
                          match skip_ws r3 with
                          | c :: r4 =>
                              if c =? 44 then
                                match parse_members fuel r4 with
                                | Some (ms, r5) => Some ((k, v) :: ms, r5)
                                | None => None
                                end
                              else if c =? 125 then Some ([(k, v)], r4)
                              else None
                          | [] => None
                          end
                      | None => None
                      end
                    else None
                | [] => None
                end
            | None => None
            end
          else None
      | [] => None
      end.
Proof. reflexivity. Qed.

(** [parse] with fuel [f]: what it parses takes at least one character, and
    is parsed with any fuel from the number of characters taken on. *)
Definition fuel_adequate {A} (parse : nat -> jsstring -> option (A * jsstring))
    (f : nat) : Prop :=
  forall s v r,
    parse f s = Some (v, r) ->
    (length r < length s)%nat
    /\ forall f', (length s - length r <= f')%nat -> parse f' s = Some (v, r).

Lemma parse_fuel_adequate f :
  fuel_adequate parse_value f /\ fuel_adequate parse_elements f
  /\ fuel_adequate parse_members f.
Proof.
  induction f as [|f (IHv & IHe & IHm)]; [repeat split; discriminate|].
  split; [|split]; intros s v r Hp.
  - rewrite parse_value_S in Hp. pose proof (skip_ws_length s) as Hws.
    destruct (skip_ws s) as [|c rest] eqn:Es; [discriminate|]. cbn [length] in Hws.
    destruct (c =? 34) eqn:E34.
    { destruct (parse_string_chars rest) as [[str r1]|] eqn:Estr; [|discriminate].
      injection Hp as <- <-.
      pose proof (parse_string_chars_length _ _ _ _ (le_n _) Estr).
      split; [lia|]. intros [|f'] Hf'; [lia|].
      rewrite parse_value_S, Es, E34, Estr. reflexivity. }
    destruct (c =? 91) eqn:E91.
    { pose proof (skip_ws_length rest) as Hws2.
      destruct (skip_ws rest) as [|c' r0] eqn:Er; [discriminate|]. cbn [length] in Hws2.
      destruct (c' =? 93) eqn:E93.
      - injection Hp as <- <-. split; [lia|]. intros [|f'] Hf'; [lia|].
        rewrite parse_value_S, Es, E34, E91, Er, E93. reflexivity.
      - destruct (parse_elements f rest) as [[vs r']|] eqn:Ee; [|discriminate].
        injection Hp as <- <-. destruct (IHe rest vs r' Ee) as [Hlen Hfuel].
        split; [lia|]. intros [|f'] Hf'; [lia|].
        rewrite parse_value_S, Es, E34, E91, Er, E93, (Hfuel f') by lia. reflexivity. }
    destruct (c =? 123) eqn:E123.
    { pose proof (skip_ws_length rest) as Hws2.
      destruct (skip_ws rest) as [|c' r0] eqn:Er; [discriminate|]. cbn [length] in Hws2.
      destruct (c' =? 125) eqn:E125.
      - injection Hp as <- <-. split; [lia|]. intros [|f'] Hf'; [lia|].
        rewrite parse_value_S, Es, E34, E91, E123, Er, E125. reflexivity.
      - destruct (parse_members f rest) as [[ms r']|] eqn:Em; [|discriminate].
        injection Hp as <- <-. destruct (IHm rest ms r' Em) as [Hlen Hfuel].
        split; [lia|]. intros [|f'] Hf'; [lia|].
        rewrite parse_value_S, Es, E34, E91, E123, Er, E125, (Hfuel f') by lia.
        reflexivity. }
    destruct (strip_prefix (js "true") (c :: rest)) as [r1|] eqn:Et.
    { injection Hp as <- <-. apply strip_prefix_length in Et as Hl.
      cbn [length js] in Hl. split; [cbn in Hl; lia|]. intros [|f'] Hf'; [cbn in Hl; lia|].
      rewrite parse_value_S, Es, E34, E91, E123, Et. reflexivity. }
    destruct (strip_prefix (js "false") (c :: rest)) as [r1|] eqn:Ef.
    { injection Hp as <- <-. apply strip_prefix_length in Ef as Hl.
      split; [cbn in Hl; lia|]. intros [|f'] Hf'; [cbn in Hl; lia|].
      rewrite parse_value_S, Es, E34, E91, E123, Et, Ef. reflexivity. }
    destruct (strip_prefix (js "null") (c :: rest)) as [r1|] eqn:En.
    { injection Hp as <- <-. apply strip_prefix_length in En as Hl.
      split; [cbn in Hl; lia|]. intros [|f'] Hf'; [cbn in Hl; lia|].
      rewrite parse_value_S, Es, E34, E91, E123, Et, Ef, En. reflexivity. }
    destruct (parse_number (c :: rest)) as [[literal r1]|] eqn:Enum; [|discriminate].
    injection Hp as <- <-. apply parse_number_length in Enum as Hl. cbn [length] in Hl.
    split; [lia|]. intros [|f'] Hf'; [lia|].
    rewrite parse_value_S, Es, E34, E91, E123, Et, Ef, En, Enum. reflexivity.
  - rewrite parse_elements_S in Hp.
    destruct (parse_value f s) as [[v1 r1]|] eqn:Ev; [|discriminate].
    destruct (IHv s v1 r1 Ev) as [Hlen1 Hfuel1].
    pose proof (skip_ws_length r1) as Hws.
    destruct (skip_ws r1) as [|c r'] eqn:Es; [discriminate|]. cbn [length] in Hws.
    destruct (c =? 44) eqn:E44.
    + destruct (parse_elements f r') as [[vs r'']|] eqn:Ee; [|discriminate].
      injection Hp as <- <-. destruct (IHe r' vs r'' Ee) as [Hlen2 Hfuel2].
      split; [lia|]. intros [|f'] Hf'; [lia|].
      rewrite parse_elements_S, (Hfuel1 f') by lia.
      rewrite Es, E44, (Hfuel2 f') by lia. reflexivity.
    + destruct (c =? 93) eqn:E93; [|discriminate]. injection Hp as <- <-.
      split; [lia|]. intros [|f'] Hf'; [lia|].
      rewrite parse_elements_S, (Hfuel1 f') by lia. rewrite Es, E44, E93. reflexivity.
  - rewrite parse_members_S in Hp. pose proof (skip_ws_length s) as Hws.
    destruct (skip_ws s) as [|q r0] eqn:Es; [discriminate|]. cbn [length] in Hws.
    destruct (q =? 34) eqn:E34; [|discriminate].
    destruct (parse_string_chars r0) as [[k r1]|] eqn:Ek; [|discriminate].
    pose proof (parse_string_chars_length _ _ _ _ (le_n _) Ek) as Hk.
    pose proof (skip_ws_length r1) as Hws1.
    destruct (skip_ws r1) as [|c1 r2] eqn:Es1; [discriminate|]. cbn [length] in Hws1.
    destruct (c1 =? 58) eqn:E58; [|discriminate].
    destruct (parse_value f r2) as [[v1 r3]|] eqn:Ev; [|discriminate].
    destruct (IHv r2 v1 r3 Ev) as [Hlen1 Hfuel1].
    pose proof (skip_ws_length r3) as Hws3.
    destruct (skip_ws r3) as [|c r4] eqn:Es3; [discriminate|]. cbn [length] in Hws3.
    destruct (c =? 44) eqn:E44.
    + destruct (parse_members f r4) as [[ms r5]|] eqn:Em; [|discriminate].
      injection Hp as <- <-. destruct (IHm r4 ms r5 Em) as [Hlen2 Hfuel2].
      split; [lia|]. intros [|f'] Hf'; [lia|].
      rewrite parse_members_S, Es, E34, Ek, Es1, E58, (Hfuel1 f') by lia.
      rewrite Es3, E44, (Hfuel2 f') by lia. reflexivity.
    + destruct (c =? 125) eqn:E125; [|discriminate]. injection Hp as <- <-.
      split; [lia|]. intros [|f'] Hf'; [lia|].
      rewrite parse_members_S, Es, E34, Ek, Es1, E58, (Hfuel1 f') by lia.
      rewrite Es3, E44, E125. reflexivity.
Qed.

(** A text that some fuel parses is parsed by [JSON_parse]. *)
Theorem JSON_parse_fuel f text v r :
  parse_value f text = Some (v, r) ->
  parse_value (S (length text)) text = Some (v, r).
Proof.
  intros Hp. destruct (parse_fuel_adequate f) as (Hv & _ & _).
  destruct (Hv text v r Hp) as [_ Hfuel]. apply Hfuel. lia.
Qed.

(** So [JSON_parse] rejects no text for want of fuel. *)
Corollary JSON_parse_complete f text v r :
  parse_value f text = Some (v, r) -> skip_ws r = [] -> JSON_parse text = Ok v.
Proof.
  intros Hp Hr. unfold JSON_parse. now rewrite (JSON_parse_fuel f text v r Hp), Hr.
Qed.

(** ** The text of an array of entries survives UTF-8 *)

Lemma isWellFormed_plain c s :
  is_high_surrogate c = false -> is_low_surrogate c = false ->
  isWellFormed (c :: s) = isWellFormed s.
Proof. intros Hh Hl. cbn [isWellFormed]. now rewrite Hh, Hl. Qed.

Definition is_ascii (c : N) : Prop := c < 128.

Lemma ascii_not_surrogate c :
  is_ascii c -> is_high_surrogate c = false /\ is_low_surrogate c = false.
Proof.
  unfold is_ascii, is_high_surrogate, is_low_surrogate. intros Hc.
  split; apply andb_false_iff; left; apply N.leb_gt; lia.
Qed.

Lemma isWellFormed_ascii_app s t :
  Forall is_ascii s -> isWellFormed (s ++ t) = isWellFormed t.
Proof.
  induction 1 as [|c s Hc _ IH]; [reflexivity|].
  destruct (ascii_not_surrogate c Hc) as [Hh Hl].
  cbn [app]. now rewrite isWellFormed_plain.
Qed.

Lemma ascii_code_unit c : is_ascii c -> is_code_unit c.
Proof. unfold is_ascii, is_code_unit. lia. Qed.

Lemma hex_digit_ascii n : n < 16 -> is_ascii (hex_digit n).
Proof.
  intros Hn. unfold hex_digit, is_ascii. destruct (N.ltb_spec n 10); lia.
Qed.

Lemma unicode_escape_ascii c : c < 65536 -> Forall is_ascii (unicode_escape c).
Proof.
  intros Hc. unfold unicode_escape.
  repeat (constructor; [first [apply hex_digit_ascii; dlia | unfold is_ascii; lia]|]).
  constructor.
Qed.

Lemma quote_unit_cases c :
  c < 65536 -> Forall is_ascii (quote_unit c) \/ quote_unit c = [c].
Proof.
  intros Hc. unfold quote_unit.
  repeat match goal with
  | |- context [if ?a =? ?b then _ else _] =>
      destruct (N.eqb_spec a b);
        [left; repeat constructor; unfold is_ascii; lia|]
  end.
  destruct (N.ltb_spec c 0x20); [left; now apply unicode_escape_ascii|now right].
Qed.

Lemma quote_chars_ok s :
  wf_string s ->
  wf_string (quote_chars s) /\ forall t, isWellFormed (quote_chars s ++ t) = isWellFormed t.
Proof.
  induction s as [|c|c d s IH1 IH2] using jsstring_pair_ind; intros Hwf.
  - split; [constructor|reflexivity].
  - apply Forall_cons_1 in Hwf as [Hc _]. unfold is_code_unit in Hc.
    pose proof (unicode_escape_ascii c Hc) as Hesc.
    cbn [quote_chars].
    destruct (is_high_surrogate c) eqn:Eh; [|destruct (is_low_surrogate c) eqn:El];
      rewrite ?app_nil_r.
    + split; [eapply Forall_impl; [exact Hesc|apply ascii_code_unit]|].
      intros t. now apply isWellFormed_ascii_app.
    + split; [eapply Forall_impl; [exact Hesc|apply ascii_code_unit]|].
      intros t. now apply isWellFormed_ascii_app.
    + destruct (quote_unit_cases c Hc) as [Ha| ->].
      * split; [eapply Forall_impl; [exact Ha|apply ascii_code_unit]|].
        intros t. now apply isWellFormed_ascii_app.
      * split; [repeat constructor; exact Hc|].
        intros t. cbn [app]. now apply isWellFormed_plain.
  - apply Forall_cons_1 in Hwf as [Hc Hwf]. pose proof Hwf as Hwf'.
    apply Forall_cons_1 in Hwf' as [Hd Hs].
    destruct (IH1 Hs) as [IH1a IH1b]. destruct (IH2 Hwf) as [IH2a IH2b].
    unfold is_code_unit in Hc, Hd.
    pose proof (unicode_escape_ascii c Hc) as Hesc.
    rewrite quote_chars_pair.
    destruct (is_high_surrogate c) eqn:Eh; [destruct (is_low_surrogate d) eqn:El|
      destruct (is_low_surrogate c) eqn:El].
    + split; [repeat (constructor; [assumption|]); exact IH1a|].
      intros t. cbn [app isWellFormed]. rewrite Eh, El. cbn [andb]. apply IH1b.
    + split.
      * apply Forall_app. split; [|exact IH2a].
        eapply Forall_impl; [exact Hesc|apply ascii_code_unit].
      * intros t. rewrite <- app_assoc, isWellFormed_ascii_app by assumption.
        apply IH2b.
    + split.
      * apply Forall_app. split; [|exact IH2a].
        eapply Forall_impl; [exact Hesc|apply ascii_code_unit].
      * intros t. rewrite <- app_assoc, isWellFormed_ascii_app by assumption.
        apply IH2b.
    + destruct (quote_unit_cases c Hc) as [Ha|Hq].
      * split.
        -- apply Forall_app. split; [|exact IH2a].
           eapply Forall_impl; [exact Ha|apply ascii_code_unit].
        -- intros t. rewrite <- app_assoc, isWellFormed_ascii_app by assumption.
           apply IH2b.
      * rewrite Hq. split.
        -- constructor; [exact Hc|exact IH2a].
        -- intros t. cbn [app]. rewrite isWellFormed_plain by assumption. apply IH2b.
Qed.

Ltac ascii_list :=
  repeat (apply Forall_cons; split; [unfold is_ascii; lia|]); now apply Forall_nil.

Section Text_of_entries.
Context `{Host}.

(** What [encodeUTF8] and [decodeUTF8] need of a text to give it back. *)
Definition utf8_safe (text : jsstring) : Prop :=
  wf_string text /\ isWellFormed text = true /\ no_bom text.

Lemma stringify_entry_ok e :
  wf_entry e ->
  wf_string (JSON_stringify (entry_value e)) /\
  forall t, isWellFormed (JSON_stringify (entry_value e) ++ t) = isWellFormed t.
Proof.
  intros (Hid & Htitle & Hcontent). rewrite stringify_entry.
  destruct (quote_chars_ok _ Hid) as [Hi1 Hi2].
  destruct (quote_chars_ok _ Htitle) as [Ht1 Ht2].
  destruct (quote_chars_ok _ Hcontent) as [Hc1 Hc2].
  split.
  - repeat (apply Forall_app; split); try assumption. all: try (repeat (constructor; [unfold is_code_unit; lia|]); constructor). 
  - intros t. rewrite <- !app_assoc.
    rewrite isWellFormed_ascii_app by ascii_list.
    rewrite Hi2.
    rewrite isWellFormed_ascii_app by ascii_list.
    rewrite Ht2.
    rewrite isWellFormed_ascii_app by ascii_list.
    rewrite Hc2.
    apply isWellFormed_ascii_app. ascii_list.
Qed.

Lemma join_entries_ok es :
  Forall wf_entry es ->
  wf_string (join_with (js ",") (List.map JSON_stringify (List.map entry_value es))) /\
  forall t,
    isWellFormed
      (join_with (js ",") (List.map JSON_stringify (List.map entry_value es)) ++ t)
    = isWellFormed t.
Proof.
  induction es as [|e es IH]; intros Hwf; [split; [constructor|reflexivity]|].
  apply Forall_cons_1 in Hwf as [He Hes].
  destruct (stringify_entry_ok e He) as [He1 He2]. destruct (IH Hes) as [IHa IHb].
  destruct es as [|e' es]; [cbn [List.map join_with]; auto|].
  change (join_with (js ",")
            (List.map JSON_stringify (List.map entry_value (e :: e' :: es))))
    with (JSON_stringify (entry_value e) ++ [44] ++
          join_with (js ",")
            (List.map JSON_stringify (List.map entry_value (e' :: es)))).
  split.
  - apply Forall_app; split; [exact He1|].
    apply Forall_app; split; [|exact IHa].
    apply Forall_cons; split; [unfold is_code_unit; lia|now apply Forall_nil].
  - intros t. rewrite <- !app_assoc. rewrite He2. cbn [app].
    rewrite isWellFormed_plain by reflexivity. apply IHb.
Qed.

Theorem stringify_entries_utf8_safe es :
  Forall wf_entry es -> utf8_safe (JSON_stringify (entries_value es)).
Proof.
  intros Hwf. destruct (join_entries_ok es Hwf) as [Ha Hb].
  unfold entries_value. cbn [JSON_stringify].
  change (js "[" ++ ?b ++ js "]") with (91 :: b ++ [93]).
  split; [|split].
  - apply Forall_cons; split; [unfold is_code_unit; lia|].
    apply Forall_app. split; [exact Ha|].
    apply Forall_cons; split; [unfold is_code_unit; lia|now apply Forall_nil].
  - rewrite isWellFormed_plain by reflexivity. rewrite Hb. reflexivity.
  - cbn [no_bom]. lia.
Qed.

(** Encoding the text of an array of entries and decoding it again gives the
    text. *)
Corollary decodeUTF8_stringify_entries es :
  Forall wf_entry es ->
  decodeUTF8 (encodeUTF8 (JSON_stringify (entries_value es)))
  = JSON_stringify (entries_value es).
Proof.
  intros Hwf. destruct (stringify_entries_utf8_safe es Hwf) as (H1 & H2 & H3).
  now apply decodeUTF8_encodeUTF8.
Qed.

End Text_of_entries.

(** ** The script: running its functions on a world *)

Section Frames.
Context `{Host}.

Lemma bind_eq {A B} (m : M A) (k : A -> M B) w :
  (m ≫= k) w
  = match m w with
    | (Ok a, w') => k a w'
    | (Throw e, w') => (Throw e, w')
    end.
Proof. reflexivity. Qed.

(** *** Frames: what a computation leaves as it is *)

(** [m] does not change what [f] reads of the world. *)
Definition keeps {X A} (f : World -> X) (m : M A) : Prop :=
  forall w, f (snd (m w)) = f w.

Section Keeps.
Context {X : Type} (f : World -> X).

Lemma keeps_bind {A B} (m : M A) (k : A -> M B) :
  keeps f m -> (forall a, keeps f (k a)) -> keeps f (m ≫= k).
Proof.
  intros Hm Hk w. rewrite bind_eq. specialize (Hm w).
  destruct (m w) as [[a|e] w']; cbn [snd] in *; [|exact Hm].
  rewrite Hk. exact Hm.
Qed.

Lemma keeps_try {A} (m : M A) (h : exn -> M A) :
  keeps f m -> (forall e, keeps f (h e)) -> keeps f (try_catch m h).
Proof.
  intros Hm Hh w. unfold try_catch. specialize (Hm w).
  destruct (m w) as [[a|e] w']; cbn [snd] in *; [exact Hm|].
  rewrite Hh. exact Hm.
Qed.

Lemma keeps_detach (m : M unit) : keeps f m -> keeps f (detach m).
Proof. intros Hm w. apply Hm. Qed.

Lemma keeps_ret {A} (a : A) : keeps f (mret a).
Proof. intros w. reflexivity. Qed.

Lemma keeps_lift {A} (r : result A) : keeps f (lift r).
Proof. intros w. reflexivity. Qed.

Lemma keeps_throw {A} e : keeps f (@throw _ A e).
Proof. intros w. reflexivity. Qed.

Lemma keeps_get : keeps f get.
Proof. intros w. reflexivity. Qed.

Lemma keeps_modify g : (forall w, f (g w) = f w) -> keeps f (modify g).
Proof. intros Hg w. apply Hg. Qed.

Lemma keeps_forEach callback l :
  (forall e, keeps f (callback e)) -> keeps f (forEach callback l).
Proof.
  intros Hc. induction l as [|e l IH]; cbn [forEach].
  - apply keeps_ret.
  - apply keeps_bind; [apply Hc|intros _; exact IH].
Qed.

End Keeps.

End Frames.

(** Proves [keeps f m] along the structure of [m]; what is left are the calls
    of functions of the script and the updates that touch what [f] reads. *)
Ltac keeps_step :=
  lazymatch goal with
  | |- keeps _ (mbind _ _) => apply keeps_bind; [|intros ?]
  | |- keeps _ (try_catch _ _) => apply keeps_try; [|intros ?]
  | |- keeps _ (detach _) => apply keeps_detach
  | |- keeps _ (mret _) => apply keeps_ret
  | |- keeps _ (lift _) => apply keeps_lift
  | |- keeps _ (throw _) => apply keeps_throw
  | |- keeps _ get => apply keeps_get
  | |- keeps _ (modify _) => apply keeps_modify; intros ?; reflexivity
  | |- keeps _ (forEach _ _) => apply keeps_forEach; intros ?
  | |- keeps _ (if ?b then _ else _) => destruct b
  | |- keeps _ (match ?x with _ => _ end) => destruct x
  end.

Ltac keeps := repeat keeps_step.

Section Handlers.
Context `{Host}.

(** The stored salt and the number of times it was written. *)
Definition salt_view (w : World) : option jsstring * nat :=
  (getItem SALT_KEY (localStorage w), salt_writes w).

(** Everything but the document. *)
Definition data_view (w : World) : Vault * Storage * (nat -> byte) :=
  (vault w, localStorage w, entropy w).

Lemma keeps_data_renderEntries : keeps data_view renderEntries.
Proof. unfold renderEntries, set_entries_list, append_article. keeps. Qed.

Lemma keeps_data_clearEntryForm : keeps data_view clearEntryForm.
Proof. unfold clearEntryForm, hideEntryError, showEntryError. keeps. Qed.

Lemma keeps_salt_random n : keeps salt_view (getRandomBytes n).
Proof. intros w. reflexivity. Qed.

Lemma keeps_salt_saveVault data : keeps salt_view (saveVault data).
Proof.
  intros w. unfold saveVault, modify, salt_view, salt_writes, getItem. cbn.
  rewrite lookup_insert_ne by discriminate.
  rewrite List.filter_app. cbn. rewrite app_nil_r. reflexivity.
Qed.

Lemma keeps_salt_saveVaultData : keeps salt_view saveVaultData.
Proof.
  unfold saveVaultData, encrypt. keeps;
    first [apply keeps_salt_random|apply keeps_salt_saveVault].
Qed.

Lemma keeps_salt_loadVaultData : keeps salt_view loadVaultData.
Proof. unfold loadVaultData, loadVault. keeps. Qed.

Lemma keeps_salt_renderEntries : keeps salt_view renderEntries.
Proof. unfold renderEntries, set_entries_list, append_article. keeps. Qed.

Lemma keeps_salt_addEntry title content : keeps salt_view (addEntry title content).
Proof.
  unfold addEntry, showEntryError, randomUUID, entries_push, clearEntryForm,
    hideEntryError, showEntryError.
  keeps; first [apply keeps_salt_random|apply keeps_salt_saveVaultData
               |apply keeps_salt_renderEntries].
Qed.

Lemma keeps_salt_deleteEntry id : keeps salt_view (deleteEntry id).
Proof.
  unfold deleteEntry.
  keeps; first [apply keeps_salt_saveVaultData|apply keeps_salt_renderEntries].
Qed.

Lemma keeps_salt_handleLogout : keeps salt_view handleLogout.
Proof. intros w. reflexivity. Qed.

Lemma keeps_salt_handleAddEntry : keeps salt_view handleAddEntry.
Proof.
  unfold handleAddEntry, hideEntryError, showEntryError.
  keeps. apply keeps_salt_addEntry.
Qed.

(** *** The functions, one by one *)

(** [w] after [n] random bytes were drawn. *)
Definition drawn (n : nat) (w : World) : World :=
  mkWorld (vault w) (localStorage w) (document w) (fun i => entropy w (n + i)%nat).

(** The next [n] random bytes of [w]. *)
Definition next_random (n : nat) (w : World) : list byte :=
  List.map (entropy w) (seq 0 n).

Lemma next_random_length n w : length (next_random n w) = n.
Proof. unfold next_random. now rewrite length_map, length_seq. Qed.

Lemma getRandomBytes_run n w :
  getRandomBytes n w = (Ok (next_random n w), drawn n w).
Proof. reflexivity. Qed.

(** The 16 bytes of a salt can always be spread. *)
Lemma spreads_short bytes : (length bytes <= 16)%nat -> spreads bytes = true.
Proof.
  intros Hlen. unfold spreads. apply N.leb_le.
  pose proof max_arguments_salt. lia.
Qed.

Lemma spreads_random_16 w : spreads (next_random 16 w) = true.
Proof. apply spreads_short. now rewrite next_random_length. Qed.

Lemma saveSalt_run salt w :
  spreads salt = true ->
  saveSalt salt w
  = (Ok tt, set_localStorage (setItem SALT_KEY (base64_encode salt)) w).
Proof.
  intros Hfits. unfold saveSalt, fromCharCode_spread. rewrite Hfits, bind_eq.
  cbn [lift]. rewrite bind_eq. unfold lift. now rewrite btoa_fromCharCode.
Qed.

Lemma saveSalt_too_long salt w :
  spreads salt = false -> saveSalt salt w = (Throw RangeError, w).
Proof. intros Hfits. unfold saveSalt, fromCharCode_spread. now rewrite Hfits. Qed.

Lemma loadSalt_run w :
  loadSalt w
  = match getItem SALT_KEY (localStorage w) with
    | Some (c :: b64) =>
        match atob (c :: b64) with
        | Ok binary => (Ok (Some (bytes_of_binary_string binary)), w)
        | Throw e => (Throw e, w)
        end
    | _ => (Ok None, w)
    end.
Proof.
  unfold loadSalt. rewrite bind_eq. cbn [get].
  destruct (getItem SALT_KEY (localStorage w)) as [[|c b64]|]; reflexivity.
Qed.

(** The envelope [encrypt] returns: nonce, ciphertext and tag in base64. *)
Definition envelope (key : CryptoKey) (iv : list byte) (data : jsstring) : jsstring :=
  base64_encode (iv ++ aes_gcm_encrypt key iv (encodeUTF8 data)).

(** Whether the bytes of the envelope, nonce and AES-GCM output, can be spread
    into the arguments of [String.fromCharCode]. *)
Definition sealable (key : CryptoKey) (iv : list byte) (data : jsstring) : bool :=
  spreads (iv ++ aes_gcm_encrypt key iv (encodeUTF8 data)).

Lemma encrypt_run key data w :
  sealable key (next_random IV_LENGTH w) data = true ->
  encrypt (Some key) data w
  = (Ok (envelope key (next_random IV_LENGTH w) data), drawn IV_LENGTH w).
Proof.
  intros Hfits. unfold encrypt. rewrite bind_eq, getRandomBytes_run. rewrite bind_eq.
  cbn [lift subtle_encrypt]. rewrite bind_eq. unfold fromCharCode_spread.
  unfold sealable in Hfits. rewrite Hfits. unfold lift. now rewrite btoa_fromCharCode.
Qed.

(** Beyond the limit of the engine nothing is sealed; the nonce is drawn all
    the same. *)
Lemma encrypt_too_long key data w :
  sealable key (next_random IV_LENGTH w) data = false ->
  encrypt (Some key) data w = (Throw RangeError, drawn IV_LENGTH w).
Proof.
  intros Hfits. unfold encrypt. rewrite bind_eq, getRandomBytes_run. rewrite bind_eq.
  cbn [lift subtle_encrypt]. rewrite bind_eq. unfold fromCharCode_spread.
  unfold sealable in Hfits. now rewrite Hfits.
Qed.

Lemma encrypt_no_key data w :
  encrypt None data w = (Throw TypeError, drawn IV_LENGTH w).
Proof. reflexivity. Qed.

(** [decrypt] opens what [encrypt] sealed under the same key. *)
Lemma decrypt_envelope key iv data :
  length iv = IV_LENGTH ->
  decrypt (Some key) (envelope key iv data) = Ok (decodeUTF8 (encodeUTF8 data)).
Proof.
  intros Hiv. unfold decrypt, envelope, atob.
  rewrite base64_decode_encode. cbn [mbind result_bind].
  unfold bytes_of_binary_string, fromCharCode. rewrite map_byte_of_N_to_N.
  rewrite take_app_length' by (symmetry; exact Hiv).
  rewrite drop_app_length' by (symmetry; exact Hiv).
  cbn [subtle_decrypt]. rewrite aes_gcm_decrypt_encrypt. reflexivity.
Qed.

Lemma envelope_not_empty key iv data :
  length iv = IV_LENGTH -> exists c s, envelope key iv data = c :: s.
Proof.
  intros Hiv. unfold envelope, base64_encode.
  destruct iv as [|x iv]; [discriminate|].
  destruct iv as [|y iv]; [discriminate|]. destruct iv as [|z iv]; [discriminate|].
  cbn [app sextets List.map]. eauto.
Qed.

Lemma saveVaultData_run key w :
  cryptoKey (vault w) = Some key ->
  sealable key (next_random IV_LENGTH w) (JSON_stringify (entries (vault w))) = true ->
  saveVaultData w
  = (Ok tt,
     set_localStorage
       (setItem STORAGE_KEY
          (envelope key (next_random IV_LENGTH w) (JSON_stringify (entries (vault w)))))
       (drawn IV_LENGTH w)).
Proof.
  intros Hk Hfits. unfold saveVaultData. rewrite bind_eq. cbn [get]. rewrite Hk.
  rewrite bind_eq, encrypt_run by exact Hfits. reflexivity.
Qed.

Lemma saveVaultData_too_long key w :
  cryptoKey (vault w) = Some key ->
  sealable key (next_random IV_LENGTH w) (JSON_stringify (entries (vault w))) = false ->
  saveVaultData w = (Throw RangeError, drawn IV_LENGTH w).
Proof.
  intros Hk Hfits. unfold saveVaultData. rewrite bind_eq. cbn [get]. rewrite Hk.
  rewrite bind_eq, encrypt_too_long by exact Hfits. reflexivity.
Qed.

Lemma saveVaultData_no_key w :
  cryptoKey (vault w) = None ->
  saveVaultData w = (Throw TypeError, drawn IV_LENGTH w).
Proof.
  intros Hk. unfold saveVaultData. rewrite bind_eq. cbn [get]. rewrite Hk.
  rewrite bind_eq, encrypt_no_key. reflexivity.
Qed.

(** Opening and decoding, the two steps of [loadVaultData] that can throw. *)
Definition open_and_parse (key : option CryptoKey) (data : jsstring) : result json :=
  decrypted ← decrypt key data; JSON_parse decrypted.

(** [loadVaultData] in one step: no envelope gives the empty vault, an envelope
    is opened and parsed, and any exception of the two gives [false]. *)
Lemma loadVaultData_run w :
  loadVaultData w
  = match getItem STORAGE_KEY (localStorage w) with
    | Some (c :: data) =>
        match open_and_parse (cryptoKey (vault w)) (c :: data) with
        | Ok parsed => (Ok true, set_vault (set_entries parsed) w)
        | Throw _ => (Ok false, w)
        end
    | _ => (Ok true, set_vault (set_entries (JArray [])) w)
    end.
Proof.
  unfold loadVaultData, loadVault. rewrite !bind_eq. cbn [get mret M_ret].
  destruct (getItem STORAGE_KEY (localStorage w)) as [[|c data]|]; try reflexivity.
  cbn [falsy]. change (default [] (Some (c :: data))) with (c :: data).
  unfold try_catch, open_and_parse.
  rewrite bind_eq. cbn [get]. rewrite bind_eq. unfold lift at 1.
  destruct (decrypt (cryptoKey (vault w)) (c :: data)) as [text|e]; [|reflexivity].
  cbn [mbind result_bind]. rewrite bind_eq. unfold lift at 1.
  destruct (JSON_parse text); reflexivity.
Qed.

(** [handleLogout]. *)
Lemma handleLogout_run w :
  run handleLogout w
  = mkWorld (mkVault (JArray []) None (salt (vault w))) (localStorage w)
      (mkDom [] (entry_title (document w)) (entry_content (document w)) [] []
         (entries_list (document w)) LoginView)
      (entropy w).
Proof. reflexivity. Qed.

Definition enter_password : jsstring := js "Please enter your master password.".
Definition unlock_error : jsstring := js "An error occurred during unlock.".
Definition unlock_failed : jsstring := js "Invalid password or corrupted vault.".

(** [handleUnlock] with no password: only the message changes. *)
Lemma handleUnlock_empty w :
  master_password (document w) = [] ->
  run handleUnlock w = run (showLoginError enter_password) w.
Proof.
  destruct w as [v s [pw t c le ee el vw] r]. cbn [document master_password].
  intros ->. reflexivity.
Qed.

(** The salt of an unlock: the stored one, or 16 random bytes that are stored. *)
Definition obtain_salt (w : World) : result (list byte) * World :=
  match getItem SALT_KEY (localStorage w) with
  | Some (c :: b64) =>
      match atob (c :: b64) with
      | Ok binary => (Ok (bytes_of_binary_string binary), w)
      | Throw e => (Throw e, w)
      end
  | _ =>
      let salt := next_random 16 w in
      (Ok salt, set_localStorage (setItem SALT_KEY (base64_encode salt)) (drawn 16 w))
  end.

(** The vault with the salt and the key derived from the password. *)
Definition with_key (password : jsstring) (salt : list byte) (w : World) : World :=
  set_vault (fun x => mkVault (entries x) (Some (deriveKey password salt)) (Some salt)) w.

(** What [handleUnlock] does once it has the salt. *)
Definition finish_unlock (password : jsstring) (salt0 : list byte) (w2 : World) : World :=
  match loadVaultData (with_key password salt0 w2) with
  | (Ok true, w3) =>
      match renderEntries (run (_ ← set_master_password []; showVaultSection) w3) with
      | (Ok _, w4) => w4
      | (Throw _, w4) => run (showLoginError unlock_error) w4
      end
  | (Ok false, w3) =>
      set_vault (set_cryptoKey None) (run (showLoginError unlock_failed) w3)
  | (Throw _, w3) => run (showLoginError unlock_error) w3
  end.

(** [handleUnlock] with a password, step by step. *)
Lemma handleUnlock_run w p pw :
  master_password (document w) = p :: pw ->
  run handleUnlock w
  = match obtain_salt (run hideLoginError w) with
    | (Throw _, w2) => run (showLoginError unlock_error) w2
    | (Ok salt0, w2) => finish_unlock (p :: pw) salt0 w2
    end.
Proof.
  intros Hpw. unfold handleUnlock, run at 1. rewrite bind_eq.
  change (hideLoginError w) with (Ok tt, run hideLoginError w).
  cbv iota. rewrite bind_eq. cbn [get].
  change (master_password (document (run hideLoginError w)))
    with (master_password (document w)).
  rewrite Hpw. cbn [falsy]. unfold try_catch.
  generalize (run hideLoginError w). intros w1.
  rewrite bind_eq, loadSalt_run. unfold obtain_salt.
  assert (forall salt w2,
    (let (r, w') :=
       (modify (set_vault (set_salt (Some salt)))
        ≫= λ _ : (),
          modify (set_vault (set_cryptoKey (Some (deriveKey (p :: pw) salt))))
          ≫= λ _ : (),
            loadVaultData
            ≫= λ success : bool,
              if negb success
              then showLoginError (js "Invalid password or corrupted vault.")
                   ≫= λ _ : (), modify (set_vault (set_cryptoKey None))
              else set_master_password []
                   ≫= λ _ : (), showVaultSection ≫= λ _ : (), renderEntries) w2 in
     match r with
     | Ok a => (Ok a, w')
     | Throw _ => showLoginError (js "An error occurred during unlock.") w'
     end).2
    = finish_unlock (p :: pw) salt w2) as Htail.
  { intros salt w2. unfold finish_unlock. rewrite bind_eq. cbn [modify]. rewrite bind_eq. cbn [modify].
    rewrite bind_eq.
    change (set_vault (set_cryptoKey (Some (deriveKey (p :: pw) salt)))
              (set_vault (set_salt (Some salt)) w2))
      with (with_key (p :: pw) salt w2).
    destruct (loadVaultData (with_key (p :: pw) salt w2)) as [[[|]|e] w3];
      [|reflexivity|reflexivity].
    cbn [negb].
    change ((set_master_password [] ≫= λ _ : (), showVaultSection ≫= λ _ : (), renderEntries) w3)
      with (renderEntries (run (_ ← set_master_password []; showVaultSection) w3)).
    destruct (renderEntries (run (_ ← set_master_password []; showVaultSection) w3))
      as [[[]|e] w4]; reflexivity. }
  destruct (getItem SALT_KEY (localStorage w1)) as [[|c b64]|].
  - rewrite bind_eq, bind_eq, getRandomBytes_run, bind_eq, saveSalt_run
      by apply spreads_random_16.
    cbn [mret M_ret]. apply Htail.
  - destruct (atob (c :: b64)) as [binary|e]; [|reflexivity].
    rewrite bind_eq. cbn [mret M_ret]. apply Htail.
  - rewrite bind_eq, bind_eq, getRandomBytes_run, bind_eq, saveSalt_run
      by apply spreads_random_16.
    cbn [mret M_ret]. apply Htail.
Qed.

End Handlers.

(** ** [trim] removes the white space around a string, and nothing else *)

Lemma trim_start_spec s :
  exists pre, s = pre ++ trim_start s
              /\ Forall (fun c => is_js_whitespace c = true) pre
              /\ (forall c, head (trim_start s) = Some c -> is_js_whitespace c = false).
Proof.
  induction s as [|c s (pre & Hs & Hpre & Hhead)].
  - exists []. repeat split; [constructor|discriminate].
  - cbn [trim_start]. destruct (is_js_whitespace c) eqn:Ec.
    + exists (c :: pre). repeat split.
      * cbn [app]. now rewrite <- Hs.
      * constructor; assumption.
      * exact Hhead.
    + exists []. repeat split; [constructor|]. intros c' [= <-]. exact Ec.
Qed.

Lemma last_rev {A} (l : list A) : last (rev l) = head l.
Proof. rewrite rev_alt. apply last_reverse. Qed.

Lemma trim_end_spec s :
  exists post, s = trim_end s ++ post
               /\ Forall (fun c => is_js_whitespace c = true) post
               /\ (forall c, last (trim_end s) = Some c -> is_js_whitespace c = false).
Proof.
  destruct (trim_start_spec (rev s)) as (pre & Hs & Hpre & Hhead).
  exists (rev pre). unfold trim_end. repeat split.
  - rewrite <- rev_app_distr, <- Hs. now rewrite rev_involutive.
  - apply Forall_rev. exact Hpre.
  - intros c Hc. apply Hhead. now rewrite <- last_rev.
Qed.

(** The result of [trim]: the string without a prefix and a suffix of white
    space, and with no white space at either end. *)
Theorem trim_spec s :
  exists pre post,
    s = pre ++ trim s ++ post
    /\ Forall (fun c => is_js_whitespace c = true) pre
    /\ Forall (fun c => is_js_whitespace c = true) post
    /\ (forall c, head (trim s) = Some c -> is_js_whitespace c = false)
    /\ (forall c, last (trim s) = Some c -> is_js_whitespace c = false).
Proof.
  destruct (trim_start_spec s) as (pre & Hs & Hpre & Hhead).
  destruct (trim_end_spec (trim_start s)) as (post & Ht & Hpost & Hlast).
  exists pre, post. unfold trim. repeat split; try assumption.
  - rewrite <- Ht. exact Hs.
  - intros c Hc. apply Hhead. rewrite Ht.
    destruct (trim_end (trim_start s)); [discriminate|exact Hc].
Qed.

(** ** The identifiers are ASCII *)

Lemma hex_byte_ascii b : Forall is_ascii (hex_byte b).
Proof.
  pose proof (Byte.to_N_bounded b). unfold hex_byte.
  repeat (apply Forall_cons; split; [apply hex_digit_ascii; dlia|]).
  now apply Forall_nil.
Qed.

Lemma hex_bytes_ascii l : Forall is_ascii (flat_map hex_byte l).
Proof.
  induction l as [|b l IH]; [now apply Forall_nil|].
  cbn [flat_map]. apply Forall_app. split; [apply hex_byte_ascii|exact IH].
Qed.

Lemma uuid_v4_wf random : wf_string (uuid_v4 random).
Proof.
  cbv beta zeta delta [uuid_v4 wf_string]. change (js "-") with [45].
  eapply Forall_impl; [|apply ascii_code_unit].
  repeat (apply Forall_app; split);
    first [apply hex_bytes_ascii
          |apply Forall_cons; split; [unfold is_ascii; lia|now apply Forall_nil]].
Qed.

(** [trim] keeps a string a string. *)
Lemma trim_start_wf s : wf_string s -> wf_string (trim_start s).
Proof.
  induction s as [|c s IH]; intros Hwf; [exact Hwf|].
  cbn [trim_start]. destruct (is_js_whitespace c); [|exact Hwf].
  apply IH. now apply Forall_cons_1 in Hwf as [_ ?].
Qed.

Lemma trim_wf s : wf_string s -> wf_string (trim s).
Proof.
  intros Hwf. unfold trim, trim_end, wf_string.
  apply Forall_rev. apply trim_start_wf. apply Forall_rev.
  now apply trim_start_wf.
Qed.

(** ** Adding and deleting entries *)

Section Entries.
Context `{Host}.

(** The world once the envelope of its entries is stored ([saveVaultData] with
    a key). *)
Definition saved (key : CryptoKey) (w : World) : World :=
  set_localStorage
    (setItem STORAGE_KEY
       (envelope key (next_random IV_LENGTH w) (JSON_stringify (entries (vault w)))))
    (drawn IV_LENGTH w).

(** The entry [addEntry] makes in [w]. *)
Definition new_entry (title content : jsstring) (w : World) : Entry :=
  mkEntry (uuid_v4 (next_random 16 w)) (trim title) (trim content).

(** [addEntry] where both arguments are non-empty strings, the entries are an
    array and the key is set: the entry is pushed and the array is saved; the
    list is drawn again and the form is cleared. *)
Lemma addEntry_run w key elements t ts c cs :
  cryptoKey (vault w) = Some key ->
  entries (vault w) = JArray elements ->
  sealable key (next_random IV_LENGTH (drawn 16 w))
    (JSON_stringify
       (JArray (elements ++ [entry_value (new_entry (t :: ts) (c :: cs) w)]))) = true ->
  data_view (run (addEntry (t :: ts) (c :: cs)) w)
  = data_view
      (saved key
         (set_vault
            (set_entries
               (JArray (elements ++ [entry_value (new_entry (t :: ts) (c :: cs) w)])))
            (drawn 16 w))).
Proof.
  intros Hkey Hentries Hfits. unfold addEntry, run. cbn [falsy orb].
  rewrite bind_eq. unfold randomUUID. rewrite bind_eq, getRandomBytes_run.
  cbn [mret M_ret]. rewrite bind_eq. unfold entries_push.
  rewrite bind_eq. cbn [get]. rewrite bind_eq.
  change (entries (vault (drawn 16 w))) with (entries (vault w)).
  rewrite Hentries. cbn [array_elements lift modify].
  unfold detach. cbn [snd].
  rewrite bind_eq.
  erewrite saveVaultData_run by first [cbn; exact Hkey|exact Hfits].
  rewrite bind_eq.
  match goal with |- data_view (snd (let (r, w') := renderEntries ?x in _)) = _ =>
    pose proof (keeps_data_renderEntries x) as Hr;
    destruct (renderEntries x) as [[[]|e] w3]
  end; cbn [snd] in *.
  - rewrite keeps_data_clearEntryForm. exact Hr.
  - exact Hr.
Qed.

(** The same when the envelope is too long for the engine: the entry is
    pushed, and [saveVaultData] throws before it stores anything; the page is
    not drawn again and the form is not cleared. *)
Lemma addEntry_too_long w key elements t ts c cs :
  cryptoKey (vault w) = Some key ->
  entries (vault w) = JArray elements ->
  sealable key (next_random IV_LENGTH (drawn 16 w))
    (JSON_stringify
       (JArray (elements ++ [entry_value (new_entry (t :: ts) (c :: cs) w)]))) = false ->
  run (addEntry (t :: ts) (c :: cs)) w
  = drawn IV_LENGTH
      (set_vault
         (set_entries
            (JArray (elements ++ [entry_value (new_entry (t :: ts) (c :: cs) w)])))
         (drawn 16 w)).
Proof.
  intros Hkey Hentries Hfits. unfold addEntry, run. cbn [falsy orb].
  rewrite bind_eq. unfold randomUUID. rewrite bind_eq, getRandomBytes_run.
  cbn [mret M_ret]. rewrite bind_eq. unfold entries_push.
  rewrite bind_eq. cbn [get]. rewrite bind_eq.
  change (entries (vault (drawn 16 w))) with (entries (vault w)).
  rewrite Hentries. cbn [array_elements lift modify].
  unfold detach. cbn [snd].
  rewrite bind_eq.
  erewrite saveVaultData_too_long by first [cbn; exact Hkey|exact Hfits].
  reflexivity.
Qed.

(** The entries that [deleteEntry(id)] keeps. *)
Definition without (id0 : jsstring) (es : list Entry) : list Entry :=
  List.filter (fun e => negb (bool_decide (id e = id0))) es.

Lemma filter_entries id0 es :
  filter_result (id_differs id0) (List.map entry_value es)
  = Ok (List.map entry_value (without id0 es)).
Proof.
  induction es as [|e es IH]; [reflexivity|].
  cbn [List.map filter_result]. rewrite IH.
  unfold id_differs at 1, entry_value at 1.
  change (get_field _ (js "id")) with (Ok (Some (JString (id e)))).
  cbn [mbind result_bind mret result_ret without List.filter].
  destruct (bool_decide (id e = id0)); reflexivity.
Qed.

(** [deleteEntry] on an array of entries with the key set: the array is
    filtered and saved; the list is drawn again. *)
Lemma deleteEntry_run w key es id0 :
  cryptoKey (vault w) = Some key ->
  entries (vault w) = entries_value es ->
  sealable key (next_random IV_LENGTH w)
    (JSON_stringify (entries_value (without id0 es))) = true ->
  data_view (run (deleteEntry id0) w)
  = data_view (saved key (set_vault (set_entries (entries_value (without id0 es))) w)).
Proof.
  intros Hkey Hentries Hfits. unfold deleteEntry, run.
  rewrite bind_eq. cbn [get]. rewrite bind_eq, Hentries.
  cbn [entries_value array_elements lift]. rewrite bind_eq, filter_entries.
  cbn [lift]. rewrite bind_eq. cbn [modify]. unfold detach. cbn [snd].
  rewrite bind_eq.
  erewrite saveVaultData_run by first [cbn; exact Hkey|exact Hfits].
  apply keeps_data_renderEntries.
Qed.

(** The same when the envelope is too long for the engine: the entries are
    filtered, nothing is stored, and the page is not drawn again. *)
Lemma deleteEntry_too_long w key es id0 :
  cryptoKey (vault w) = Some key ->
  entries (vault w) = entries_value es ->
  sealable key (next_random IV_LENGTH w)
    (JSON_stringify (entries_value (without id0 es))) = false ->
  run (deleteEntry id0) w
  = drawn IV_LENGTH (set_vault (set_entries (entries_value (without id0 es))) w).
Proof.
  intros Hkey Hentries Hfits. unfold deleteEntry, run.
  rewrite bind_eq. cbn [get]. rewrite bind_eq, Hentries.
  cbn [entries_value array_elements lift]. rewrite bind_eq, filter_entries.
  cbn [lift]. rewrite bind_eq. cbn [modify]. unfold detach. cbn [snd].
  rewrite bind_eq.
  erewrite saveVaultData_too_long by first [cbn; exact Hkey|exact Hfits].
  reflexivity.
Qed.

(** [deleteEntry] on an array of entries does not throw. *)
Lemma deleteEntry_returns w es id0 :
  entries (vault w) = entries_value es -> fst (deleteEntry id0 w) = Ok tt.
Proof.
  intros Hentries. unfold deleteEntry.
  rewrite bind_eq. cbn [get]. rewrite bind_eq, Hentries.
  cbn [entries_value array_elements lift]. rewrite bind_eq, filter_entries.
  cbn [lift]. rewrite bind_eq. cbn [modify]. reflexivity.
Qed.


Lemma data_view_eq w w' :
  data_view w' = data_view w ->
  vault w' = vault w /\ localStorage w' = localStorage w /\ entropy w' = entropy w.
Proof. unfold data_view. intros [= -> -> ->]. repeat split. Qed.

(** Opening and decoding the sealed text of an array of entries gives the
    array. *)
Lemma open_sealed_entries key iv es :
  length iv = IV_LENGTH -> Forall wf_entry es ->
  open_and_parse (Some key) (envelope key iv (JSON_stringify (entries_value es)))
  = Ok (entries_value es).
Proof.
  intros Hiv Hwf. unfold open_and_parse. rewrite decrypt_envelope by exact Hiv.
  cbn [mbind result_bind]. rewrite decodeUTF8_stringify_entries by exact Hwf.
  now apply JSON_parse_stringify_entries.
Qed.

Lemma entry_value_inj e e' : entry_value e = entry_value e' -> e = e'.
Proof. destruct e, e'. unfold entry_value. cbn. now intros [= -> -> ->]. Qed.

(** The array determines the entries: their order and all their fields. *)
Lemma entries_value_inj es es' : entries_value es = entries_value es' -> es = es'.
Proof.
  unfold entries_value. intros [= Heq]. revert es' Heq.
  induction es as [|e es IH]; intros [|e' es'] Heq; try discriminate; [reflexivity|].
  cbn [List.map] in Heq.
  pose proof (f_equal (hd JNull) Heq) as He. pose proof (f_equal (@tl json) Heq) as Hes.
  cbn [hd tl] in He, Hes.
  f_equal; [now apply entry_value_inj|now apply IH].
Qed.

Lemma entries_value_snoc es e :
  JArray (List.map entry_value es ++ [entry_value e]) = entries_value (es ++ [e]).
Proof. unfold entries_value. now rewrite map_app. Qed.

Lemma without_wf id0 es : Forall wf_entry es -> Forall wf_entry (without id0 es).
Proof.
  induction 1 as [|e es He _ IH]; [constructor|].
  cbn [without List.filter]. destruct (negb _); [constructor; assumption|exact IH].
Qed.

Lemma without_spec id0 es :
  Forall (fun e => id e <> id0) (without id0 es)
  /\ (Forall (fun e => id e <> id0) es -> without id0 es = es)
  /\ (forall e, In e es -> id e <> id0 -> In e (without id0 es)).
Proof.
  unfold without. split; [|split].
  - apply List.Forall_forall. intros e He. apply List.filter_In in He as [_ He].
    apply negb_true_iff, bool_decide_eq_false in He. exact He.
  - induction 1 as [|e es He _ IH]; [reflexivity|]. cbn [List.filter].
    rewrite bool_decide_eq_false_2 by exact He. cbn [negb]. now rewrite IH.
  - intros e He Hne. apply List.filter_In. split; [exact He|].
    now rewrite bool_decide_eq_false_2.
Qed.

End Entries.

(** ** Unlocking and the salt *)

Section Unlocking.
Context `{Host}.

Lemma base64_encode_not_empty b bs : exists c s, base64_encode (b :: bs) = c :: s.
Proof.
  unfold base64_encode. destruct bs as [|b2 [|b3 bs]]; cbn [sextets app List.map]; eauto.
Qed.

Lemma salt_view_stored w w' :
  salt_view w' = salt_view w ->
  stored_salt w' = stored_salt w /\ salt_writes w' = salt_writes w.
Proof. unfold salt_view, stored_salt. intros [= -> ->]. split; reflexivity. Qed.

Lemma salt_view_saved_salt value w :
  salt_view (set_localStorage (setItem SALT_KEY value) w)
  = (Some value, S (salt_writes w)).
Proof.
  unfold salt_view, salt_writes, getItem. cbn [set_localStorage localStorage setItem
    items writes]. f_equal; [apply lookup_insert_eq|].
  rewrite List.filter_app, length_app.
  change (List.filter _ [(SALT_KEY, value)]) with [(SALT_KEY, value)].
  cbn [length]. lia.
Qed.

(** What follows the salt in [handleUnlock] leaves the stored salt alone. *)
Lemma unlock_rest_keeps_salt password salt0 w2 :
  salt_view (finish_unlock password salt0 w2) = salt_view w2.
Proof.
  unfold finish_unlock.
  pose proof (keeps_salt_loadVaultData (with_key password salt0 w2)) as Hl.
  destruct (loadVaultData (with_key password salt0 w2)) as [[[|]|e] w3];
    cbn [snd] in Hl; try exact Hl.
  pose proof (keeps_salt_renderEntries
                (run (_ ← set_master_password []; showVaultSection) w3)) as Hr.
  destruct (renderEntries (run (_ ← set_master_password []; showVaultSection) w3))
    as [[[]|e] w4]; cbn [snd] in Hr; etransitivity; first [exact Hr|exact Hl].
Qed.

(** [handleUnlock] writes the salt when a password is given and no salt is
    stored, and only then; what it writes is the base64 text of 16 random
    bytes. *)
Lemma handleUnlock_salt_view w :
  salt_view (run handleUnlock w)
  = match master_password (document w), stored_salt w with
    | _ :: _, None =>
        (Some (base64_encode (next_random 16 w)), S (salt_writes w))
    | _, _ => salt_view w
    end.
Proof.
  destruct (master_password (document w)) as [|p pw] eqn:Hpw.
  - now rewrite handleUnlock_empty.
  - rewrite (handleUnlock_run w p pw Hpw). unfold obtain_salt, stored_salt.
    change (localStorage (run hideLoginError w)) with (localStorage w).
    destruct (getItem SALT_KEY (localStorage w)) as [[|c b64]|] eqn:Hs.
    + rewrite unlock_rest_keeps_salt, salt_view_saved_salt. reflexivity.
    + destruct (atob (c :: b64)) as [binary|e].
      * rewrite unlock_rest_keeps_salt. reflexivity.
      * reflexivity.
    + rewrite unlock_rest_keeps_salt, salt_view_saved_salt. reflexivity.
Qed.

(** One action and the stored salt. *)
Lemma step_salt_view w a :
  salt_view (step w a)
  = match a, master_password (document w), stored_salt w with
    | Unlock, _ :: _, None =>
        (Some (base64_encode (next_random 16 w)), S (salt_writes w))
    | _, _, _ => salt_view w
    end.
Proof.
  destruct a; unfold step; cbn [perform];
    try (destruct (master_password (document w)); reflexivity).
  - apply handleUnlock_salt_view.
  - unfold run. rewrite keeps_salt_handleAddEntry.
    now destruct (master_password (document w)).
  - unfold run. rewrite keeps_salt_addEntry.
    now destruct (master_password (document w)).
  - unfold run. rewrite keeps_salt_deleteEntry.
    now destruct (master_password (document w)).
Qed.

Lemma step_salt_cases w a :
  salt_view (step w a) = salt_view w
  \/ (stored_salt w = None
      /\ salt_view (step w a)
         = (Some (base64_encode (next_random 16 w)), S (salt_writes w))).
Proof.
  rewrite step_salt_view.
  destruct a; auto. destruct (master_password (document w)); auto.
  destruct (stored_salt w); auto.
Qed.

Lemma run_actions_stored_salt actions : forall w s,
  stored_salt w = Some s ->
  stored_salt (run_actions actions w) = Some s
  /\ salt_writes (run_actions actions w) = salt_writes w.
Proof.
  induction actions as [|a actions IH]; intros w s Hs; [split; [exact Hs|reflexivity]|].
  cbn [run_actions fold_left]. fold (run_actions actions (step w a)).
  destruct (step_salt_cases w a) as [Hsame|[Hnone _]]; [|congruence].
  apply salt_view_stored in Hsame as [Hst Hwr].
  rewrite <- Hwr. apply IH. now rewrite Hst.
Qed.


(** A salt that was just written is in store. *)
Lemma written_salt_stored w1 w :
  salt_view w1 = (Some (base64_encode (next_random 16 w)), S (salt_writes w)) ->
  stored_salt w1 = Some (base64_encode (next_random 16 w))
  /\ salt_writes w1 = S (salt_writes w).
Proof.
  unfold salt_view. intros [= Hitem Hwr]. split; [|exact Hwr].
  unfold stored_salt. rewrite Hitem.
  destruct (base64_encode_not_empty (entropy w 0%nat)
              (List.map (entropy w) (seq 1 15))) as (c & s & Hb).
  change (base64_encode (next_random 16 w)) with
    (base64_encode (entropy w 0%nat :: List.map (entropy w) (seq 1 15))).
  now rewrite Hb.
Qed.

Lemma run_actions_no_salt actions : forall w,
  stored_salt w = None ->
  (stored_salt (run_actions actions w) = None
   /\ salt_writes (run_actions actions w) = salt_writes w)
  \/ (exists random,
        length random = 16%nat
        /\ stored_salt (run_actions actions w) = Some (base64_encode random)
        /\ salt_writes (run_actions actions w) = S (salt_writes w)).
Proof.
  induction actions as [|a actions IH]; intros w Hnone; [now left|].
  cbn [run_actions fold_left]. fold (run_actions actions (step w a)).
  destruct (step_salt_cases w a) as [Hsame|[_ Hwritten]].
  - apply salt_view_stored in Hsame as [Hst Hwr].
    rewrite <- Hwr. apply IH. now rewrite Hst.
  - right. exists (next_random 16 w).
    destruct (written_salt_stored _ _ Hwritten) as [Hst Hwr].
    destruct (run_actions_stored_salt actions _ _ Hst) as [Hst' Hwr'].
    split; [apply next_random_length|]. split; [exact Hst'|now rewrite Hwr'].
Qed.

(** The two steps that can throw did: the key is dropped and the message of
    the failed unlock shown. *)
Lemma finish_unlock_failure password salt0 w2 c data e :
  getItem STORAGE_KEY (localStorage w2) = Some (c :: data) ->
  open_and_parse (Some (deriveKey password salt0)) (c :: data) = Throw e ->
  finish_unlock password salt0 w2
  = set_vault (set_cryptoKey None)
      (run (showLoginError unlock_failed) (with_key password salt0 w2)).
Proof.
  intros Hitem Hthrow. unfold finish_unlock. rewrite loadVaultData_run.
  change (localStorage (with_key password salt0 w2)) with (localStorage w2).
  rewrite Hitem.
  change (cryptoKey (vault (with_key password salt0 w2)))
    with (Some (deriveKey password salt0)).
  now rewrite Hthrow.
Qed.

End Unlocking.

(** ** Passwords that derive the same key *)

Section Same_key.
Context `{Host}.

Lemma N_iter_ext {A} (f g : A -> A) (n : N) (a : A) :
  (forall x, f x = g x) -> N.iter n f a = N.iter n g a.
Proof.
  intros Hfg. induction n as [|n IH] using N.peano_ind; [reflexivity|].
  rewrite !N.iter_succ, IH. apply Hfg.
Qed.

(** HMAC reads its key through the 64-byte block only. *)
Lemma hmac_sha256_key_block k1 k2 message :
  hmac_key_block k1 = hmac_key_block k2 ->
  hmac_sha256 k1 message = hmac_sha256 k2 message.
Proof. intros Hk. unfold hmac_sha256. now rewrite Hk. Qed.

Lemma pbkdf2_key_block p1 p2 salt0 iterations dkLen :
  hmac_key_block p1 = hmac_key_block p2 ->
  pbkdf2_hmac_sha256 p1 salt0 iterations dkLen
  = pbkdf2_hmac_sha256 p2 salt0 iterations dkLen.
Proof.
  intros Hk. unfold pbkdf2_hmac_sha256. f_equal.
  apply flat_map_ext. intros i. unfold pbkdf2_block.
  rewrite (hmac_sha256_key_block p1 p2) by exact Hk. f_equal.
  apply N_iter_ext. intros [u t].
  now rewrite (hmac_sha256_key_block p1 p2) by exact Hk.
Qed.

(** A password of fewer than 64 bytes and the same password followed by
    U+0000 fill the block alike. *)
Lemma hmac_key_block_zero key :
  (length key < 64)%nat -> hmac_key_block (key ++ [Byte.x00]) = hmac_key_block key.
Proof.
  intros Hlen. unfold hmac_key_block. rewrite length_app. cbn [length].
  replace (64 <? length key + 1)%nat with false by (symmetry; apply Nat.ltb_ge; lia).
  replace (64 <? length key)%nat with false by (symmetry; apply Nat.ltb_ge; lia).
  rewrite length_app. cbn [length]. rewrite <- app_assoc. f_equal.
  replace (64 - length key)%nat with (S (64 - (length key + 1)))%nat by lia.
  reflexivity.
Qed.

Lemma deriveKey_a_zero salt0 : deriveKey [97; 0] salt0 = deriveKey [97] salt0.
Proof.
  unfold deriveKey.
  rewrite (pbkdf2_key_block (encodeUTF8 [97; 0]) (encodeUTF8 [97])); [reflexivity|].
  change (encodeUTF8 [97; 0]) with (encodeUTF8 [97] ++ [Byte.x00]).
  apply hmac_key_block_zero. cbn. lia.
Qed.

End Same_key.

(** ** Drawing a list of entries *)

Section Rendering.
Context `{Host}.

Lemma get_field_entry e :
  get_field (entry_value e) (js "id") = Ok (Some (JString (id e)))
  /\ get_field (entry_value e) (js "title") = Ok (Some (JString (title e)))
  /\ get_field (entry_value e) (js "content") = Ok (Some (JString (content e))).
Proof. repeat split. Qed.

Lemma forEach_entries es : forall w,
  exists w',
    forEach (fun e =>
      id ← lift (get_field e (js "id"));
      title ← lift (get_field e (js "title"));
      content ← lift (get_field e (js "content"));
      append_article (mkArticle id title content)) (List.map entry_value es) w
    = (Ok tt, w').
Proof.
  induction es as [|e es IH]; intros w; [exists w; reflexivity|].
  cbn [List.map forEach]. rewrite bind_eq.
  destruct (get_field_entry e) as (Hi & Ht & Hc).
  rewrite bind_eq, Hi. cbn [lift]. rewrite bind_eq, Ht. cbn [lift].
  rewrite bind_eq, Hc. cbn [lift append_article modify].
  apply IH.
Qed.

(** [renderEntries] does not throw on an array of entries, and changes the
    document only. *)
Lemma renderEntries_entries w es :
  entries (vault w) = entries_value es ->
  exists w', renderEntries w = (Ok tt, w') /\ data_view w' = data_view w
             /\ view (document w') = view (document w).
Proof.
  intros Hentries.
  assert (keeps (fun x => view (document x)) renderEntries) as Hview.
  { unfold renderEntries, set_entries_list, append_article. keeps. }
  pose proof (keeps_data_renderEntries w) as Hdata. specialize (Hview w).
  enough (exists w', renderEntries w = (Ok tt, w')) as (w' & Hw').
  { exists w'. rewrite Hw' in Hdata, Hview. cbn [snd] in *. auto. }
  unfold renderEntries. rewrite bind_eq. cbn [set_entries_list modify].
  rewrite bind_eq. cbn [get]. rewrite bind_eq.
  cbn [set_document vault]. rewrite Hentries.
  destruct es as [|e es]; [eexists; reflexivity|].
  cbn [entries_value List.map length_is_zero length Nat.eqb lift].
  rewrite bind_eq. cbn [array_elements lift].
  match goal with |- context [forEach _ _ ?x] =>
    destruct (forEach_entries (e :: es) x) as (w' & Hw')
  end.
  exists w'. exact Hw'.
Qed.


(** The envelope opens to an array of entries: the vault is shown with them. *)
Lemma finish_unlock_success password salt0 w2 c data es :
  getItem STORAGE_KEY (localStorage w2) = Some (c :: data) ->
  open_and_parse (Some (deriveKey password salt0)) (c :: data) = Ok (entries_value es) ->
  let w' := finish_unlock password salt0 w2 in
  vault w' = mkVault (entries_value es) (Some (deriveKey password salt0)) (Some salt0)
  /\ localStorage w' = localStorage w2
  /\ view (document w') = VaultView.
Proof.
  intros Hitem Hopen. cbv zeta. unfold finish_unlock. rewrite loadVaultData_run.
  change (localStorage (with_key password salt0 w2)) with (localStorage w2).
  rewrite Hitem.
  change (cryptoKey (vault (with_key password salt0 w2)))
    with (Some (deriveKey password salt0)).
  rewrite Hopen.
  match goal with |- context [renderEntries ?x] =>
    destruct (renderEntries_entries x es eq_refl) as (w4 & -> & Hdata & Hview)
  end.
  apply data_view_eq in Hdata as (Hv & Hs & _).
  rewrite Hv, Hs, Hview. repeat split.
Qed.

End Rendering.

(** ** The claims of the specification *)

Section Claims.
Context `{Host}.

(** C9. Logging out discards the derived key and the entries in memory, and
    writes nothing: [localStorage], with the envelope and the salt in it and
    with its history of writes, is what it was. *)
Theorem logout_discards_session_and_writes_nothing (w : World) :
  let w' := run handleLogout w in
  cryptoKey (vault w') = None
  /\ entries (vault w') = JArray []
  /\ localStorage w' = localStorage w
  /\ getItem STORAGE_KEY (localStorage w') = getItem STORAGE_KEY (localStorage w)
  /\ getItem SALT_KEY (localStorage w') = getItem SALT_KEY (localStorage w).
Proof. rewrite handleLogout_run. repeat split. Qed.

(** C7. With an empty password [handleUnlock] only shows the message that asks
    for one: the vault (entries, key, salt), [localStorage] and the random
    source are untouched, so no salt is made or stored and no key derived, and
    the page stays where it was. *)
Theorem unlock_rejects_empty_password (w : World) :
  master_password (document w) = [] ->
  let w' := run handleUnlock w in
  login_error (document w') = js "Please enter your master password."
  /\ vault w' = vault w
  /\ localStorage w' = localStorage w
  /\ entropy w' = entropy w
  /\ view (document w') = view (document w).
Proof. intros Hpw. cbv zeta. rewrite handleUnlock_empty by exact Hpw. repeat split. Qed.

(** C8, where the script departs from it.  [deleteEntry(id)] with the vault
    open does not throw: the entries whose id is [id] are removed and the
    others stay, in their order; no entry of that id leaves the sequence as it
    was.  The whole sequence is then encoded and sealed under the key of the
    session with a fresh nonce.  When the bytes of the envelope can be spread
    into the arguments of [String.fromCharCode] it is stored, in place of what
    was there, and opens to the sequence that was kept.  When they are too
    many, [encrypt] throws a [RangeError] and nothing is stored: the entries
    in memory are changed and [localStorage] is not. *)
Theorem deleteEntry_removes_and_persists (w : World) key (es : list Entry) (id0 : jsstring) :
  cryptoKey (vault w) = Some key ->
  entries (vault w) = entries_value es ->
  Forall wf_entry es ->
  let w' := run (deleteEntry id0) w in
  let kept := List.filter (fun e => negb (bool_decide (id e = id0))) es in
  let iv := next_random IV_LENGTH w in
  let text := JSON_stringify (entries_value kept) in
  let sealed := envelope key iv text in
  fst (deleteEntry id0 w) = Ok tt
  /\ entries (vault w') = entries_value kept
  /\ Forall (fun e => id e <> id0) kept
  /\ (forall e, In e es -> id e <> id0 -> In e kept)
  /\ (Forall (fun e => id e <> id0) es -> kept = es)
  /\ cryptoKey (vault w') = Some key
  /\ (sealable key iv text = true ->
      localStorage w' = setItem STORAGE_KEY sealed (localStorage w)
      /\ getItem STORAGE_KEY (localStorage w') = Some sealed
      /\ open_and_parse (Some key) sealed = Ok (entries_value kept))
  /\ (sealable key iv text = false -> localStorage w' = localStorage w).
Proof.
  intros Hkey Hentries Hwf. cbv zeta. fold (without id0 es).
  destruct (without_spec id0 es) as (Hgone & Hsame & Hstay).
  split; [exact (deleteEntry_returns w es id0 Hentries)|].
  destruct (sealable key (next_random IV_LENGTH w)
              (JSON_stringify (entries_value (without id0 es)))) eqn:Hfits.
  - destruct (data_view_eq _ _ (deleteEntry_run w key es id0 Hkey Hentries Hfits))
      as (Hv & Hs & _).
    rewrite Hv, Hs. cbn [saved set_vault set_localStorage set_entries vault entries
      cryptoKey localStorage].
    repeat split; try assumption; try discriminate.
    + unfold getItem, setItem. cbn [items]. apply lookup_insert_eq.
    + apply open_sealed_entries; [apply next_random_length|now apply without_wf].
  - rewrite (deleteEntry_too_long w key es id0 Hkey Hentries Hfits).
    cbn [drawn set_vault set_entries vault entries cryptoKey localStorage].
    repeat split; try assumption; discriminate.
Qed.

(** C10. An entry that [addEntry] appends carries the trimmed title and the
    trimmed content: neither begins or ends with white space.  That is so in
    memory, and in the envelope when the save goes through: the envelope
    stored then opens to the sequence with the new entry at its end.  When the
    envelope is too long for the engine nothing is stored, so no entry is
    ever persisted with white space around its title or content. *)
Theorem addEntry_stores_trimmed_fields (w : World) key (es : list Entry)
    (rawTitle rawContent : jsstring) :
  cryptoKey (vault w) = Some key ->
  entries (vault w) = entries_value es ->
  rawTitle <> [] -> rawContent <> [] ->
  let w' := run (addEntry rawTitle rawContent) w in
  let e := mkEntry (uuid_v4 (next_random 16 w)) (trim rawTitle) (trim rawContent) in
  let iv := next_random IV_LENGTH (drawn 16 w) in
  let text := JSON_stringify (entries_value (es ++ [e])) in
  let sealed := envelope key iv text in
  entries (vault w') = entries_value (es ++ [e])
  /\ (forall c, head (title e) = Some c -> is_js_whitespace c = false)
  /\ (forall c, last (title e) = Some c -> is_js_whitespace c = false)
  /\ (forall c, head (content e) = Some c -> is_js_whitespace c = false)
  /\ (forall c, last (content e) = Some c -> is_js_whitespace c = false)
  /\ (sealable key iv text = true ->
      getItem STORAGE_KEY (localStorage w') = Some sealed
      /\ (Forall wf_entry es -> wf_string rawTitle -> wf_string rawContent ->
          open_and_parse (Some key) sealed = Ok (entries_value (es ++ [e]))))
  /\ (sealable key iv text = false -> localStorage w' = localStorage w).
Proof.
  intros Hkey Hentries Ht Hc. cbv zeta.
  destruct rawTitle as [|t ts]; [congruence|].
  destruct rawContent as [|c cs]; [congruence|].
  fold (new_entry (t :: ts) (c :: cs) w).
  destruct (trim_spec (t :: ts)) as (? & ? & _ & _ & _ & Hth & Htl).
  destruct (trim_spec (c :: cs)) as (? & ? & _ & _ & _ & Hch & Hcl).
  rewrite <- entries_value_snoc.
  destruct (sealable key (next_random IV_LENGTH (drawn 16 w))
              (JSON_stringify
                 (JArray (List.map entry_value es
                          ++ [entry_value (new_entry (t :: ts) (c :: cs) w)]))))
    eqn:Hfits.
  - destruct (data_view_eq _ _
                (addEntry_run w key (List.map entry_value es) t ts c cs Hkey Hentries
                   Hfits))
      as (Hv & Hs & _).
    rewrite Hv, Hs.
    cbn [saved set_vault set_localStorage set_entries vault entries cryptoKey
         localStorage].
    repeat split; try assumption; try discriminate.
    + unfold getItem, setItem. cbn [items]. apply lookup_insert_eq.
    + intros Hwf Hwt Hwc. rewrite entries_value_snoc.
      apply open_sealed_entries; [apply next_random_length|].
      apply Forall_app. split; [exact Hwf|].
      apply Forall_cons; split; [|now apply Forall_nil].
      unfold new_entry. repeat split; cbn [id title content];
        [apply uuid_v4_wf|now apply trim_wf|now apply trim_wf].
  - rewrite (addEntry_too_long w key (List.map entry_value es) t ts c cs Hkey Hentries
               Hfits).
    cbn [drawn set_vault set_entries vault entries localStorage].
    repeat split; try assumption; discriminate.
Qed.

(** C3, where the script departs from it.  [addEntry] tests its arguments
    before it trims them: a title of three spaces is not empty, so the entry is
    appended, with the empty title that trimming leaves, and the new sequence
    is sealed and stored (unless the vault has grown beyond what the engine
    can spread into one call, when nothing is stored, see C1). *)
Theorem addEntry_accepts_blank_title (w : World) key (es : list Entry) :
  cryptoKey (vault w) = Some key ->
  entries (vault w) = entries_value es ->
  let w' := run (addEntry (js "   ") (js "x")) w in
  let e := mkEntry (uuid_v4 (next_random 16 w)) [] (js "x") in
  let iv := next_random IV_LENGTH (drawn 16 w) in
  let text := JSON_stringify (entries_value (es ++ [e])) in
  entries (vault w') = entries_value (es ++ [e])
  /\ (sealable key iv text = true ->
      writes (localStorage w')
      = writes (localStorage w) ++ [(STORAGE_KEY, envelope key iv text)])
  /\ (sealable key iv text = false -> localStorage w' = localStorage w).
Proof.
  intros Hkey Hentries. cbv zeta.
  change (js "   ") with [32; 32; 32]. change (js "x") with [120].
  change (mkEntry (uuid_v4 (next_random 16 w)) [] [120])
    with (new_entry [32; 32; 32] [120] w).
  rewrite <- entries_value_snoc.
  destruct (sealable key (next_random IV_LENGTH (drawn 16 w))
              (JSON_stringify
                 (JArray (List.map entry_value es
                          ++ [entry_value (new_entry [32; 32; 32] [120] w)]))))
    eqn:Hfits.
  - destruct (data_view_eq _ _
                (addEntry_run w key (List.map entry_value es) 32 [32; 32] 120 []
                   Hkey Hentries Hfits))
      as (Hv & Hs & _).
    rewrite Hv, Hs.
    cbn [saved set_vault set_localStorage set_entries vault entries cryptoKey
         localStorage setItem writes].
    split; [reflexivity|]. split; [reflexivity|discriminate].
  - rewrite (addEntry_too_long w key (List.map entry_value es) 32 [32; 32] 120 []
               Hkey Hentries Hfits).
    cbn [drawn set_vault set_entries vault entries localStorage].
    split; [reflexivity|]. split; [discriminate|reflexivity].
Qed.

(** X1. The handler of the form trims before it tests, so from the form a blank
    title or content changes nothing but the message. *)
Theorem handleAddEntry_rejects_blank (w : World) :
  trim (entry_title (document w)) = [] \/ trim (entry_content (document w)) = [] ->
  let w' := run handleAddEntry w in
  entry_error (document w') = js "Both title and content are required."
  /\ vault w' = vault w /\ localStorage w' = localStorage w /\ entropy w' = entropy w.
Proof.
  intros Hblank. cbv zeta. unfold handleAddEntry, run.
  rewrite bind_eq. cbn [hideEntryError showEntryError modify]. rewrite bind_eq.
  cbn [get]. cbn [set_document document entry_title entry_content].
  destruct Hblank as [-> | ->]; cbn [falsy orb].
  - repeat split.
  - rewrite orb_true_r. repeat split.
Qed.

(** C6. Over any sequence of actions the salt is written once.  A salt that is
    stored stays as it is and is never written again.  While none is stored
    the only write is the one of [handleUnlock] with a password: it stores the
    base64 text of 16 random bytes, and a sequence in which such an unlock
    occurs has written the salt exactly once at its end.  The last part says
    it for one action: no other action, and no unlock with a salt in store or
    without a password, touches the salt. *)
Theorem salt_is_written_once (actions : list Action) (w : World) :
  let w' := run_actions actions w in
  (forall s, stored_salt w = Some s ->
     stored_salt w' = Some s /\ salt_writes w' = salt_writes w)
  /\ (stored_salt w = None ->
      (stored_salt w' = None /\ salt_writes w' = salt_writes w)
      \/ (exists random,
            length random = 16%nat
            /\ stored_salt w' = Some (base64_encode random)
            /\ salt_writes w' = S (salt_writes w)))
  /\ (forall before after,
        actions = before ++ Unlock :: after ->
        stored_salt w = None ->
        master_password (document (run_actions before w)) <> [] ->
        salt_writes w' = S (salt_writes w))
  /\ (forall a,
        (getItem SALT_KEY (localStorage (step w a)), salt_writes (step w a))
        = match a, master_password (document w), stored_salt w with
          | Unlock, _ :: _, None =>
              (Some (base64_encode (next_random 16 w)), S (salt_writes w))
          | _, _, _ => (getItem SALT_KEY (localStorage w), salt_writes w)
          end).
Proof.
  cbv zeta. split; [|split; [|split]].
  - intros s Hs. now apply run_actions_stored_salt.
  - now apply run_actions_no_salt.
  - intros before after -> Hnone Hpw.
    unfold run_actions. rewrite fold_left_app. cbn [fold_left].
    fold (run_actions before w).
    fold (run_actions after (step (run_actions before w) Unlock)).
    destruct (run_actions_no_salt before w Hnone)
      as [[Hst Hwr]|(random & _ & Hst & Hwr)].
    + pose proof (step_salt_view (run_actions before w) Unlock) as Hstep.
      destruct (master_password (document (run_actions before w))) as [|p pw];
        [congruence|].
      rewrite Hst in Hstep.
      destruct (written_salt_stored _ _ Hstep) as [Hst1 Hwr1].
      destruct (run_actions_stored_salt after _ _ Hst1) as [_ Hwr2].
      now rewrite Hwr2, Hwr1, Hwr.
    + pose proof (step_salt_cases (run_actions before w) Unlock)
        as [Hsame|[Hnone' _]]; [|congruence].
      apply salt_view_stored in Hsame as [Hst1 Hwr1]. rewrite Hst in Hst1.
      destruct (run_actions_stored_salt after _ _ Hst1) as [_ Hwr2].
      now rewrite Hwr2, Hwr1, Hwr.
  - intros a. apply step_salt_view.
Qed.

(** C5, as the script has it.  When a password is given, the stored envelope
    is a string that is not empty, and opening it or parsing what it holds
    throws (the text is no base64, the tag does not verify, the plaintext is
    no JSON), whatever the exception, [handleUnlock] ends with the key set
    back to [null], with the one message "Invalid password or corrupted
    vault." and on the page it was on; the entries in memory and the stored
    envelope are as before.  The shape of what was parsed is not looked at,
    and an empty string counts for no envelope. *)
Theorem unlock_failure_locks_again (w : World) (loaded : option (list byte))
    (sealed : jsstring) (e : exn) :
  let password := master_password (document w) in
  let salt := default (next_random 16 w) loaded in
  password <> [] ->
  fst (loadSalt w) = Ok loaded ->
  getItem STORAGE_KEY (localStorage w) = Some sealed ->
  sealed <> [] ->
  open_and_parse (Some (deriveKey password salt)) sealed = Throw e ->
  let w' := run handleUnlock w in
  cryptoKey (vault w') = None
  /\ login_error (document w') = js "Invalid password or corrupted vault."
  /\ view (document w') = view (document w)
  /\ entries (vault w') = entries (vault w)
  /\ getItem STORAGE_KEY (localStorage w') = Some sealed.
Proof.
  cbv zeta. intros Hpw Hsalt Hsealed Hne Hfail.
  destruct (master_password (document w)) as [|p pw] eqn:Epw; [congruence|].
  destruct sealed as [|c data]; [congruence|].
  rewrite (handleUnlock_run w p pw Epw).
  rewrite loadSalt_run in Hsalt. unfold obtain_salt.
  change (localStorage (run hideLoginError w)) with (localStorage w).
  destruct (getItem SALT_KEY (localStorage w)) as [[|c' b64]|] eqn:Es.
  - injection Hsalt as <-. cbn [default from_option] in Hfail.
    rewrite (finish_unlock_failure _ _ _ c data e); [|
      unfold getItem; cbn; rewrite lookup_insert_ne by discriminate; exact Hsealed
      |exact Hfail].
    repeat split. unfold getItem. cbn. now rewrite lookup_insert_ne by discriminate.
  - destruct (atob (c' :: b64)) as [binary|e']; [|discriminate].
    cbn [fst] in Hsalt. injection Hsalt as <-. cbn [default from_option] in Hfail.
    rewrite (finish_unlock_failure _ _ _ c data e); [|exact Hsealed|exact Hfail].
    repeat split. exact Hsealed.
  - injection Hsalt as <-. cbn [default from_option] in Hfail.
    rewrite (finish_unlock_failure _ _ _ c data e); [|
      unfold getItem; cbn; rewrite lookup_insert_ne by discriminate; exact Hsealed
      |exact Hfail].
    repeat split. unfold getItem. cbn. now rewrite lookup_insert_ne by discriminate.
Qed.

(** C1, where the script departs from it.  For every sequence of entries,
    password and salt, [encrypt] seals the text of the entries under the key
    derived from the password and the salt only when the bytes of the envelope
    can be spread into the arguments of [String.fromCharCode]: then [decrypt]
    under the same key opens what was sealed and it is parsed back to the same
    array, which stands for one sequence of entries only (the same entries in
    the same order, with the same id, title and content).  When the bytes are
    more than the engine accepts in one call, [encrypt] throws a [RangeError]
    and there is nothing to open. *)
Theorem seal_open_decode_round_trip (es : list Entry) (password : jsstring)
    (salt0 : list byte) (w : World) :
  Forall wf_entry es ->
  let key := deriveKey password salt0 in
  let text := JSON_stringify (entries_value es) in
  let iv := next_random IV_LENGTH w in
  (sealable key iv text = true ->
   exists sealed,
     fst (encrypt (Some key) text w) = Ok sealed
     /\ (decrypted ← decrypt (Some key) sealed; JSON_parse decrypted)
        = Ok (entries_value es))
  /\ (sealable key iv text = false ->
      fst (encrypt (Some key) text w) = Throw RangeError)
  /\ (forall es', entries_value es' = entries_value es -> es' = es).
Proof.
  intros Hwf. cbv zeta. split; [|split].
  - intros Hfits. eexists. rewrite encrypt_run by exact Hfits. cbn [fst].
    split; [reflexivity|].
    apply (open_sealed_entries _ _ es (next_random_length _ _) Hwf).
  - intros Hfits. now rewrite encrypt_too_long by exact Hfits.
  - intros es'. apply entries_value_inj.
Qed.

(** C2, as the script has it.  The salt and an envelope sealed under the key
    of the password [P] are stored, and [handleUnlock] runs with the password
    [P'].  If AES-GCM rejects the envelope under the key derived from [P'],
    the unlock fails: the key is dropped, "Invalid password or corrupted
    vault." is shown, the page stays, and the entries in memory are not
    replaced, so no plaintext is returned.  If [P'] derives the key of [P],
    the vault opens with the sealed entries. *)
Theorem unlock_with_other_password (w : World) (P P' : jsstring)
    (salt0 iv : list byte) (es : list Entry) :
  let text := JSON_stringify (entries_value es) in
  master_password (document w) = P' -> P' <> [] ->
  getItem SALT_KEY (localStorage w) = Some (base64_encode salt0) -> salt0 <> [] ->
  getItem STORAGE_KEY (localStorage w) = Some (envelope (deriveKey P salt0) iv text) ->
  length iv = IV_LENGTH ->
  Forall wf_entry es ->
  let w' := run handleUnlock w in
  (aes_gcm_decrypt (deriveKey P' salt0) iv
     (aes_gcm_encrypt (deriveKey P salt0) iv (encodeUTF8 text)) = None ->
   cryptoKey (vault w') = None
   /\ login_error (document w') = js "Invalid password or corrupted vault."
   /\ view (document w') = view (document w)
   /\ entries (vault w') = entries (vault w))
  /\ (deriveKey P' salt0 = deriveKey P salt0 ->
      cryptoKey (vault w') = Some (deriveKey P salt0)
      /\ entries (vault w') = entries_value es
      /\ view (document w') = VaultView).
Proof.
  cbv zeta. intros Hpw Hne Hsalt Hsalt0 Hsealed Hiv Hwf.
  destruct P' as [|p pw]; [congruence|].
  rewrite (handleUnlock_run w p pw Hpw). unfold obtain_salt.
  change (localStorage (run hideLoginError w)) with (localStorage w).
  rewrite Hsalt.
  destruct salt0 as [|b salt0]; [congruence|].
  destruct (base64_encode_not_empty b salt0) as (c & b64 & Hb64).
  rewrite Hb64. rewrite <- Hb64. unfold atob. rewrite base64_decode_encode.
  unfold bytes_of_binary_string, fromCharCode. rewrite map_byte_of_N_to_N.
  destruct (envelope_not_empty (deriveKey P (b :: salt0)) iv
              (JSON_stringify (entries_value es)) Hiv) as (c' & data & Henv).
  assert (getItem STORAGE_KEY (localStorage (run hideLoginError w)) = Some (c' :: data))
    as Hitem by (rewrite <- Henv; exact Hsealed).
  split.
  - intros Hreject.
    rewrite (finish_unlock_failure _ _ _ c' data OperationError Hitem);
      [repeat split|].
    rewrite <- Henv. unfold open_and_parse, decrypt, envelope, atob.
    rewrite base64_decode_encode. cbn [mbind result_bind].
    unfold bytes_of_binary_string, fromCharCode. rewrite map_byte_of_N_to_N.
    rewrite take_app_length' by (symmetry; exact Hiv).
    rewrite drop_app_length' by (symmetry; exact Hiv).
    cbn [subtle_decrypt]. now rewrite Hreject.
  - intros Hsame.
    destruct (finish_unlock_success (p :: pw) (b :: salt0)
                (run hideLoginError w) c' data es Hitem) as (Hv & _ & Hview).
    + rewrite <- Henv, Hsame. now apply open_sealed_entries.
    + rewrite Hv, Hview, Hsame. repeat split.
Qed.

(** C4, as the script has it.  The stored envelope opens to a text.  If the
    text is not JSON, [JSON.parse] throws and [loadVaultData] answers [false],
    leaving the entries as they were: the exception goes no further.  If the
    text is JSON, its value becomes [vault.entries] whatever its shape, and
    the answer is [true]. *)
Theorem loadVaultData_decodes_any_json (w : World) (sealed text : jsstring) :
  getItem STORAGE_KEY (localStorage w) = Some sealed ->
  sealed <> [] ->
  decrypt (cryptoKey (vault w)) sealed = Ok text ->
  (forall e, JSON_parse text = Throw e -> loadVaultData w = (Ok false, w))
  /\ (forall v, JSON_parse text = Ok v ->
        loadVaultData w = (Ok true, set_vault (set_entries v) w)).
Proof.
  intros Hitem Hne Htext. destruct sealed as [|c data]; [congruence|].
  rewrite loadVaultData_run, Hitem. unfold open_and_parse. rewrite Htext.
  cbn [mbind result_bind]. split; intros ? ->; reflexivity.
Qed.

End Claims.

(** The statements with hypotheses, on pages of the toy host. *)
Section Witnesses.
Local Existing Instance toy_host.

(** What the toy host can seal: it accepts 4096 arguments, and its envelope
    is the nonce, the text and the key. *)
Lemma toy_key_length P salt0 : (length (deriveKey P salt0) <= 32)%nat.
Proof.
  unfold deriveKey, pbkdf2_hmac_sha256.
  change (aes_import_key ?x) with x. rewrite length_take. lia.
Qed.

Lemma toy_sealable (key : CryptoKey) iv data :
  (N.of_nat (length iv + length (encodeUTF8 data)) + 32 <=? 4096) = true ->
  (length key <= 32)%nat ->
  sealable key iv data = true.
Proof.
  intros Htext Hkey. apply N.leb_le in Htext. unfold sealable, spreads.
  change (aes_gcm_encrypt key iv (encodeUTF8 data)) with (encodeUTF8 data ++ key).
  change max_arguments with 4096. apply N.leb_le. rewrite !length_app. lia.
Qed.

Lemma toy_not_sealable (key : CryptoKey) iv data :
  (4096 <? N.of_nat (length iv + length (encodeUTF8 data))) = true ->
  sealable key iv data = false.
Proof.
  intros Htext. apply N.ltb_lt in Htext. unfold sealable, spreads.
  change (aes_gcm_encrypt key iv (encodeUTF8 data)) with (encodeUTF8 data ++ key).
  change max_arguments with 4096. apply N.leb_gt. rewrite !length_app. lia.
Qed.

Lemma note_wf : Forall wf_entry [note].
Proof. repeat constructor; cbn; unfold is_code_unit; lia. Qed.

Lemma big_wf : Forall wf_entry [big].
Proof.
  apply Forall_cons; split; [|now apply Forall_nil].
  split; [|split]; cbn [big id title content].
  - repeat constructor; cbn; unfold is_code_unit; lia.
  - repeat constructor; cbn; unfold is_code_unit; lia.
  - apply List.Forall_forall. intros c Hc. apply repeat_spec in Hc. subst c.
    unfold is_code_unit. lia.
Qed.

Lemma unlock_rejects_empty_password_witness :
  master_password (document blank_page) = []
  /\ login_error (document (run handleUnlock blank_page))
     = js "Please enter your master password."
  /\ localStorage (run handleUnlock blank_page) = localStorage blank_page.
Proof.
  split; [reflexivity|].
  pose proof (unlock_rejects_empty_password blank_page eq_refl) as (H1 & _ & H3 & _).
  split; [exact H1|exact H3].
Defined.

Lemma deleteEntry_removes_and_persists_witness :
  cryptoKey (vault big_page) = Some [Byte.x01]
  /\ entries (vault big_page) = entries_value [note; big]
  /\ Forall wf_entry [note; big]
  /\ sealable [Byte.x01] (next_random IV_LENGTH big_page)
       (JSON_stringify (entries_value [big])) = false
  /\ entries (vault (run (deleteEntry (js "1")) big_page)) = entries_value [big]
  /\ localStorage (run (deleteEntry (js "1")) big_page) = localStorage big_page.
Proof.
  assert (Forall wf_entry [note; big]) as Hwf.
  { apply Forall_cons; split; [|exact big_wf]. exact (Forall_inv note_wf). }
  assert (sealable [Byte.x01] (next_random IV_LENGTH big_page)
            (JSON_stringify (entries_value [big])) = false) as Hbig.
  { apply toy_not_sealable. vm_compute. reflexivity. }
  split; [reflexivity|]. split; [reflexivity|]. split; [exact Hwf|].
  split; [exact Hbig|].
  pose proof (deleteEntry_removes_and_persists big_page [Byte.x01] [note; big] (js "1")
                eq_refl eq_refl Hwf) as Hrun.
  split; [exact (proj1 (proj2 Hrun))|].
  exact (proj2 (proj2 (proj2 (proj2 (proj2 (proj2 (proj2 Hrun)))))) Hbig).
Defined.

Lemma addEntry_stores_trimmed_fields_witness :
  cryptoKey (vault open_page) = Some [Byte.x01]
  /\ entries (vault open_page) = entries_value [note]
  /\ js " a " <> [] /\ js "b" <> []
  /\ entries (vault (run (addEntry (js " a ") (js "b")) open_page))
     = entries_value
         [note; mkEntry (js "00000000-0000-4000-8000-000000000000") (js "a") (js "b")]
  /\ open_and_parse (Some [Byte.x01])
       (default []
          (getItem STORAGE_KEY
             (localStorage (run (addEntry (js " a ") (js "b")) open_page))))
     = Ok (entries_value
             [note;
              mkEntry (js "00000000-0000-4000-8000-000000000000") (js "a") (js "b")]).
Proof.
  assert (wf_string (js " a ")) as Hwt.
  { repeat constructor; cbn; unfold is_code_unit; lia. }
  assert (wf_string (js "b")) as Hwc.
  { repeat constructor; cbn; unfold is_code_unit; lia. }
  split; [reflexivity|]. split; [reflexivity|].
  split; [discriminate|]. split; [discriminate|].
  pose proof (addEntry_stores_trimmed_fields open_page [Byte.x01] [note]
                (js " a ") (js "b") eq_refl eq_refl
                ltac:(discriminate) ltac:(discriminate))
    as (Hentries & _ & _ & _ & _ & Hstored & _).
  destruct (Hstored eq_refl) as [Hitem Hopen].
  split; [exact Hentries|].
  rewrite Hitem. exact (Hopen note_wf Hwt Hwc).
Defined.

Lemma addEntry_accepts_blank_title_witness :
  cryptoKey (vault open_page) = Some [Byte.x01]
  /\ entries (vault open_page) = entries_value [note]
  /\ entries (vault (run (addEntry (js "   ") (js "x")) open_page))
     = entries_value
         [note; mkEntry (js "00000000-0000-4000-8000-000000000000") [] (js "x")]
  /\ length (writes (localStorage (run (addEntry (js "   ") (js "x")) open_page)))
     = 1%nat.
Proof.
  split; [reflexivity|]. split; [reflexivity|].
  pose proof (addEntry_accepts_blank_title open_page [Byte.x01] [note]
                eq_refl eq_refl) as (Hentries & Hstored & _).
  split; [exact Hentries|].
  exact (eq_trans (f_equal (@length _) (Hstored eq_refl)) eq_refl).
Defined.

Lemma handleAddEntry_rejects_blank_witness :
  (trim (entry_title (document open_page)) = []
   \/ trim (entry_content (document open_page)) = [])
  /\ vault (run handleAddEntry open_page) = vault open_page.
Proof.
  split; [left; reflexivity|].
  exact (proj1 (proj2 (handleAddEntry_rejects_blank open_page (or_introl eq_refl)))).
Defined.

Lemma seal_open_decode_round_trip_witness :
  Forall wf_entry [big]
  /\ sealable (deriveKey (js "orange123") []) (next_random IV_LENGTH blank_page)
       (JSON_stringify (entries_value [big])) = false
  /\ fst (encrypt (Some (deriveKey (js "orange123") []))
            (JSON_stringify (entries_value [big])) blank_page) = Throw RangeError
  /\ Forall wf_entry [note]
  /\ sealable (deriveKey (js "orange123") []) (next_random IV_LENGTH blank_page)
       (JSON_stringify (entries_value [note])) = true
  /\ exists sealed,
       fst (encrypt (Some (deriveKey (js "orange123") []))
              (JSON_stringify (entries_value [note])) blank_page) = Ok sealed
       /\ (decrypted ← decrypt (Some (deriveKey (js "orange123") [])) sealed;
           JSON_parse decrypted) = Ok (entries_value [note]).
Proof.
  assert (sealable (deriveKey (js "orange123") []) (next_random IV_LENGTH blank_page)
            (JSON_stringify (entries_value [big])) = false) as Hbig.
  { apply toy_not_sealable. vm_compute. reflexivity. }
  assert (sealable (deriveKey (js "orange123") []) (next_random IV_LENGTH blank_page)
            (JSON_stringify (entries_value [note])) = true) as Hnote.
  { apply toy_sealable; [vm_compute; reflexivity|apply toy_key_length]. }
  split; [exact big_wf|]. split; [exact Hbig|].
  split;
    [exact (proj1 (proj2 (seal_open_decode_round_trip [big] (js "orange123") []
                            blank_page big_wf)) Hbig)|].
  split; [exact note_wf|]. split; [exact Hnote|].
  exact (proj1 (seal_open_decode_round_trip [note] (js "orange123") [] blank_page
                  note_wf) Hnote).
Defined.

Lemma unlock_failure_locks_again_witness :
  master_password (document broken_page) <> []
  /\ fst (loadSalt broken_page) = Ok None
  /\ getItem STORAGE_KEY (localStorage broken_page) = Some (js "!")
  /\ open_and_parse
       (Some (deriveKey (master_password (document broken_page))
                (List.map (entropy broken_page) (seq 0 16))))
       (js "!")
     = Throw InvalidCharacterError
  /\ cryptoKey (vault (run handleUnlock broken_page)) = None
  /\ login_error (document (run handleUnlock broken_page))
     = js "Invalid password or corrupted vault.".
Proof.
  assert (master_password (document broken_page) <> []) as H1 by discriminate.
  assert (fst (loadSalt broken_page) = Ok None) as H2 by reflexivity.
  assert (getItem STORAGE_KEY (localStorage broken_page) = Some (js "!")) as H3
    by reflexivity.
  assert (open_and_parse
            (Some (deriveKey (master_password (document broken_page))
                     (List.map (entropy broken_page) (seq 0 16))))
            (js "!")
          = Throw InvalidCharacterError) as H4 by reflexivity.
  repeat (split; [assumption|]).
  pose proof (unlock_failure_locks_again broken_page None (js "!")
                InvalidCharacterError H1 H2 H3 ltac:(discriminate) H4)
    as (Hk & Hm & _).
  split; assumption.
Defined.

Lemma unlock_with_other_password_witness :
  master_password (document sealed_page) = [97; 0]
  /\ Forall wf_entry [note]
  /\ entries (vault (run handleUnlock sealed_page)) = entries_value [note].
Proof.
  assert (Forall wf_entry [note]) as Hwf.
  { repeat constructor; cbn; unfold is_code_unit; lia. }
  split; [reflexivity|]. split; [exact Hwf|].
  refine (proj1 (proj2 (proj2
            (unlock_with_other_password sealed_page [97] [97; 0] [Byte.x01]
               (repeat Byte.x00 12) [note] eq_refl _ _ _ _ eq_refl Hwf)
            (deriveKey_a_zero [Byte.x01])))).
  - discriminate.
  - apply lookup_insert_eq.
  - discriminate.
  - unfold getItem. cbn [sealed_page localStorage items].
    rewrite lookup_insert_ne by discriminate. apply lookup_singleton_eq.
Defined.

Lemma loadVaultData_decodes_any_json_witness :
  getItem STORAGE_KEY (localStorage object_page)
  = Some (js "AAAAAAAAAAAAAAAAe30B")
  /\ decrypt (cryptoKey (vault object_page)) (js "AAAAAAAAAAAAAAAAe30B") = Ok (js "{}")
  /\ loadVaultData object_page
     = (Ok true, set_vault (set_entries (JObject [])) object_page).
Proof.
  assert (getItem STORAGE_KEY (localStorage object_page)
          = Some (js "AAAAAAAAAAAAAAAAe30B")) as H1 by reflexivity.
  assert (decrypt (cryptoKey (vault object_page)) (js "AAAAAAAAAAAAAAAAe30B")
          = Ok (js "{}")) as H2 by reflexivity.
  split; [exact H1|]. split; [exact H2|].
  exact (proj2 (loadVaultData_decodes_any_json object_page _ _ H1 ltac:(discriminate) H2)
           (JObject []) eq_refl).
Defined.

End Witnesses.

(** C2, against the claim: a password and the same password followed by
    U+0000 are two passwords, and HMAC, which fills its key with zero bytes,
    derives one key from them for every salt.  An envelope of the first (a
    nonce, and what AES-GCM makes of the text under its key) opens under the
    second, and so does whatever [encrypt] returns under the first: the
    plaintext comes back. *)
Lemma other_password_opens_envelope :
  exists P P' : jsstring,
    P <> P' /\ P <> [] /\ P' <> []
    /\ forall (H : Host) (salt0 : list byte) (es : list Entry),
         Forall wf_entry es ->
         (forall iv, length iv = IV_LENGTH ->
            (decrypted ← decrypt (Some (deriveKey P' salt0))
                           (envelope (deriveKey P salt0) iv
                              (JSON_stringify (entries_value es)));
             JSON_parse decrypted) = Ok (entries_value es))
         /\ (forall (w : World) (sealed : jsstring),
               fst (encrypt (Some (deriveKey P salt0))
                      (JSON_stringify (entries_value es)) w) = Ok sealed ->
               (decrypted ← decrypt (Some (deriveKey P' salt0)) sealed;
                JSON_parse decrypted) = Ok (entries_value es)).
Proof.
  exists [97], [97; 0]. split; [discriminate|]. split; [discriminate|].
  split; [discriminate|]. intros H salt0 es Hwf.
  assert (forall iv, length iv = IV_LENGTH ->
            (decrypted ← decrypt (Some (deriveKey [97; 0] salt0))
                           (envelope (deriveKey [97] salt0) iv
                              (JSON_stringify (entries_value es)));
             JSON_parse decrypted) = Ok (entries_value es)) as Hopen.
  { intros iv Hiv. rewrite deriveKey_a_zero.
    apply (open_sealed_entries _ _ es Hiv Hwf). }
  split; [exact Hopen|]. intros w sealed Hsealed.
  destruct (sealable (deriveKey [97] salt0) (next_random IV_LENGTH w)
              (JSON_stringify (entries_value es))) eqn:Hfits.
  - rewrite encrypt_run in Hsealed by exact Hfits. cbn [fst] in Hsealed.
    injection Hsealed as <-. apply Hopen, next_random_length.
  - rewrite encrypt_too_long in Hsealed by exact Hfits. discriminate.
Qed.

(** C4, against the claim: the two bytes of the text of an empty object are
    no entry collection, and [loadVaultData] takes the object for the entries
    and answers [true]. *)
Lemma loadVaultData_accepts_an_object :
  exists payload : list byte,
    payload = [Byte.x7b; Byte.x7d]
    /\ (forall es, JSON_parse (decodeUTF8 payload) <> Ok (entries_value es))
    /\ forall (H : Host) (w : World) (key : CryptoKey) (iv : list byte),
         cryptoKey (vault w) = Some key ->
         length iv = IV_LENGTH ->
         getItem STORAGE_KEY (localStorage w)
         = Some (base64_encode (iv ++ aes_gcm_encrypt key iv payload)) ->
         loadVaultData w = (Ok true, set_vault (set_entries (JObject [])) w).
Proof.
  exists [Byte.x7b; Byte.x7d]. split; [reflexivity|]. split; [discriminate|].
  intros H w key iv Hkey Hiv Hitem.
  destruct (envelope_not_empty key iv [123; 125] Hiv) as (c & data & Henv).
  change (base64_encode (iv ++ aes_gcm_encrypt key iv [Byte.x7b; Byte.x7d]))
    with (envelope key iv [123; 125]) in Hitem.
  rewrite loadVaultData_run, Hitem, Henv, <- Henv, Hkey.
  unfold open_and_parse. rewrite decrypt_envelope by exact Hiv. reflexivity.
Qed.

(** ** Whole sessions *)

Section Sessions.
Context `{Host}.

Lemma keys_differ : SALT_KEY <> STORAGE_KEY.
Proof. discriminate. Qed.

(** A stored salt is read back as the bytes that were stored. *)
Lemma obtain_salt_stored w b bs :
  getItem SALT_KEY (localStorage w) = Some (base64_encode (b :: bs)) ->
  obtain_salt w = (Ok (b :: bs), w).
Proof.
  intros Hitem. unfold obtain_salt. rewrite Hitem.
  destruct (base64_encode_not_empty b bs) as (c & s & Hcs).
  rewrite Hcs, <- Hcs. unfold atob. rewrite base64_decode_encode.
  cbn [mbind result_bind]. unfold bytes_of_binary_string, fromCharCode.
  now rewrite map_byte_of_N_to_N.
Qed.

(** With no envelope in store the vault opens empty. *)
Lemma finish_unlock_fresh password salt0 w2 :
  getItem STORAGE_KEY (localStorage w2) = None ->
  finish_unlock password salt0 w2
  = mkWorld (mkVault (JArray []) (Some (deriveKey password salt0)) (Some salt0))
      (localStorage w2)
      (mkDom [] (entry_title (document w2)) (entry_content (document w2))
         (login_error (document w2)) (entry_error (document w2))
         (Notice (js "Your vault is empty.")) VaultView)
      (entropy w2).
Proof.
  intros Hitem. unfold finish_unlock. rewrite loadVaultData_run.
  change (localStorage (with_key password salt0 w2)) with (localStorage w2).
  rewrite Hitem. reflexivity.
Qed.

(** X2. Unlocking a vault that has neither salt nor envelope in store, with a
    password: 16 random bytes become the salt and are stored, the key is
    derived from the password and them, the entries are the empty array, no
    envelope is written, and the vault section is shown with the notice of
    the empty vault and the password field cleared. *)
Theorem unlock_fresh_vault (w : World) (password : jsstring) :
  password <> [] ->
  master_password (document w) = password ->
  getItem SALT_KEY (localStorage w) = None ->
  getItem STORAGE_KEY (localStorage w) = None ->
  let w' := run handleUnlock w in
  let salt0 := next_random 16 w in
  vault w' = mkVault (JArray []) (Some (deriveKey password salt0)) (Some salt0)
  /\ getItem SALT_KEY (localStorage w') = Some (base64_encode salt0)
  /\ getItem STORAGE_KEY (localStorage w') = None
  /\ view (document w') = VaultView
  /\ entries_list (document w') = Notice (js "Your vault is empty.")
  /\ master_password (document w') = []
  /\ login_error (document w') = [].
Proof.
  intros Hne Hpw Hsalt Hdata. cbv zeta.
  destruct password as [|p pw]; [congruence|].
  rewrite (handleUnlock_run w p pw Hpw). unfold obtain_salt.
  change (localStorage (run hideLoginError w)) with (localStorage w).
  rewrite Hsalt.
  rewrite finish_unlock_fresh.
  - cbn [vault localStorage document view entries_list master_password login_error
         set_localStorage drawn].
    change (next_random 16 (run hideLoginError w)) with (next_random 16 w).
    repeat split.
    + unfold getItem, setItem. cbn [items]. apply lookup_insert_eq.
    + unfold getItem, setItem. cbn [items].
      rewrite lookup_insert_ne by exact keys_differ. exact Hdata.
  - cbn [localStorage set_localStorage drawn]. unfold getItem, setItem. cbn [items].
    rewrite lookup_insert_ne by exact keys_differ. exact Hdata.
Qed.

(** X3. An open session whose key comes from a password and the stored salt:
    after [addEntry] with two non-empty strings, a logout, and an unlock with
    the same password, the vault holds the former entries followed by the new
    one, under the same key, and the vault section is shown.  This is so when
    the envelope of the entries with the new one is not too long for the
    engine to spread, so that [addEntry] stores it. *)
Theorem reunlock_restores_entries (w : World) (password : jsstring)
    (salt0 : list byte) (es : list Entry) (rawTitle rawContent : jsstring) :
  password <> [] -> salt0 <> [] -> rawTitle <> [] -> rawContent <> [] ->
  wf_string rawTitle -> wf_string rawContent -> Forall wf_entry es ->
  vault w = mkVault (entries_value es) (Some (deriveKey password salt0)) (Some salt0) ->
  getItem SALT_KEY (localStorage w) = Some (base64_encode salt0) ->
  sealable (deriveKey password salt0) (next_random IV_LENGTH (drawn 16 w))
    (JSON_stringify (entries_value (es ++ [new_entry rawTitle rawContent w]))) = true ->
  let w' :=
    run_actions
      [CallAddEntry rawTitle rawContent; Logout; InputPassword password; Unlock] w in
  vault (run_actions [CallAddEntry rawTitle rawContent; Logout] w)
  = mkVault (JArray []) None (Some salt0)
  /\ vault w'
     = mkVault (entries_value (es ++ [new_entry rawTitle rawContent w]))
         (Some (deriveKey password salt0)) (Some salt0)
  /\ view (document w') = VaultView.
Proof.
  intros Hpw Hsalt0 Ht Hc Hwt Hwc Hwf Hvault Hsalt Hfits. cbv zeta.
  destruct password as [|p pw]; [congruence|].
  destruct salt0 as [|b bs]; [congruence|].
  destruct rawTitle as [|t ts]; [congruence|].
  destruct rawContent as [|c cs]; [congruence|].
  unfold run_actions. cbn [fold_left].
  set (w1 := step w (CallAddEntry (t :: ts) (c :: cs))).
  change (step w1 Logout) with (run handleLogout w1).
  assert (data_view w1
          = data_view
              (saved (deriveKey (p :: pw) (b :: bs))
                 (set_vault
                    (set_entries
                       (JArray (List.map entry_value es
                                ++ [entry_value (new_entry (t :: ts) (c :: cs) w)])))
                    (drawn 16 w)))) as Hw1.
  { subst w1. unfold step. cbn [perform].
    apply addEntry_run; [now rewrite Hvault|now rewrite Hvault|].
    rewrite entries_value_snoc. exact Hfits. }
  apply data_view_eq in Hw1 as (Hv1 & Hs1 & _).
  rewrite handleLogout_run.
  assert (salt (vault w1) = Some (b :: bs)) as Hsalt1.
  { rewrite Hv1. cbn [saved set_vault set_localStorage vault drawn salt set_entries].
    now rewrite Hvault. }
  rewrite Hsalt1. split; [reflexivity|].
  match goal with |- context [step (step ?x (InputPassword ?v)) Unlock] =>
    set (w3 := step x (InputPassword v))
  end.
  change (step w3 Unlock) with (run handleUnlock w3).
  rewrite (handleUnlock_run w3 p pw eq_refl).
  assert (localStorage (run hideLoginError w3) = localStorage w1) as Hs3 by reflexivity.
  assert (getItem SALT_KEY (localStorage w1) = Some (base64_encode (b :: bs))) as Hsalt'.
  { rewrite Hs1. cbn [saved set_vault set_localStorage localStorage drawn].
    unfold getItem, setItem. cbn [items].
    rewrite lookup_insert_ne by (intros E; symmetry in E; exact (keys_differ E)).
    exact Hsalt. }
  rewrite (obtain_salt_stored _ b bs) by (rewrite Hs3; exact Hsalt').
  destruct (envelope_not_empty (deriveKey (p :: pw) (b :: bs))
              (next_random IV_LENGTH (drawn 16 w))
              (JSON_stringify
                 (entries_value (es ++ [new_entry (t :: ts) (c :: cs) w]))))
    as (x & data & Henv); [apply next_random_length|].
  destruct (finish_unlock_success (p :: pw) (b :: bs) (run hideLoginError w3) x data
              (es ++ [new_entry (t :: ts) (c :: cs) w])) as (Hv & _ & Hview).
  - rewrite Hs3, Hs1, <- Henv.
    cbn [saved set_vault set_localStorage localStorage drawn vault entries set_entries].
    rewrite entries_value_snoc.
    unfold getItem, setItem. cbn [items]. apply lookup_insert_eq.
  - rewrite <- Henv. apply open_sealed_entries; [apply next_random_length|].
    apply Forall_app. split; [exact Hwf|].
    apply Forall_cons; split; [|now apply Forall_nil].
    unfold new_entry. repeat split; cbn [id title content];
      [apply uuid_v4_wf|now apply trim_wf|now apply trim_wf].
  - split; assumption.
Qed.

End Sessions.
(** The two statements about sessions, on pages of the toy host. *)
Section Session_witnesses.
Local Existing Instance toy_host.

Lemma unlock_fresh_vault_witness :
  master_password (document fresh_page) = [97]
  /\ getItem SALT_KEY (localStorage fresh_page) = None
  /\ getItem STORAGE_KEY (localStorage fresh_page) = None
  /\ getItem SALT_KEY (localStorage (run handleUnlock fresh_page))
     = Some (js "AAAAAAAAAAAAAAAAAAAAAA==")
  /\ view (document (run handleUnlock fresh_page)) = VaultView.
Proof.
  split; [reflexivity|]. split; [reflexivity|]. split; [reflexivity|].
  pose proof (unlock_fresh_vault fresh_page [97] ltac:(discriminate)
                eq_refl eq_refl eq_refl) as (_ & Hsalt & _ & Hview & _).
  split; [exact Hsalt|exact Hview].
Defined.

Lemma reunlock_restores_entries_witness :
  Forall wf_entry [note]
  /\ wf_string (js " Key ") /\ wf_string (js "1234")
  /\ getItem SALT_KEY (localStorage session_page) = Some (base64_encode [Byte.x01])
  /\ sealable (deriveKey [97] [Byte.x01]) (next_random IV_LENGTH (drawn 16 session_page))
       (JSON_stringify
          (entries_value ([note] ++ [new_entry (js " Key ") (js "1234") session_page])))
     = true
  /\ entries
       (vault
          (run_actions
             [CallAddEntry (js " Key ") (js "1234"); Logout; InputPassword [97]; Unlock]
             session_page))
     = entries_value
         [note;
          mkEntry (js "00000000-0000-4000-8000-000000000000") (js "Key") (js "1234")].
Proof.
  assert (Forall wf_entry [note]) as Hwf.
  { repeat constructor; cbn; unfold is_code_unit; lia. }
  assert (wf_string (js " Key ")) as Ht.
  { repeat constructor; cbn; unfold is_code_unit; lia. }
  assert (wf_string (js "1234")) as Hc.
  { repeat constructor; cbn; unfold is_code_unit; lia. }
  assert (getItem SALT_KEY (localStorage session_page)
          = Some (base64_encode [Byte.x01])) as Hsalt by apply lookup_singleton_eq.
  assert (vault session_page
          = mkVault (entries_value [note]) (Some (deriveKey [97] [Byte.x01]))
              (Some [Byte.x01])) as Hopen by exact eq_refl.
  assert (sealable (deriveKey [97] [Byte.x01])
            (next_random IV_LENGTH (drawn 16 session_page))
            (JSON_stringify
               (entries_value ([note] ++ [new_entry (js " Key ") (js "1234") session_page])))
          = true) as Hfits.
  { apply toy_sealable; [reflexivity|apply toy_key_length]. }
  split; [exact Hwf|]. split; [exact Ht|]. split; [exact Hc|]. split; [exact Hsalt|].
  split; [exact Hfits|].
  pose proof (reunlock_restores_entries session_page [97] [Byte.x01] [note]
                (js " Key ") (js "1234")
                ltac:(discriminate) ltac:(discriminate) ltac:(discriminate)
                ltac:(discriminate) Ht Hc Hwf Hopen Hsalt Hfits) as Hrun.
  exact (f_equal entries (proj1 (proj2 Hrun))).
Defined.

End Session_witnesses.
(** ** Text, envelopes and the salt *)

Section Text_and_envelopes.
Context `{Host}.

(** X4. [decodeUTF8(encodeUTF8(s))] for a string without lone surrogates: it
    is [s] when [s] does not begin with U+FEFF, and a leading U+FEFF is
    dropped ([TextDecoder] takes it for a byte order mark).  A lone surrogate
    comes back as U+FFFD. *)
Theorem utf8_round_trip (s : jsstring) :
  wf_string s -> isWellFormed s = true ->
  (no_bom s -> decodeUTF8 (encodeUTF8 s) = s)
  /\ decodeUTF8 (encodeUTF8 (0xFEFF :: s)) = s
  /\ (forall c, (is_high_surrogate c || is_low_surrogate c) = true ->
        decodeUTF8 (encodeUTF8 [c]) = [0xFFFD]).
Proof.
  intros Hwf Hok. split; [|split].
  - intros Hbom. now apply decodeUTF8_encodeUTF8.
  - unfold decodeUTF8, encodeUTF8.
    change (code_points (0xFEFF :: s)) with (0xFEFF :: code_points s).
    rewrite utf8_decode_encode.
    + cbn [strip_bom]. now apply utf16_code_points.
    + apply Forall_cons. split; [unfold is_scalar; lia|now apply code_points_scalar].
  - intros c Hc. unfold encodeUTF8. cbn [code_points].
    destruct (is_high_surrogate c); [reflexivity|].
    cbn [orb] in Hc. rewrite Hc. reflexivity.
Qed.

(** X5. [encrypt] with a key draws 12 random bytes for the nonce.  When the
    nonce and what AES-GCM gives are together no more bytes than the engine
    accepts as arguments of one call, it returns their base64 text, and
    [decrypt] under the same key gives the string back, for a string without
    lone surrogates that does not begin with U+FEFF.  When they are more,
    [String.fromCharCode(...buffer)] throws a [RangeError] and so does
    [encrypt]. *)
Theorem encrypt_decrypt_round_trip (key : CryptoKey) (data : jsstring) (w : World) :
  wf_string data -> isWellFormed data = true -> no_bom data ->
  let iv := next_random IV_LENGTH w in
  let buffer := iv ++ aes_gcm_encrypt key iv (encodeUTF8 data) in
  (N.of_nat (length buffer) <= max_arguments ->
   exists sealed,
     encrypt (Some key) data w = (Ok sealed, drawn IV_LENGTH w)
     /\ (binary ← atob sealed; mret (bytes_of_binary_string binary)) = Ok buffer
     /\ decrypt (Some key) sealed = Ok data)
  /\ (max_arguments < N.of_nat (length buffer) ->
      encrypt (Some key) data w = (Throw RangeError, drawn IV_LENGTH w)).
Proof.
  intros Hwf Hok Hbom. cbv zeta. split.
  - intros Hfits. apply N.leb_le in Hfits.
    eexists. rewrite encrypt_run by exact Hfits.
    split; [reflexivity|]. split.
    + unfold envelope, atob. rewrite base64_decode_encode.
      cbn [mbind result_bind mret result_ret].
      unfold bytes_of_binary_string, fromCharCode. now rewrite map_byte_of_N_to_N.
    + rewrite decrypt_envelope by apply next_random_length.
      now rewrite decodeUTF8_encodeUTF8.
  - intros Hlong. apply N.leb_gt in Hlong. now apply encrypt_too_long.
Qed.

(** X6. For a salt of at most 16 bytes, as the script makes them (and for any
    salt of no more bytes than the engine accepts as arguments of one call),
    [saveSalt] does not throw, and [loadSalt] after [saveSalt(salt)] gives the
    salt back, unless the salt is empty: then the empty string is stored and
    [loadSalt] answers [null].  [saveSalt] leaves the stored envelope alone.
    A salt of more bytes than the engine accepts makes [saveSalt] throw a
    [RangeError], and nothing is stored. *)
Theorem saveSalt_loadSalt (salt0 : list byte) (w : World) :
  ((length salt0 <= 16)%nat \/ N.of_nat (length salt0) <= max_arguments ->
   let w' := run (saveSalt salt0) w in
   fst (saveSalt salt0 w) = Ok tt
   /\ loadSalt w' = (Ok match salt0 with [] => None | _ :: _ => Some salt0 end, w')
   /\ getItem STORAGE_KEY (localStorage w') = getItem STORAGE_KEY (localStorage w))
  /\ (max_arguments < N.of_nat (length salt0) ->
      saveSalt salt0 w = (Throw RangeError, w)).
Proof.
  split; [|intros Hlong; apply N.leb_gt in Hlong; now apply saveSalt_too_long].
  intros Hshort.
  assert (spreads salt0 = true) as Hfits.
  { destruct Hshort as [Hshort|Hshort]; [now apply spreads_short|now apply N.leb_le]. }
  cbv zeta. unfold run. rewrite saveSalt_run by exact Hfits. cbn [fst snd].
  split; [reflexivity|]. split.
  - rewrite loadSalt_run. cbn [localStorage set_localStorage].
    unfold getItem at 1, setItem. cbn [items]. rewrite lookup_insert_eq.
    destruct salt0 as [|b bs]; [reflexivity|].
    destruct (base64_encode_not_empty b bs) as (c & s & Hcs).
    rewrite Hcs, <- Hcs. unfold atob. rewrite base64_decode_encode.
    unfold bytes_of_binary_string, fromCharCode. now rewrite map_byte_of_N_to_N.
  - cbn [localStorage set_localStorage]. unfold getItem, setItem. cbn [items].
    apply lookup_insert_ne. discriminate.
Qed.

(** X7. [addEntry] with an empty title or an empty content only shows its
    message: the vault, [localStorage], the random source and the rest of the
    page are as before. *)
Theorem addEntry_rejects_empty (w : World) (title0 content0 : jsstring) :
  title0 = [] \/ content0 = [] ->
  let w' := run (addEntry title0 content0) w in
  entry_error (document w') = js "Title and content cannot be empty."
  /\ vault w' = vault w /\ localStorage w' = localStorage w /\ entropy w' = entropy w
  /\ entries_list (document w') = entries_list (document w)
  /\ entry_title (document w') = entry_title (document w)
  /\ entry_content (document w') = entry_content (document w)
  /\ view (document w') = view (document w).
Proof.
  intros Hempty. cbv zeta. unfold addEntry.
  destruct Hempty as [-> | ->]; cbn [falsy orb].
  - repeat split.
  - rewrite orb_true_r. repeat split.
Qed.

(** X8. With no key ([vault.cryptoKey] is [null], as after a logout)
    [saveVaultData] throws before it stores anything.  [addEntry] and
    [deleteEntry] have changed [vault.entries] by then, and nobody awaits the
    promise: the entries in memory change, [localStorage] and the page do
    not. *)
Theorem locked_vault_is_not_saved (w : World) (es : list Entry) :
  cryptoKey (vault w) = None ->
  entries (vault w) = entries_value es ->
  (forall title0 content0, title0 <> [] -> content0 <> [] ->
     let w' := run (addEntry title0 content0) w in
     entries (vault w') = entries_value (es ++ [new_entry title0 content0 w])
     /\ cryptoKey (vault w') = None
     /\ localStorage w' = localStorage w
     /\ document w' = document w)
  /\ (forall id0,
        let w' := run (deleteEntry id0) w in
        entries (vault w') = entries_value (without id0 es)
        /\ cryptoKey (vault w') = None
        /\ localStorage w' = localStorage w
        /\ document w' = document w).
Proof.
  intros Hkey Hentries. split.
  - intros title0 content0 Ht Hc. cbv zeta.
    destruct title0 as [|t ts]; [congruence|]. destruct content0 as [|c cs]; [congruence|].
    unfold addEntry, run. cbn [falsy orb].
    rewrite bind_eq. unfold randomUUID. rewrite bind_eq, getRandomBytes_run.
    cbn [mret M_ret]. rewrite bind_eq. unfold entries_push.
    rewrite bind_eq. cbn [get]. rewrite bind_eq.
    change (entries (vault (drawn 16 w))) with (entries (vault w)).
    rewrite Hentries. cbn [entries_value array_elements lift modify].
    unfold detach. cbn [snd]. rewrite bind_eq.
    rewrite saveVaultData_no_key by (cbn; exact Hkey).
    cbn [snd drawn set_vault set_entries vault entries cryptoKey localStorage document].
    rewrite Hkey. rewrite entries_value_snoc. repeat split.
  - intros id0. cbv zeta. unfold deleteEntry, run.
    rewrite bind_eq. cbn [get]. rewrite bind_eq, Hentries.
    cbn [entries_value array_elements lift]. rewrite bind_eq, filter_entries.
    cbn [lift]. rewrite bind_eq. cbn [modify]. unfold detach. cbn [snd].
    rewrite bind_eq.
    rewrite saveVaultData_no_key by (cbn; exact Hkey).
    cbn [snd drawn set_vault set_entries vault entries cryptoKey localStorage document].
    rewrite Hkey. repeat split.
Qed.

End Text_and_envelopes.
(** ** The list on the page *)

Section Page.
Context `{Host}.

(** The article [renderEntries] makes of an entry. *)
Definition article_of (e : Entry) : Article :=
  mkArticle (Some (JString (id e))) (Some (JString (title e)))
    (Some (JString (content e))).

(** What [renderEntries] leaves in [#entries-list] for the entries [es]. *)
Definition rendered (es : list Entry) : EntriesList :=
  match es with
  | [] => Notice (js "Your vault is empty.")
  | _ :: _ => Articles (List.map article_of es)
  end.

Definition with_entries_list (l : EntriesList) (w : World) : World :=
  set_document (fun d =>
    mkDom (master_password d) (entry_title d) (entry_content d) (login_error d)
      (entry_error d) l (view d)) w.

Lemma forEach_articles es : forall w l,
  entries_list (document w) = Articles l ->
  forEach (fun e =>
    id ← lift (get_field e (js "id"));
    title ← lift (get_field e (js "title"));
    content ← lift (get_field e (js "content"));
    append_article (mkArticle id title content)) (List.map entry_value es) w
  = (Ok tt, with_entries_list (Articles (l ++ List.map article_of es)) w).
Proof.
  induction es as [|e es IH]; intros w l Hl.
  - cbn [List.map forEach]. rewrite app_nil_r. unfold with_entries_list.
    destruct w as [v s [pw t c le ee el vw] r]. cbn in Hl. subst el. reflexivity.
  - cbn [List.map forEach]. rewrite bind_eq.
    destruct (get_field_entry e) as (Hi & Ht & Hc).
    rewrite bind_eq, Hi. cbn [lift]. rewrite bind_eq, Ht. cbn [lift].
    rewrite bind_eq, Hc. cbn [lift append_article modify].
    rewrite (IH _ (l ++ [article_of e])).
    + rewrite <- app_assoc. reflexivity.
    + cbn [set_document document entries_list]. now rewrite Hl.
Qed.

Lemma renderEntries_run w es :
  entries (vault w) = entries_value es ->
  renderEntries w = (Ok tt, with_entries_list (rendered es) w).
Proof.
  intros Hentries. unfold renderEntries. rewrite bind_eq.
  cbn [set_entries_list modify]. rewrite bind_eq. cbn [get]. rewrite bind_eq.
  cbn [set_document vault]. rewrite Hentries.
  destruct es as [|e es]; [reflexivity|].
  cbn [entries_value List.map length_is_zero length Nat.eqb lift].
  rewrite bind_eq. cbn [lift].
  change (array_elements (entries_value (e :: es)))
    with (@Ok (list json) (List.map entry_value (e :: es))).
  cbv iota.
  rewrite (forEach_articles (e :: es) _ []) by reflexivity.
  reflexivity.
Qed.

(** X9. [renderEntries] on an array of entries replaces what [#entries-list]
    held: by the notice "Your vault is empty." when there is no entry, else by
    one article per entry, in the order of the entries, each with the id, the
    title and the content of its entry.  Nothing else changes. *)
Theorem renderEntries_lists_entries (w : World) (es : list Entry) :
  entries (vault w) = entries_value es ->
  let w' := run renderEntries w in
  fst (renderEntries w) = Ok tt
  /\ entries_list (document w')
     = match es with
       | [] => Notice (js "Your vault is empty.")
       | _ :: _ =>
           Articles
             (List.map (fun e =>
                mkArticle (Some (JString (id e))) (Some (JString (title e)))
                  (Some (JString (content e)))) es)
       end
  /\ vault w' = vault w /\ localStorage w' = localStorage w /\ entropy w' = entropy w
  /\ master_password (document w') = master_password (document w)
  /\ entry_title (document w') = entry_title (document w)
  /\ entry_content (document w') = entry_content (document w)
  /\ login_error (document w') = login_error (document w)
  /\ entry_error (document w') = entry_error (document w)
  /\ view (document w') = view (document w).
Proof.
  intros Hentries. cbv zeta. unfold run. rewrite (renderEntries_run w es Hentries).
  cbn [fst snd]. split; [reflexivity|]. split; [destruct es; reflexivity|].
  repeat split.
Qed.

(** [trim] leaves a trimmed string as it is. *)
Lemma trim_start_head s :
  (forall c, head s = Some c -> is_js_whitespace c = false) -> trim_start s = s.
Proof.
  destruct s as [|c s]; [reflexivity|]. intros Hc. cbn [trim_start].
  now rewrite (Hc c eq_refl).
Qed.

Lemma trim_trim s : trim (trim s) = trim s.
Proof.
  destruct (trim_spec s) as (pre & post & _ & _ & _ & Hhead & Hlast).
  unfold trim at 1. rewrite (trim_start_head (trim s) Hhead).
  unfold trim_end. rewrite trim_start_head; [apply rev_involutive|].
  intros c Hc. apply Hlast. rewrite <- (rev_involutive (trim s)), last_rev. exact Hc.
Qed.

(** [addEntry] on an open vault when the envelope can be sealed, the page
    included. *)
Lemma addEntry_world w key es t ts c cs :
  cryptoKey (vault w) = Some key ->
  entries (vault w) = entries_value es ->
  let e := new_entry (t :: ts) (c :: cs) w in
  let sealed :=
    envelope key (next_random IV_LENGTH (drawn 16 w))
      (JSON_stringify (entries_value (es ++ [e]))) in
  sealable key (next_random IV_LENGTH (drawn 16 w))
    (JSON_stringify (entries_value (es ++ [e]))) = true ->
  run (addEntry (t :: ts) (c :: cs)) w
  = mkWorld (mkVault (entries_value (es ++ [e])) (Some key) (salt (vault w)))
      (setItem STORAGE_KEY sealed (localStorage w))
      (mkDom (master_password (document w)) [] [] (login_error (document w)) []
         (rendered (es ++ [e])) (view (document w)))
      (fun i => entropy w (16 + (IV_LENGTH + i))%nat).
Proof.
  intros Hkey Hentries. cbv zeta. intros Hfits. unfold addEntry, run. cbn [falsy orb].
  rewrite bind_eq. unfold randomUUID. rewrite bind_eq, getRandomBytes_run.
  cbn [mret M_ret]. rewrite bind_eq. unfold entries_push.
  rewrite bind_eq. cbn [get]. rewrite bind_eq.
  change (entries (vault (drawn 16 w))) with (entries (vault w)).
  rewrite Hentries. cbn [entries_value array_elements lift modify].
  unfold detach. cbn [snd].
  rewrite bind_eq.
  fold (new_entry (t :: ts) (c :: cs) w).
  rewrite entries_value_snoc.
  erewrite saveVaultData_run by first [cbn; exact Hkey|exact Hfits].
  rewrite bind_eq.
  erewrite renderEntries_run by reflexivity.
  destruct w as [[en k sa] s [pw ti co le ee el vw] r].
  cbn in Hkey. subst k. reflexivity.
Qed.

(** X10. [handleAddEntry] with a title and a content that are not blank, on an
    open vault, when the envelope of the entries with the new one is not too
    long for the engine to spread: the entry with a fresh id and the trimmed
    title and content is appended, the envelope of all the entries is stored,
    the list on the page shows them, and the two fields and the message of the
    form are cleared. *)
Theorem handleAddEntry_adds_entry (w : World) (key : CryptoKey) (es : list Entry) :
  cryptoKey (vault w) = Some key ->
  entries (vault w) = entries_value es ->
  trim (entry_title (document w)) <> [] ->
  trim (entry_content (document w)) <> [] ->
  let w' := run handleAddEntry w in
  let e :=
    mkEntry (uuid_v4 (next_random 16 w)) (trim (entry_title (document w)))
      (trim (entry_content (document w))) in
  sealable key (next_random IV_LENGTH (drawn 16 w))
    (JSON_stringify (entries_value (es ++ [e]))) = true ->
  entries (vault w') = entries_value (es ++ [e])
  /\ getItem STORAGE_KEY (localStorage w')
     = Some (envelope key (next_random IV_LENGTH (drawn 16 w))
               (JSON_stringify (entries_value (es ++ [e]))))
  /\ entries_list (document w') = Articles (List.map article_of (es ++ [e]))
  /\ entry_title (document w') = []
  /\ entry_content (document w') = []
  /\ entry_error (document w') = [].
Proof.
  intros Hkey Hentries Ht Hc. cbv zeta. intros Hfits. unfold handleAddEntry, run.
  rewrite bind_eq. cbn [hideEntryError showEntryError modify]. rewrite bind_eq.
  cbn [get]. cbn [set_document document entry_title entry_content].
  assert (forall x, next_random 16 x = next_random 16 w ->
          entropy x = entropy w ->
          new_entry (trim (entry_title (document w))) (trim (entry_content (document w))) x
          = mkEntry (uuid_v4 (next_random 16 w)) (trim (entry_title (document w)))
              (trim (entry_content (document w)))) as Hnew.
  { intros x Hx _. unfold new_entry. now rewrite Hx, !trim_trim. }
  destruct (trim (entry_title (document w))) as [|t ts] eqn:Et; [congruence|].
  destruct (trim (entry_content (document w))) as [|c cs] eqn:Ec; [congruence|].
  cbn [falsy orb].
  match goal with |- context [addEntry _ _ ?x] =>
    pose proof (addEntry_world x key es t ts c cs Hkey Hentries) as Hrun;
    specialize (Hnew x eq_refl eq_refl)
  end.
  cbv zeta in Hrun. rewrite Hnew in Hrun. unfold run in Hrun.
  rewrite Hrun by exact Hfits. clear Hrun.
  cbn [vault localStorage document entries entries_list entry_title entry_content
       entry_error set_document].
  change (next_random 16 (mkWorld (vault w) (localStorage w) _ (entropy w)))
    with (next_random 16 w).
  repeat split.
  - unfold getItem, setItem. cbn [items]. apply lookup_insert_eq.
  - unfold rendered. destruct es; reflexivity.
Qed.

End Page.
(** ** More about unlocking *)

Section Unlock_paths.
Context `{Host}.

(** A successful unlock, the page included. *)
Lemma finish_unlock_world password salt0 w2 c data es :
  getItem STORAGE_KEY (localStorage w2) = Some (c :: data) ->
  open_and_parse (Some (deriveKey password salt0)) (c :: data) = Ok (entries_value es) ->
  finish_unlock password salt0 w2
  = mkWorld (mkVault (entries_value es) (Some (deriveKey password salt0)) (Some salt0))
      (localStorage w2)
      (mkDom [] (entry_title (document w2)) (entry_content (document w2))
         (login_error (document w2)) (entry_error (document w2))
         (rendered es) VaultView)
      (entropy w2).
Proof.
  intros Hitem Hopen. unfold finish_unlock. rewrite loadVaultData_run.
  change (localStorage (with_key password salt0 w2)) with (localStorage w2).
  rewrite Hitem.
  change (cryptoKey (vault (with_key password salt0 w2)))
    with (Some (deriveKey password salt0)).
  rewrite Hopen. erewrite renderEntries_run by reflexivity. reflexivity.
Qed.

(** X11. After an unlock that opens the vault the list on the page shows the
    entries, and the logout that follows does not clear it: the key and the
    entries in memory are dropped and the login section is shown, but
    [#entries-list] still holds the article of every entry, with its title and
    content. *)
Theorem logout_keeps_rendered_entries (w : World) (P : jsstring)
    (salt0 iv : list byte) (es : list Entry) :
  master_password (document w) = P -> P <> [] ->
  getItem SALT_KEY (localStorage w) = Some (base64_encode salt0) -> salt0 <> [] ->
  getItem STORAGE_KEY (localStorage w)
  = Some (envelope (deriveKey P salt0) iv (JSON_stringify (entries_value es))) ->
  length iv = IV_LENGTH ->
  Forall wf_entry es -> es <> [] ->
  let w1 := run handleUnlock w in
  let w2 := run handleLogout w1 in
  entries (vault w1) = entries_value es
  /\ entries_list (document w1) = Articles (List.map article_of es)
  /\ master_password (document w1) = []
  /\ vault w2 = mkVault (JArray []) None (Some salt0)
  /\ view (document w2) = LoginView
  /\ entries_list (document w2) = Articles (List.map article_of es).
Proof.
  intros Hpw Hne Hsalt Hsalt0 Hsealed Hiv Hwf Hes. cbv zeta.
  destruct P as [|p pw]; [congruence|]. destruct salt0 as [|b bs]; [congruence|].
  rewrite handleLogout_run.
  rewrite (handleUnlock_run w p pw Hpw).
  rewrite (obtain_salt_stored _ b bs) by exact Hsalt.
  destruct (envelope_not_empty (deriveKey (p :: pw) (b :: bs)) iv
              (JSON_stringify (entries_value es)) Hiv) as (c & data & Henv).
  rewrite (finish_unlock_world (p :: pw) (b :: bs) _ c data es).
  - destruct es as [|e es]; [congruence|]. repeat split.
  - rewrite <- Henv. exact Hsealed.
  - rewrite <- Henv. now apply open_sealed_entries.
Qed.

(** X12. A stored salt that is no base64 text: [atob] throws inside
    [loadSalt], and [handleUnlock] ends in its [catch] with the message "An
    error occurred during unlock.", which is not the message of a wrong
    password.  The vault, [localStorage] and the random source are untouched,
    and the login section stays. *)
Theorem unlock_with_corrupt_salt (w : World) (stored : jsstring) (e : exn) :
  master_password (document w) <> [] ->
  getItem SALT_KEY (localStorage w) = Some stored -> stored <> [] ->
  atob stored = Throw e ->
  let w' := run handleUnlock w in
  login_error (document w') = js "An error occurred during unlock."
  /\ vault w' = vault w /\ localStorage w' = localStorage w /\ entropy w' = entropy w
  /\ view (document w') = view (document w)
  /\ master_password (document w') = master_password (document w).
Proof.
  intros Hpw Hsalt Hne Hatob. cbv zeta.
  destruct (master_password (document w)) as [|p pw] eqn:Epw; [congruence|].
  destruct stored as [|c b64]; [congruence|].
  rewrite (handleUnlock_run w p pw Epw). unfold obtain_salt.
  change (localStorage (run hideLoginError w)) with (localStorage w).
  rewrite Hsalt, Hatob. repeat split. exact Epw.
Qed.

(** [renderEntries] on a value that is no array and whose [length] is not 0. *)
Lemma renderEntries_throws w v :
  entries (vault w) = v ->
  (forall elements, v <> JArray elements) ->
  length_is_zero v <> Ok true ->
  renderEntries w = (Throw TypeError, with_entries_list (Articles []) w).
Proof.
  intros Hv Harray Hlength. unfold renderEntries. rewrite bind_eq.
  cbn [set_entries_list modify]. rewrite bind_eq. cbn [get]. rewrite bind_eq.
  cbn [set_document vault]. rewrite Hv.
  destruct v as [| | | |elements|]; try reflexivity.
  - cbn [length_is_zero] in *. destruct (length s =? 0)%nat; [congruence|reflexivity].
  - now destruct (Harray elements).
  - cbn [length_is_zero] in *.
    destruct (List.find _ properties) as [[k [| |literal| | |]]|]; try reflexivity.
    destruct (number_is_zero literal); [congruence|reflexivity].
Qed.

(** [handleUnlock] when the envelope holds JSON that is no array. *)
Lemma handleUnlock_non_array (w : World) (P : jsstring)
    (salt0 iv payload : list byte) (v : json) :
  master_password (document w) = P -> P <> [] ->
  getItem SALT_KEY (localStorage w) = Some (base64_encode salt0) -> salt0 <> [] ->
  getItem STORAGE_KEY (localStorage w)
  = Some (base64_encode (iv ++ aes_gcm_encrypt (deriveKey P salt0) iv payload)) ->
  length iv = IV_LENGTH ->
  JSON_parse (decodeUTF8 payload) = Ok v ->
  (forall elements, v <> JArray elements) ->
  length_is_zero v <> Ok true ->
  let w' := run handleUnlock w in
  login_error (document w') = js "An error occurred during unlock."
  /\ vault w' = mkVault v (Some (deriveKey P salt0)) (Some salt0)
  /\ view (document w') = VaultView
  /\ master_password (document w') = []
  /\ entries_list (document w') = Articles []
  /\ localStorage w' = localStorage w.
Proof.
  intros Hpw Hne Hsalt Hsalt0 Hsealed Hiv Hparse Harray Hlength. cbv zeta.
  destruct P as [|p pw]; [congruence|]. destruct salt0 as [|b bs]; [congruence|].
  rewrite (handleUnlock_run w p pw Hpw).
  rewrite (obtain_salt_stored _ b bs) by exact Hsalt.
  unfold finish_unlock. rewrite loadVaultData_run.
  change (localStorage (with_key (p :: pw) (b :: bs) (run hideLoginError w)))
    with (localStorage w).
  rewrite Hsealed.
  assert (exists c data,
    base64_encode (iv ++ aes_gcm_encrypt (deriveKey (p :: pw) (b :: bs)) iv payload)
    = c :: data) as (c & data & Henv).
  { unfold base64_encode.
    destruct iv as [|x iv]; [discriminate|].
    destruct iv as [|y iv]; [discriminate|]. destruct iv as [|z iv]; [discriminate|].
    cbn [app sextets List.map]. eauto. }
  rewrite Henv, <- Henv.
  change (cryptoKey (vault (with_key (p :: pw) (b :: bs) (run hideLoginError w))))
    with (Some (deriveKey (p :: pw) (b :: bs))).
  assert (open_and_parse (Some (deriveKey (p :: pw) (b :: bs)))
            (base64_encode
               (iv ++ aes_gcm_encrypt (deriveKey (p :: pw) (b :: bs)) iv payload))
          = Ok v) as ->.
  { unfold open_and_parse, decrypt, atob. rewrite base64_decode_encode.
    cbn [mbind result_bind].
    unfold bytes_of_binary_string, fromCharCode. rewrite map_byte_of_N_to_N.
    rewrite take_app_length' by (symmetry; exact Hiv).
    rewrite drop_app_length' by (symmetry; exact Hiv).
    cbn [subtle_decrypt]. rewrite aes_gcm_decrypt_encrypt.
    cbn [mbind result_bind mret result_ret]. exact Hparse. }
  erewrite (renderEntries_throws _ v); [|reflexivity|exact Harray|exact Hlength].
  repeat split.
Qed.

(** X13. The stored envelope opens under the key of the password, and what it
    holds is JSON but no array (and has no [length] that is 0): an object, a
    number, [true], [null], a non-empty string.  [loadVaultData] accepts the
    value, [handleUnlock] clears the password and shows the vault section, and
    then [renderEntries] throws a [TypeError]: the unlock ends in its [catch]
    with "An error occurred during unlock.", with the key still set and the
    value as [vault.entries]. *)
Theorem unlock_with_non_array_payload (w : World) (P : jsstring)
    (salt0 iv payload : list byte) (v : json) :
  master_password (document w) = P -> P <> [] ->
  getItem SALT_KEY (localStorage w) = Some (base64_encode salt0) -> salt0 <> [] ->
  getItem STORAGE_KEY (localStorage w)
  = Some (base64_encode (iv ++ aes_gcm_encrypt (deriveKey P salt0) iv payload)) ->
  length iv = IV_LENGTH ->
  JSON_parse (decodeUTF8 payload) = Ok v ->
  (forall elements, v <> JArray elements) ->
  length_is_zero v <> Ok true ->
  let w' := run handleUnlock w in
  login_error (document w') = js "An error occurred during unlock."
  /\ vault w' = mkVault v (Some (deriveKey P salt0)) (Some salt0)
  /\ view (document w') = VaultView
  /\ master_password (document w') = []
  /\ entries_list (document w') = Articles []
  /\ localStorage w' = localStorage w.
Proof. exact (handleUnlock_non_array w P salt0 iv payload v). Qed.

(** The stored envelope and the writes to its key. *)
Definition envelope_view (w : World) : option jsstring * list (jsstring * jsstring) :=
  (getItem STORAGE_KEY (localStorage w),
   List.filter (fun kv => bool_decide (fst kv = STORAGE_KEY)) (writes (localStorage w))).

Lemma keeps_envelope_saveSalt salt0 : keeps envelope_view (saveSalt salt0).
Proof.
  intros w. destruct (spreads salt0) eqn:Hfits.
  - rewrite saveSalt_run by exact Hfits. cbn [snd].
    unfold envelope_view, getItem.
    cbn [set_localStorage localStorage setItem items writes].
    rewrite lookup_insert_ne by discriminate.
    rewrite List.filter_app. cbn. now rewrite app_nil_r.
  - now rewrite saveSalt_too_long by exact Hfits.
Qed.

Lemma keeps_envelope_random n : keeps envelope_view (getRandomBytes n).
Proof. intros w. reflexivity. Qed.

Lemma keeps_envelope_renderEntries : keeps envelope_view renderEntries.
Proof. unfold renderEntries, set_entries_list, append_article. keeps. Qed.

(** X14. [handleUnlock] never writes the envelope: whatever the password and
    whatever is stored, the item of the envelope is after the unlock what it
    was before, and no write to its key was made.  The same holds of
    [handleLogout]. *)
Theorem unlock_never_writes_envelope (w : World) :
  envelope_view (run handleUnlock w) = envelope_view w
  /\ envelope_view (run handleLogout w) = envelope_view w.
Proof.
  split; [|reflexivity].
  assert (keeps envelope_view handleUnlock) as Hkeeps; [|apply Hkeeps].
  unfold handleUnlock, hideLoginError, showLoginError, loadSalt, loadVaultData,
    loadVault, set_master_password, showVaultSection, set_view.
  keeps; first [apply keeps_envelope_random|apply keeps_envelope_saveSalt
               |apply keeps_envelope_renderEntries].
Qed.

End Unlock_paths.

(** C5, against the claim: the envelope holds the two bytes of the text of an
    empty object, sealed under the key of the password.  That is no entry
    collection, so decoding fails in the sense of the claim; but the unlock
    keeps the derived key, shows the vault section, and its message is not the
    one of a failed unlock. *)
Lemma unlock_keeps_key_on_object_payload :
  exists payload : list byte,
    payload = [Byte.x7b; Byte.x7d]
    /\ (forall es, JSON_parse (decodeUTF8 payload) <> Ok (entries_value es))
    /\ forall (H : Host) (w : World) (P : jsstring) (salt0 iv : list byte),
         master_password (document w) = P -> P <> [] ->
         getItem SALT_KEY (localStorage w) = Some (base64_encode salt0) ->
         salt0 <> [] ->
         getItem STORAGE_KEY (localStorage w)
         = Some (base64_encode
                   (iv ++ aes_gcm_encrypt (deriveKey P salt0) iv payload)) ->
         length iv = IV_LENGTH ->
         cryptoKey (vault (run handleUnlock w)) = Some (deriveKey P salt0)
         /\ view (document (run handleUnlock w)) = VaultView
         /\ login_error (document (run handleUnlock w))
            = js "An error occurred during unlock."
         /\ login_error (document (run handleUnlock w))
            <> js "Invalid password or corrupted vault.".
Proof.
  exists [Byte.x7b; Byte.x7d]. split; [reflexivity|]. split; [discriminate|].
  intros H w P salt0 iv Hpw Hne Hsalt Hsalt0 Hitem Hiv.
  destruct (handleUnlock_non_array w P salt0 iv [Byte.x7b; Byte.x7d] (JObject [])
              Hpw Hne Hsalt Hsalt0 Hitem Hiv eq_refl
              ltac:(discriminate) ltac:(discriminate))
    as (Hmessage & Hvault & Hview & _).
  rewrite Hvault, Hview, Hmessage. repeat split. discriminate.
Qed.
(** ** Passwords that derive one key, and entries added and deleted *)

Section Keys_and_entries.
Context `{Host}.

Lemma code_points_snoc_zero s : code_points (s ++ [0]) = code_points s ++ [0].
Proof.
  induction s as [|c|c d s IH1 IH2] using jsstring_pair_ind.
  - reflexivity.
  - cbn [app code_points].
    destruct (is_high_surrogate c); [reflexivity|].
    destruct (is_low_surrogate c); reflexivity.
  - change ((c :: d :: s) ++ [0]) with (c :: d :: (s ++ [0])).
    rewrite !code_points_pair.
    change (d :: s ++ [0]) with ((d :: s) ++ [0]). rewrite IH1, IH2.
    destruct (is_high_surrogate c); [destruct (is_low_surrogate d)|];
      [reflexivity|reflexivity|].
    destruct (is_low_surrogate c); reflexivity.
Qed.

Lemma encodeUTF8_snoc_zero s : encodeUTF8 (s ++ [0]) = encodeUTF8 s ++ [Byte.x00].
Proof.
  unfold encodeUTF8. rewrite code_points_snoc_zero, flat_map_app. reflexivity.
Qed.

(** X15. A password whose UTF-8 form is shorter than 64 bytes and the same
    password followed by U+0000 derive the same key with every salt: HMAC
    fills its key up to 64 bytes with zero bytes. *)
Theorem deriveKey_ignores_trailing_zero (password : jsstring) (salt0 : list byte) :
  (length (encodeUTF8 password) < 64)%nat ->
  deriveKey (password ++ [0]) salt0 = deriveKey password salt0.
Proof.
  intros Hlen. unfold deriveKey.
  rewrite (pbkdf2_key_block (encodeUTF8 (password ++ [0])) (encodeUTF8 password));
    [reflexivity|].
  rewrite encodeUTF8_snoc_zero. now apply hmac_key_block_zero.
Qed.

Lemma without_snoc (e : Entry) es : without (id e) (es ++ [e]) = without (id e) es.
Proof.
  unfold without. rewrite List.filter_app. cbn [List.filter].
  rewrite bool_decide_eq_true_2 by reflexivity. cbn [negb]. apply app_nil_r.
Qed.

(** X16. [addEntry] and then [deleteEntry] with the id of the new entry, on an
    open vault, when neither envelope is too long for the engine to spread:
    the new entry is gone again, together with every older entry that has the
    same id; when no older entry has it the entries are what they were.  The
    envelope stored last is that of the entries left, under a nonce drawn
    after the one of the first envelope. *)
Theorem add_then_delete (w : World) (key : CryptoKey) (es : list Entry)
    (title0 content0 : jsstring) :
  cryptoKey (vault w) = Some key ->
  entries (vault w) = entries_value es ->
  title0 <> [] -> content0 <> [] ->
  let e := new_entry title0 content0 w in
  let w' := run (deleteEntry (id e)) (run (addEntry title0 content0) w) in
  sealable key (next_random IV_LENGTH (drawn 16 w))
    (JSON_stringify (entries_value (es ++ [e]))) = true ->
  sealable key (next_random IV_LENGTH (drawn (16 + IV_LENGTH) w))
    (JSON_stringify (entries_value (without (id e) es))) = true ->
  entries (vault w') = entries_value (without (id e) es)
  /\ (Forall (fun x => id x <> id e) es -> entries (vault w') = entries_value es)
  /\ getItem STORAGE_KEY (localStorage w')
     = Some (envelope key (next_random IV_LENGTH (drawn (16 + IV_LENGTH) w))
               (JSON_stringify (entries_value (without (id e) es)))).
Proof.
  intros Hkey Hentries Ht Hc. cbv zeta. intros Hfits1 Hfits2.
  destruct title0 as [|t ts]; [congruence|]. destruct content0 as [|c cs]; [congruence|].
  pose proof (addEntry_world w key es t ts c cs Hkey Hentries) as Hadd.
  cbv zeta in Hadd. rewrite Hadd by exact Hfits1. clear Hadd.
  set (e := new_entry (t :: ts) (c :: cs) w) in *.
  rewrite <- (without_snoc e es) in Hfits2.
  match goal with |- context [run (deleteEntry _) ?x] =>
    destruct (data_view_eq _ _
                (deleteEntry_run x key (es ++ [e]) (id e) eq_refl eq_refl Hfits2))
      as (Hv & Hs & _)
  end.
  rewrite Hv, Hs. rewrite without_snoc.
  cbn [saved set_vault set_localStorage set_entries vault entries localStorage].
  split; [reflexivity|]. split.
  - intros Hfresh. now rewrite (proj1 (proj2 (without_spec (id e) es)) Hfresh).
  - unfold getItem, setItem. cbn [items]. rewrite lookup_insert_eq. reflexivity.
Qed.

(** X17. [deleteEntry] on an open vault draws the list again once the
    envelope is stored: the page shows the entries that are left, or the
    notice of the empty vault when none is, and nothing else on the page
    changes.  When the envelope is too long for the engine to spread, the save
    throws and the page is not drawn again: it stays as it is. *)
Theorem deleteEntry_rerenders (w : World) (key : CryptoKey) (es : list Entry)
    (id0 : jsstring) :
  cryptoKey (vault w) = Some key ->
  entries (vault w) = entries_value es ->
  let w' := run (deleteEntry id0) w in
  let fits :=
    sealable key (next_random IV_LENGTH w)
      (JSON_stringify (entries_value (without id0 es))) in
  (fits = true ->
   entries_list (document w')
   = match without id0 es with
     | [] => Notice (js "Your vault is empty.")
     | e :: rest => Articles (List.map article_of (e :: rest))
     end)
  /\ (fits = false -> entries_list (document w') = entries_list (document w))
  /\ master_password (document w') = master_password (document w)
  /\ entry_title (document w') = entry_title (document w)
  /\ entry_content (document w') = entry_content (document w)
  /\ login_error (document w') = login_error (document w)
  /\ entry_error (document w') = entry_error (document w)
  /\ view (document w') = view (document w).
Proof.
  intros Hkey Hentries. cbv zeta.
  destruct (sealable key (next_random IV_LENGTH w)
              (JSON_stringify (entries_value (without id0 es)))) eqn:Hfits.
  - unfold deleteEntry, run.
    rewrite bind_eq. cbn [get]. rewrite bind_eq, Hentries.
    cbn [entries_value array_elements lift]. rewrite bind_eq, filter_entries.
    cbn [lift]. rewrite bind_eq. cbn [modify]. unfold detach. cbn [snd].
    rewrite bind_eq.
    erewrite saveVaultData_run by first [cbn; exact Hkey|exact Hfits].
    erewrite (renderEntries_run _ (without id0 es)) by reflexivity.
    cbn [snd with_entries_list set_document document entries_list master_password
         entry_title entry_content login_error entry_error view set_localStorage
         drawn set_vault].
    split; [intros _; unfold rendered; destruct (without id0 es); reflexivity|].
    split; [discriminate|]. repeat split.
  - rewrite (deleteEntry_too_long w key es id0 Hkey Hentries Hfits).
    cbn [drawn set_vault document].
    split; [discriminate|]. repeat split.
Qed.

(** X18. When [vault.entries] is no array (see X13) [addEntry] and
    [deleteEntry] throw a [TypeError] at [push] and at [filter]: the vault,
    [localStorage] and the page stay as they are. *)
Theorem mutations_on_non_array (w : World) :
  (forall elements, entries (vault w) <> JArray elements) ->
  (forall title0 content0, title0 <> [] -> content0 <> [] ->
     let w' := run (addEntry title0 content0) w in
     fst (addEntry title0 content0 w) = Throw TypeError
     /\ vault w' = vault w /\ localStorage w' = localStorage w
     /\ document w' = document w)
  /\ (forall id0,
        deleteEntry id0 w = (Throw TypeError, w)).
Proof.
  intros Harray.
  assert (array_elements (entries (vault w)) = Throw TypeError) as Hthrow.
  { destruct (entries (vault w)) as [| | | |elements|]; try reflexivity.
    now destruct (Harray elements). }
  split.
  - intros title0 content0 Ht Hc. cbv zeta.
    destruct title0 as [|t ts]; [congruence|]. destruct content0 as [|c cs]; [congruence|].
    unfold addEntry, run. cbn [falsy orb].
    rewrite bind_eq. unfold randomUUID. rewrite bind_eq, getRandomBytes_run.
    cbn [mret M_ret]. rewrite bind_eq. unfold entries_push.
    rewrite bind_eq. cbn [get]. rewrite bind_eq.
    change (entries (vault (drawn 16 w))) with (entries (vault w)).
    rewrite Hthrow. repeat split.
  - intros id0. unfold deleteEntry. rewrite bind_eq. cbn [get].
    rewrite bind_eq, Hthrow. reflexivity.
Qed.

End Keys_and_entries.
(** ** Attempts to unlock do not harm the stored vault *)

Section Attempts.
Context `{Host}.

(** Typing into the fields, unlocking and logging out; adding and deleting
    entries are the other actions. *)
Definition reads_only (a : Action) : bool :=
  match a with
  | InputPassword _ | InputTitle _ | InputContent _ | Unlock | Logout => true
  | SubmitEntry | CallAddEntry _ _ | CallDeleteEntry _ => false
  end.

Lemma keeps_storage_loadVaultData : keeps localStorage loadVaultData.
Proof. unfold loadVaultData, loadVault. keeps. Qed.

Lemma keeps_storage_renderEntries : keeps localStorage renderEntries.
Proof. unfold renderEntries, set_entries_list, append_article. keeps. Qed.

Lemma finish_unlock_storage password salt0 w2 :
  localStorage (finish_unlock password salt0 w2) = localStorage w2.
Proof.
  unfold finish_unlock.
  pose proof (keeps_storage_loadVaultData (with_key password salt0 w2)) as Hload.
  destruct (loadVaultData (with_key password salt0 w2)) as [[[|]|e] w3];
    cbn [snd] in Hload.
  - match goal with |- context [renderEntries ?x] =>
      pose proof (keeps_storage_renderEntries x) as Hr;
      destruct (renderEntries x) as [[[]|e] w4]
    end; cbn [snd] in Hr.
    + rewrite Hr. exact Hload.
    + change (localStorage w4 = localStorage w2). rewrite Hr. exact Hload.
  - exact Hload.
  - exact Hload.
Qed.

(** With a salt in store, [handleUnlock] writes nothing at all. *)
Lemma handleUnlock_storage w b bs :
  getItem SALT_KEY (localStorage w) = Some (base64_encode (b :: bs)) ->
  localStorage (run handleUnlock w) = localStorage w.
Proof.
  intros Hsalt. destruct (master_password (document w)) as [|p pw] eqn:Epw.
  - now rewrite handleUnlock_empty.
  - rewrite (handleUnlock_run w p pw Epw).
    rewrite (obtain_salt_stored _ b bs) by exact Hsalt.
    now rewrite finish_unlock_storage.
Qed.

Lemma step_reads_only w a b bs :
  reads_only a = true ->
  getItem SALT_KEY (localStorage w) = Some (base64_encode (b :: bs)) ->
  localStorage (step w a) = localStorage w.
Proof.
  intros Ha Hsalt. destruct a; try discriminate; try reflexivity.
  unfold step. cbn [perform]. now apply (handleUnlock_storage w b bs).
Qed.

Lemma run_actions_reads_only actions b bs : forall w,
  forallb reads_only actions = true ->
  getItem SALT_KEY (localStorage w) = Some (base64_encode (b :: bs)) ->
  localStorage (run_actions actions w) = localStorage w.
Proof.
  induction actions as [|a actions IH]; intros w Hall Hsalt; [reflexivity|].
  cbn [forallb] in Hall. apply andb_true_iff in Hall as [Ha Hall].
  unfold run_actions. cbn [fold_left]. fold (run_actions actions (step w a)).
  pose proof (step_reads_only w a b bs Ha Hsalt) as Hstep.
  rewrite IH; [exact Hstep|exact Hall|now rewrite Hstep].
Qed.

(** X19. The salt and the envelope of the entries, sealed under the key of
    the password [P], are stored.  After any sequence of typing, attempts to
    unlock (with whatever passwords) and logouts, [localStorage] is what it
    was, and typing [P] and unlocking opens the vault with the entries. *)
Theorem vault_survives_attempts (actions : list Action) (w : World) (P : jsstring)
    (salt0 iv : list byte) (es : list Entry) :
  forallb reads_only actions = true ->
  P <> [] ->
  getItem SALT_KEY (localStorage w) = Some (base64_encode salt0) -> salt0 <> [] ->
  getItem STORAGE_KEY (localStorage w)
  = Some (envelope (deriveKey P salt0) iv (JSON_stringify (entries_value es))) ->
  length iv = IV_LENGTH ->
  Forall wf_entry es ->
  let w' := run_actions (actions ++ [InputPassword P; Unlock]) w in
  localStorage (run_actions actions w) = localStorage w
  /\ vault w' = mkVault (entries_value es) (Some (deriveKey P salt0)) (Some salt0)
  /\ view (document w') = VaultView
  /\ entries_list (document w') = rendered es
  /\ localStorage w' = localStorage w.
Proof.
  intros Hall Hne Hsalt Hsalt0 Hsealed Hiv Hwf. cbv zeta.
  destruct P as [|p pw]; [congruence|]. destruct salt0 as [|b bs]; [congruence|].
  pose proof (run_actions_reads_only actions b bs w Hall Hsalt) as Hstore.
  split; [exact Hstore|].
  unfold run_actions at 1 2 3 4. rewrite fold_left_app. fold (run_actions actions w).
  set (wn := run_actions actions w) in *. cbn [fold_left].
  set (w1 := step wn (InputPassword (p :: pw))).
  change (step w1 Unlock) with (run handleUnlock w1).
  assert (localStorage w1 = localStorage w) as Hs1 by exact Hstore.
  rewrite (handleUnlock_run w1 p pw eq_refl).
  rewrite (obtain_salt_stored _ b bs)
    by (change (localStorage (run hideLoginError w1)) with (localStorage w1);
        rewrite Hs1; exact Hsalt).
  destruct (envelope_not_empty (deriveKey (p :: pw) (b :: bs)) iv
              (JSON_stringify (entries_value es)) Hiv) as (c & data & Henv).
  rewrite (finish_unlock_world (p :: pw) (b :: bs) _ c data es).
  - cbn [vault document view entries_list localStorage].
    change (localStorage (run hideLoginError w1)) with (localStorage w1).
    rewrite Hs1. repeat split.
  - change (localStorage (run hideLoginError w1)) with (localStorage w1).
    rewrite Hs1, <- Henv. exact Hsealed.
  - rewrite <- Henv. now apply open_sealed_entries.
Qed.

End Attempts.
(** The statements above that have hypotheses, on pages of the toy host. *)
Section More_witnesses.
Local Existing Instance toy_host.

(** The open page with the form filled in. *)
Definition form_page : World :=
  mkWorld (mkVault (entries_value [note]) (Some ([Byte.x01] : CryptoKey)) None)
    (mkStorage ∅ [])
    (mkDom [] (js " Key ") (js "1234") [] [] (Articles []) VaultView)
    (fun _ => Byte.x00).

(** The locked page with the password [a] typed, the salt in store and the
    entry [note] sealed under the key of [a]. *)
Definition login_page : World :=
  mkWorld (mkVault (JArray []) None None)
    (mkStorage
       (<[SALT_KEY := base64_encode [Byte.x01]]>
          {[STORAGE_KEY :=
              envelope (deriveKey [97] [Byte.x01]) (repeat Byte.x00 12)
                (JSON_stringify (entries_value [note]))]})
       [])
    (mkDom [97] [] [] [] [] (Articles []) LoginView) (fun _ => Byte.x00).

(** The same with the text of an empty object sealed. *)
Definition object_login_page : World :=
  mkWorld (mkVault (JArray []) None None)
    (mkStorage
       (<[SALT_KEY := base64_encode [Byte.x01]]>
          {[STORAGE_KEY :=
              base64_encode
                (repeat Byte.x00 12
                 ++ aes_gcm_encrypt (deriveKey [97] [Byte.x01]) (repeat Byte.x00 12)
                      [Byte.x7b; Byte.x7d])]})
       [])
    (mkDom [97] [] [] [] [] (Articles []) LoginView) (fun _ => Byte.x00).

(** The locked page with a password typed and a salt in store that is no
    base64 text. *)
Definition bad_salt_page : World :=
  mkWorld (mkVault (JArray []) None None) (mkStorage {[SALT_KEY := js "!"]} [])
    (mkDom (js "x") [] [] [] [] (Articles []) LoginView) (fun _ => Byte.x00).

Lemma utf8_round_trip_witness :
  wf_string [0x20AC; 0xD83D; 0xDE00]
  /\ isWellFormed [0x20AC; 0xD83D; 0xDE00] = true
  /\ decodeUTF8 (encodeUTF8 [0x20AC; 0xD83D; 0xDE00]) = [0x20AC; 0xD83D; 0xDE00].
Proof.
  assert (wf_string [0x20AC; 0xD83D; 0xDE00]) as Hwf.
  { repeat constructor; unfold is_code_unit; lia. }
  split; [exact Hwf|]. split; [reflexivity|].
  exact (proj1 (utf8_round_trip [0x20AC; 0xD83D; 0xDE00] Hwf eq_refl)
           ltac:(discriminate)).
Defined.

Lemma encrypt_decrypt_round_trip_witness :
  wf_string (js "secret") /\ isWellFormed (js "secret") = true /\ no_bom (js "secret")
  /\ N.of_nat
       (length
          (next_random IV_LENGTH blank_page
           ++ aes_gcm_encrypt [Byte.x01] (next_random IV_LENGTH blank_page)
                (encodeUTF8 (js "secret"))))
     <= max_arguments
  /\ exists sealed,
       fst (encrypt (Some [Byte.x01]) (js "secret") blank_page) = Ok sealed
       /\ decrypt (Some [Byte.x01]) sealed = Ok (js "secret").
Proof.
  assert (wf_string (js "secret")) as Hwf.
  { repeat constructor; cbn; unfold is_code_unit; lia. }
  assert (no_bom (js "secret")) as Hbom by discriminate.
  assert (N.of_nat
            (length
               (next_random IV_LENGTH blank_page
                ++ aes_gcm_encrypt [Byte.x01] (next_random IV_LENGTH blank_page)
                     (encodeUTF8 (js "secret"))))
          <= max_arguments) as Hfits by (apply N.leb_le; reflexivity).
  split; [exact Hwf|]. split; [reflexivity|]. split; [exact Hbom|].
  split; [exact Hfits|].
  destruct (proj1 (@encrypt_decrypt_round_trip toy_host [Byte.x01] (js "secret")
                     blank_page Hwf eq_refl Hbom) Hfits)
    as (sealed & Hseal & _ & Hopen).
  exists sealed. split; [exact (f_equal fst Hseal)|exact Hopen].
Defined.

Lemma saveSalt_loadSalt_witness :
  (length (next_random 16 blank_page) <= 16)%nat
  /\ fst (saveSalt (next_random 16 blank_page) blank_page) = Ok tt
  /\ fst (loadSalt (run (saveSalt (next_random 16 blank_page)) blank_page))
     = Ok (Some (next_random 16 blank_page)).
Proof.
  assert (length (next_random 16 blank_page) <= 16)%nat as Hlen by (cbn; lia).
  split; [exact Hlen|].
  pose proof (proj1 (saveSalt_loadSalt (next_random 16 blank_page) blank_page)
                (or_introl Hlen)) as (Hsave & Hload & _).
  split; [exact Hsave|exact (f_equal fst Hload)].
Defined.

Lemma addEntry_rejects_empty_witness :
  entry_error (document (run (addEntry [] (js "x")) open_page))
  = js "Title and content cannot be empty."
  /\ vault (run (addEntry [] (js "x")) open_page) = vault open_page.
Proof.
  pose proof (addEntry_rejects_empty open_page [] (js "x") (or_introl eq_refl))
    as (Hm & Hv & _).
  split; [exact Hm|exact Hv].
Defined.

Lemma locked_vault_is_not_saved_witness :
  cryptoKey (vault blank_page) = None
  /\ entries (vault blank_page) = entries_value []
  /\ entries (vault (run (addEntry (js "a") (js "b")) blank_page))
     = entries_value [mkEntry (js "00000000-0000-4000-8000-000000000000") (js "a") (js "b")]
  /\ localStorage (run (addEntry (js "a") (js "b")) blank_page) = localStorage blank_page.
Proof.
  split; [reflexivity|]. split; [reflexivity|].
  pose proof (proj1 (locked_vault_is_not_saved blank_page [] eq_refl eq_refl)
                (js "a") (js "b") ltac:(discriminate) ltac:(discriminate))
    as (He & _ & Hs & _).
  split; [exact He|exact Hs].
Defined.

Lemma renderEntries_lists_entries_witness :
  entries (vault open_page) = entries_value [note]
  /\ entries_list (document (run renderEntries open_page))
     = Articles
         [mkArticle (Some (JString (js "1"))) (Some (JString (js "Note")))
            (Some (JString (js "secret")))].
Proof.
  split; [reflexivity|].
  exact (proj1 (proj2 (renderEntries_lists_entries open_page [note] eq_refl))).
Defined.

Lemma handleAddEntry_adds_entry_witness :
  cryptoKey (vault form_page) = Some [Byte.x01]
  /\ entries (vault form_page) = entries_value [note]
  /\ trim (entry_title (document form_page)) <> []
  /\ trim (entry_content (document form_page)) <> []
  /\ sealable [Byte.x01] (next_random IV_LENGTH (drawn 16 form_page))
       (JSON_stringify
          (entries_value
             ([note]
              ++ [mkEntry (uuid_v4 (next_random 16 form_page))
                    (trim (entry_title (document form_page)))
                    (trim (entry_content (document form_page)))]))) = true
  /\ entries (vault (run handleAddEntry form_page))
     = entries_value
         [note; mkEntry (js "00000000-0000-4000-8000-000000000000") (js "Key") (js "1234")]
  /\ entry_title (document (run handleAddEntry form_page)) = [].
Proof.
  assert (trim (entry_title (document form_page)) <> []) as Ht by discriminate.
  assert (trim (entry_content (document form_page)) <> []) as Hc by discriminate.
  assert (sealable [Byte.x01] (next_random IV_LENGTH (drawn 16 form_page))
            (JSON_stringify
               (entries_value
                  ([note]
                   ++ [mkEntry (uuid_v4 (next_random 16 form_page))
                         (trim (entry_title (document form_page)))
                         (trim (entry_content (document form_page)))]))) = true)
    as Hfits by reflexivity.
  split; [reflexivity|]. split; [reflexivity|]. split; [exact Ht|]. split; [exact Hc|].
  split; [exact Hfits|].
  pose proof (@handleAddEntry_adds_entry toy_host form_page [Byte.x01] [note]
                eq_refl eq_refl Ht Hc Hfits)
    as (He & _ & _ & Hti & _).
  split; [exact He|exact Hti].
Defined.

Lemma login_page_salt :
  getItem SALT_KEY (localStorage login_page) = Some (base64_encode [Byte.x01]).
Proof. apply lookup_insert_eq. Qed.

Lemma login_page_envelope :
  getItem STORAGE_KEY (localStorage login_page)
  = Some (envelope (deriveKey [97] [Byte.x01]) (repeat Byte.x00 12)
            (JSON_stringify (entries_value [note]))).
Proof.
  unfold getItem. cbn [login_page localStorage items].
  rewrite lookup_insert_ne by discriminate. apply lookup_singleton_eq.
Qed.

Lemma logout_keeps_rendered_entries_witness :
  master_password (document login_page) = [97]
  /\ Forall wf_entry [note]
  /\ entries_list (document (run handleLogout (run handleUnlock login_page)))
     = Articles
         [mkArticle (Some (JString (js "1"))) (Some (JString (js "Note")))
            (Some (JString (js "secret")))]
  /\ view (document (run handleLogout (run handleUnlock login_page))) = LoginView.
Proof.
  split; [reflexivity|]. split; [exact note_wf|].
  pose proof (logout_keeps_rendered_entries login_page [97] [Byte.x01]
                (repeat Byte.x00 12) [note] eq_refl ltac:(discriminate)
                login_page_salt ltac:(discriminate) login_page_envelope eq_refl
                note_wf ltac:(discriminate)) as Hrun.
  split; [exact (proj2 (proj2 (proj2 (proj2 (proj2 Hrun)))))
         |exact (proj1 (proj2 (proj2 (proj2 (proj2 Hrun)))))].
Defined.

Lemma unlock_with_corrupt_salt_witness :
  master_password (document bad_salt_page) <> []
  /\ getItem SALT_KEY (localStorage bad_salt_page) = Some (js "!")
  /\ atob (js "!") = Throw InvalidCharacterError
  /\ login_error (document (run handleUnlock bad_salt_page))
     = js "An error occurred during unlock."
  /\ localStorage (run handleUnlock bad_salt_page) = localStorage bad_salt_page.
Proof.
  assert (master_password (document bad_salt_page) <> []) as H1 by discriminate.
  assert (getItem SALT_KEY (localStorage bad_salt_page) = Some (js "!")) as H2
    by reflexivity.
  assert (atob (js "!") = Throw InvalidCharacterError) as H3 by reflexivity.
  split; [exact H1|]. split; [exact H2|]. split; [exact H3|].
  pose proof (unlock_with_corrupt_salt bad_salt_page (js "!") InvalidCharacterError
                H1 H2 ltac:(discriminate) H3) as (Hm & _ & Hs & _).
  split; [exact Hm|exact Hs].
Defined.

Lemma unlock_with_non_array_payload_witness :
  master_password (document object_login_page) = [97]
  /\ JSON_parse (decodeUTF8 [Byte.x7b; Byte.x7d]) = Ok (JObject [])
  /\ login_error (document (run handleUnlock object_login_page))
     = js "An error occurred during unlock."
  /\ view (document (run handleUnlock object_login_page)) = VaultView.
Proof.
  assert (JSON_parse (decodeUTF8 [Byte.x7b; Byte.x7d]) = Ok (JObject [])) as Hparse
    by reflexivity.
  assert (getItem STORAGE_KEY (localStorage object_login_page)
          = Some (base64_encode
                    (repeat Byte.x00 12
                     ++ aes_gcm_encrypt (deriveKey [97] [Byte.x01]) (repeat Byte.x00 12)
                          [Byte.x7b; Byte.x7d]))) as Hitem.
  { unfold getItem. cbn [object_login_page localStorage items].
    rewrite lookup_insert_ne by discriminate. apply lookup_singleton_eq. }
  assert (getItem SALT_KEY (localStorage object_login_page)
          = Some (base64_encode [Byte.x01])) as Hsalt by apply lookup_insert_eq.
  split; [reflexivity|]. split; [exact Hparse|].
  pose proof (unlock_with_non_array_payload object_login_page [97] [Byte.x01]
                (repeat Byte.x00 12) [Byte.x7b; Byte.x7d] (JObject [])
                eq_refl ltac:(discriminate) Hsalt ltac:(discriminate) Hitem eq_refl
                Hparse ltac:(discriminate) ltac:(discriminate)) as Hrun.
  split; [exact (proj1 Hrun)|exact (proj1 (proj2 (proj2 Hrun)))].
Defined.

Lemma deriveKey_ignores_trailing_zero_witness :
  (length (encodeUTF8 [97%N]) < 64)%nat
  /\ deriveKey ([97] ++ [0]) [Byte.x01] = deriveKey [97] [Byte.x01].
Proof.
  assert (length (encodeUTF8 [97%N]) < 64)%nat as Hlen by (cbn; lia).
  split; [exact Hlen|].
  exact (deriveKey_ignores_trailing_zero [97] [Byte.x01] Hlen).
Defined.

Lemma add_then_delete_witness :
  cryptoKey (vault open_page) = Some [Byte.x01]
  /\ entries (vault open_page) = entries_value [note]
  /\ sealable [Byte.x01] (next_random IV_LENGTH (drawn 16 open_page))
       (JSON_stringify
          (entries_value ([note] ++ [new_entry (js "a") (js "b") open_page]))) = true
  /\ sealable [Byte.x01] (next_random IV_LENGTH (drawn (16 + IV_LENGTH) open_page))
       (JSON_stringify
          (entries_value
             (without (id (new_entry (js "a") (js "b") open_page)) [note]))) = true
  /\ entries
       (vault
          (run (deleteEntry (js "00000000-0000-4000-8000-000000000000"))
             (run (addEntry (js "a") (js "b")) open_page)))
     = entries_value [note].
Proof.
  assert (sealable [Byte.x01] (next_random IV_LENGTH (drawn 16 open_page))
            (JSON_stringify
               (entries_value ([note] ++ [new_entry (js "a") (js "b") open_page])))
          = true) as Hfits1 by reflexivity.
  assert (sealable [Byte.x01]
            (next_random IV_LENGTH (drawn (16 + IV_LENGTH) open_page))
            (JSON_stringify
               (entries_value
                  (without (id (new_entry (js "a") (js "b") open_page)) [note])))
          = true) as Hfits2 by reflexivity.
  split; [reflexivity|]. split; [reflexivity|].
  split; [exact Hfits1|]. split; [exact Hfits2|].
  exact (proj1 (@add_then_delete toy_host open_page [Byte.x01] [note] (js "a") (js "b")
                  eq_refl eq_refl ltac:(discriminate) ltac:(discriminate)
                  Hfits1 Hfits2)).
Defined.

Lemma deleteEntry_rerenders_witness :
  cryptoKey (vault open_page) = Some [Byte.x01]
  /\ entries (vault open_page) = entries_value [note]
  /\ sealable [Byte.x01] (next_random IV_LENGTH open_page)
       (JSON_stringify (entries_value (without (js "1") [note]))) = true
  /\ entries_list (document (run (deleteEntry (js "1")) open_page))
     = Notice (js "Your vault is empty.").
Proof.
  assert (sealable [Byte.x01] (next_random IV_LENGTH open_page)
            (JSON_stringify (entries_value (without (js "1") [note]))) = true)
    as Hfits by reflexivity.
  split; [reflexivity|]. split; [reflexivity|]. split; [exact Hfits|].
  exact (proj1 (@deleteEntry_rerenders toy_host open_page [Byte.x01] [note] (js "1")
                  eq_refl eq_refl) Hfits).
Defined.

Lemma mutations_on_non_array_witness :
  (forall elements,
     entries (vault (set_vault (set_entries (JObject [])) open_page)) <> JArray elements)
  /\ deleteEntry (js "1") (set_vault (set_entries (JObject [])) open_page)
     = (Throw TypeError, set_vault (set_entries (JObject [])) open_page).
Proof.
  assert (forall elements,
            entries (vault (set_vault (set_entries (JObject [])) open_page))
            <> JArray elements) as Hno by discriminate.
  split; [exact Hno|].
  exact (proj2 (mutations_on_non_array _ Hno) (js "1")).
Defined.

Lemma vault_survives_attempts_witness :
  forallb reads_only [InputPassword (js "b"); Unlock; Logout] = true
  /\ Forall wf_entry [note]
  /\ entries
       (vault
          (run_actions
             ([InputPassword (js "b"); Unlock; Logout] ++ [InputPassword [97]; Unlock])
             login_page))
     = entries_value [note].
Proof.
  split; [reflexivity|]. split; [exact note_wf|].
  pose proof (vault_survives_attempts [InputPassword (js "b"); Unlock; Logout]
                login_page [97] [Byte.x01] (repeat Byte.x00 12) [note]
                eq_refl ltac:(discriminate) login_page_salt ltac:(discriminate)
                login_page_envelope eq_refl note_wf) as Hrun.
  exact (f_equal entries (proj1 (proj2 Hrun))).
Defined.

End More_witnesses.
